(** * The enrichment pipeline of ai-scripting-tool (server.js, models/Tool.js)

    A shallow embedding of the normalisation of the analysis reply
    ([getAIAnalysis]), of one processing attempt ([processRawDataItem]) and of
    the two triggers ([POST /process-raw-data], [POST /process-item/:id]),
    together with the properties of the specification that concern them.
    The status route, the switch and the schedule of automatic processing
    and the attempt of the earlier variant (server1.js) are embedded as well,
    with further properties of the code.

    JavaScript strings are sequences of UTF-16 code units: [jsstring] is
    [list N].  Values are the JSON values plus [undefined] and the two BSON
    types the code touches (ObjectId, Date).  The store, the clock and the
    outcome of every call that leaves the process are explicit: a [World]
    threaded through a state-and-exception monad, and a [Host] that says what
    the n-th outside call answers. *)

From Stdlib Require Import ZArith NArith QArith Qabs List String Ascii Lia Bool.
From Stdlib Require Import DecimalString.
From stdpp Require Import base option list gmap.

Local Open Scope N_scope.
Local Open Scope list_scope.

(** ** Strings *)

Module Str.

(** A JavaScript string: its UTF-16 code units. *)
Definition jsstring : Type := list N.

(** A string literal of the source, code unit by code unit (ASCII). *)
Definition str (s : string) : jsstring :=
  map (fun a => N_of_ascii a) (list_ascii_of_string s).

(** The same, where the apostrophe stands for the quotation mark (U+0022), so
    that JSON texts can be written down. *)
Definition json_text (s : string) : jsstring :=
  map (fun a => if N.eqb (N_of_ascii a) 39 then 34 else N_of_ascii a)
      (list_ascii_of_string s).

(** [\s] of a regular expression, which is also what [trim] removes:
    WhiteSpace and LineTerminator of ECMAScript. *)
Definition isSpace (c : N) : bool :=
  ((9 <=? c) && (c <=? 13)) || (c =? 32) || (c =? 160) || (c =? 5760)
  || ((8192 <=? c) && (c <=? 8202)) || (c =? 8232) || (c =? 8233)
  || (c =? 8239) || (c =? 8287) || (c =? 12288) || (c =? 65279).

(** The longest run matched by [\s*] is dropped. *)
Fixpoint skip_ws (s : jsstring) : jsstring :=
  match s with
  | c :: s' => if isSpace c then skip_ws s' else s
  | [] => []
  end.

(** [s.trim()] *)
Definition trim (s : jsstring) : jsstring :=
  rev (skip_ws (rev (skip_ws s))).

(** [s.startsWith(p)] *)
Fixpoint startsWith (s p : jsstring) : bool :=
  match p, s with
  | [], _ => true
  | c :: p', d :: s' => (c =? d) && startsWith s' p'
  | _ :: _, [] => false
  end.

(** [s.substring(0, n)] *)
Definition substring0 (n : nat) (s : jsstring) : jsstring := firstn n s.

(** [s.replace(/<pat>\s*/, '')]: the leftmost occurrence of the literal [pat]
    goes, with the whitespace run that follows it. *)
Fixpoint replace_open (pat s : jsstring) : jsstring :=
  if startsWith s pat then skip_ws (skipn (length pat) s)
  else match s with
       | [] => []
       | c :: s' => c :: replace_open pat s'
       end.

Definition fence : jsstring := str "```".
Definition fence_json : jsstring := str "```json".

(** [s.replace(/```\s*$/, '')]: the leftmost fence that only whitespace
    separates from the end of the string goes, with that whitespace. *)
Fixpoint replace_close (s : jsstring) : jsstring :=
  if startsWith s fence && forallb isSpace (skipn 3 s) then []
  else match s with
       | [] => []
       | c :: s' => c :: replace_close s'
       end.

(** [s.replace(/\s+/g, '-')]: every maximal whitespace run becomes one hyphen.
    [in_run] says that the previous code unit was whitespace. *)
Fixpoint hyphenate_from (in_run : bool) (s : jsstring) : jsstring :=
  match s with
  | [] => []
  | c :: s' =>
      if isSpace c
      then (if in_run then hyphenate_from true s' else 45 :: hyphenate_from true s')
      else c :: hyphenate_from false s'
  end.

Definition hyphenate (s : jsstring) : jsstring := hyphenate_from false s.

(** [String.prototype.toLowerCase] on the code units of Latin-1 (U+0000 to
    U+00FF); other code units are returned as they are.  It instantiates
    [Host.toLowerCase] in the examples, whose names are ASCII. *)
Definition lower_unit (c : N) : N :=
  if ((65 <=? c) && (c <=? 90)) || ((192 <=? c) && (c <=? 222) && negb (c =? 215))
  then c + 32 else c.

Definition toLowerCase_latin1 (s : jsstring) : jsstring := map lower_unit s.

(** Decimal digits of a natural number ([String(n)] for a count). *)
Definition decimal (n : nat) : jsstring :=
  str (NilEmpty.string_of_uint (Nat.to_uint n)).

End Str.
Export Str.

(** ** Values *)

#[local] Set Warnings "-register-all".

Module Json.

(** The values the code handles: what [JSON.parse] can return, [undefined],
    and the ObjectId and Date of the MongoDB driver.  A number is the rational
    it denotes; an object is the list of its own properties, in insertion
    order, each key once. *)
Inductive Value : Type :=
| VUndefined
| VNull
| VBool (b : bool)
| VNum (q : Q)
| VStr (s : jsstring)
| VArr (items : list Value)
| VObj (props : list (jsstring * Value))
| VObjectId (id : N)
| VDate (ms : Z).

Definition Props : Type := list (jsstring * Value).

(** The own property [k], if any. *)
Fixpoint lookup (k : jsstring) (ps : Props) : option Value :=
  match ps with
  | [] => None
  | (k', v) :: ps' => if decide (k = k') then Some v else lookup k ps'
  end.

(** [o[k] = v] on own properties: an existing key keeps its place. *)
Fixpoint obj_set (k : jsstring) (v : Value) (ps : Props) : Props :=
  match ps with
  | [] => [(k, v)]
  | (k', v') :: ps' =>
      if decide (k = k') then (k, v) :: ps' else (k', v') :: obj_set k v ps'
  end.

(** [{...o, k1: v1, ...}]: the later properties are set one after the other. *)
Definition obj_extend (o : Props) (more : Props) : Props :=
  fold_left (fun acc kv => obj_set (fst kv) (snd kv) acc) more o.

(** [v.k] for a [v] that is neither [null] nor [undefined], and a key [k]
    that no prototype defines (every key the code reads is one): the own
    property of an object, [undefined] otherwise. *)
Definition get (v : Value) (k : jsstring) : Value :=
  match v with
  | VObj ps => default VUndefined (lookup k ps)
  | _ => VUndefined
  end.

(** A binary64 number is [+0] or [-0] when the rational it was read from is at
    most half the least subnormal, 2^-1075, in magnitude. *)
Definition half_min_subnormal : Q := Qmake 1 (Pos.pow 2 1075).

Definition rounds_to_zero (q : Q) : bool := Qle_bool (Qabs q) half_min_subnormal.

(** [ToBoolean]: what [!v] and [v || w] test. *)
Definition truthy (v : Value) : bool :=
  match v with
  | VUndefined | VNull => false
  | VBool b => b
  | VNum q => negb (rounds_to_zero q)
  | VStr s => match s with [] => false | _ :: _ => true end
  | VArr _ | VObj _ | VObjectId _ | VDate _ => true
  end.

(** [a || b] *)
Definition js_or (a b : Value) : Value := if truthy a then a else b.

(** [Array.isArray(v)] *)
Definition isArray (v : Value) : bool :=
  match v with VArr _ => true | _ => false end.

(** *** [JSON.parse] *)

(** The result of a parser that runs on fuel. *)
Inductive Parse (A : Type) : Type :=
| POk (a : A)
| PSyntaxError
| PFuel.
Arguments POk {A} a.
Arguments PSyntaxError {A}.
Arguments PFuel {A}.

(** JSON whitespace: space, tab, line feed, carriage return. *)
Definition json_ws (c : N) : bool :=
  (c =? 32) || (c =? 9) || (c =? 10) || (c =? 13).

Fixpoint skip_json_ws (s : jsstring) : jsstring :=
  match s with
  | c :: s' => if json_ws c then skip_json_ws s' else s
  | [] => []
  end.

Definition digit (c : N) : option Z :=
  if (48 <=? c) && (c <=? 57) then Some (Z.of_N (c - 48)) else None.

Definition hex_digit (c : N) : option N :=
  if (48 <=? c) && (c <=? 57) then Some (c - 48)
  else if (65 <=? c) && (c <=? 70) then Some (c - 55)
  else if (97 <=? c) && (c <=? 102) then Some (c - 87)
  else None.

(** The characters of a string after its opening quotation mark, up to the
    closing one, escapes decoded; and what follows. *)
Fixpoint string_chars (s : jsstring) : option (jsstring * jsstring) :=
  match s with
  | [] => None
  | c :: s1 =>
      if c =? 34 then Some ([], s1)
      else if c <? 32 then None
      else if c =? 92 then
        match s1 with
        | [] => None
        | e :: s2 =>
            let simple (u : N) :=
              match string_chars s2 with
              | Some (cs, r) => Some (u :: cs, r)
              | None => None
              end in
            if e =? 34 then simple 34
            else if e =? 92 then simple 92
            else if e =? 47 then simple 47
            else if e =? 98 then simple 8
            else if e =? 102 then simple 12
            else if e =? 110 then simple 10
            else if e =? 114 then simple 13
            else if e =? 116 then simple 9
            else if e =? 117 then
              match s2 with
              | h1 :: h2 :: h3 :: h4 :: s3 =>
                  match hex_digit h1, hex_digit h2, hex_digit h3, hex_digit h4 with
                  | Some a, Some b, Some c', Some d =>
                      match string_chars s3 with
                      | Some (cs, r) =>
                          Some (((a * 16 + b) * 16 + c') * 16 + d :: cs, r)
                      | None => None
                      end
                  | _, _, _, _ => None
                  end
              | _ => None
              end
            else None
        end
      else
        match string_chars s1 with
        | Some (cs, r) => Some (c :: cs, r)
        | None => None
        end
  end.

(** The longest run of decimal digits: their values, and what follows. *)
Fixpoint digits (s : jsstring) : list Z * jsstring :=
  match s with
  | c :: s' =>
      match digit c with
      | Some d => let '(ds, r) := digits s' in (d :: ds, r)
      | None => ([], s)
      end
  | [] => ([], [])
  end.

Definition of_digits (ds : list Z) : Z :=
  fold_left (fun acc d => (10 * acc + d)%Z) ds 0%Z.

(** [m * 10^e] *)
Definition decimal_value (m e : Z) : Q :=
  Qred (if (0 <=? e)%Z then Qmake (m * 10 ^ e)%Z 1
        else Qmake m (Z.to_pos (10 ^ (- e)%Z))).

(** A number: an optional minus sign; an integer part, which is 0 or starts
    with a digit from 1 to 9; an optional fraction, a point and one digit or
    more; an optional exponent, e or E, an optional sign, one digit or more. *)
Definition parse_number (s : jsstring) : option (Q * jsstring) :=
  let '(neg, s1) :=
    match s with
    | c :: s' => if c =? 45 then (true, s') else (false, s)
    | [] => (false, s)
    end in
  let '(ip, s2) := digits s1 in
  match ip with
  | [] => None
  | d0 :: ip' =>
      if (d0 =? 0)%Z && negb (match ip' with [] => true | _ => false end)
      then (* a leading zero ends the integer part *)
        None
      else
        let fraction :=
          match s2 with
          | c :: s' =>
              if c =? 46 then
                let '(fp, s3) := digits s' in
                match fp with [] => None | _ => Some (fp, s3) end
              else Some ([], s2)
          | [] => Some ([], s2)
          end in
        match fraction with
        | None => None
        | Some (fp, s3) =>
            let exponent :=
              match s3 with
              | c :: s' =>
                  if (c =? 101) || (c =? 69) then
                    let '(eneg, s4) :=
                      match s' with
                      | g :: s'' =>
                          if g =? 45 then (true, s'')
                          else if g =? 43 then (false, s'')
                          else (false, s')
                      | [] => (false, s')
                      end in
                    let '(ep, s5) := digits s4 in
                    match ep with
                    | [] => None
                    | _ => Some ((if eneg then - of_digits ep else of_digits ep)%Z, s5)
                    end
                  else Some (0%Z, s3)
              | [] => Some (0%Z, s3)
              end in
            match exponent with
            | None => None
            | Some (e, s5) =>
                let m := of_digits (ip ++ fp) in
                Some (decimal_value (if neg then - m else m)%Z
                                    (e - Z.of_nat (length fp))%Z, s5)
            end
        end
  end.

(** A value, after optional whitespace, and what follows it; the elements of
    an array after its first bracket; the members of an object after its
    first brace.  Every call costs one unit of fuel. *)
Fixpoint parse_value (fuel : nat) (s : jsstring) {struct fuel}
  : Parse (Value * jsstring) :=
  match fuel with
  | O => PFuel
  | S f =>
      match skip_json_ws s with
      | [] => PSyntaxError
      | c :: s' =>
          if c =? 123 then
            match skip_json_ws s' with
            | d :: r =>
                if d =? 125 then POk (VObj [], r)
                else match parse_members f [] s' with
                     | POk (ps, r') => POk (VObj ps, r')
                     | PSyntaxError => PSyntaxError
                     | PFuel => PFuel
                     end
            | [] => PSyntaxError
            end
          else if c =? 91 then
            match skip_json_ws s' with
            | d :: r =>
                if d =? 93 then POk (VArr [], r)
                else match parse_elements f [] s' with
                     | POk (vs, r') => POk (VArr vs, r')
                     | PSyntaxError => PSyntaxError
                     | PFuel => PFuel
                     end
            | [] => PSyntaxError
            end
          else if c =? 34 then
            match string_chars s' with
            | Some (cs, r) => POk (VStr cs, r)
            | None => PSyntaxError
            end
          else if startsWith (c :: s') (str "true") then POk (VBool true, skipn 4 (c :: s'))
          else if startsWith (c :: s') (str "false") then POk (VBool false, skipn 5 (c :: s'))
          else if startsWith (c :: s') (str "null") then POk (VNull, skipn 4 (c :: s'))
          else
            match parse_number (c :: s') with
            | Some (q, r) => POk (VNum q, r)
            | None => PSyntaxError
            end
      end
  end
with parse_elements (fuel : nat) (acc : list Value) (s : jsstring) {struct fuel}
  : Parse (list Value * jsstring) :=
  match fuel with
  | O => PFuel
  | S f =>
      match parse_value f s with
      | POk (v, r) =>
          match skip_json_ws r with
          | c :: r' =>
              if c =? 44 then parse_elements f (acc ++ [v]) r'
              else if c =? 93 then POk (acc ++ [v], r')
              else PSyntaxError
          | [] => PSyntaxError
          end
      | PSyntaxError => PSyntaxError
      | PFuel => PFuel
      end
  end
with parse_members (fuel : nat) (acc : Props) (s : jsstring) {struct fuel}
  : Parse (Props * jsstring) :=
  match fuel with
  | O => PFuel
  | S f =>
      match skip_json_ws s with
      | c :: s1 =>
          if c =? 34 then
            match string_chars s1 with
            | Some (k, s2) =>
                match skip_json_ws s2 with
                | d :: s3 =>
                    if d =? 58 then
                      match parse_value f s3 with
                      | POk (v, s4) =>
                          match skip_json_ws s4 with
                          | e :: s5 =>
                              if e =? 44 then parse_members f (obj_set k v acc) s5
                              else if e =? 125 then POk (obj_set k v acc, s5)
                              else PSyntaxError
                          | [] => PSyntaxError
                          end
                      | PSyntaxError => PSyntaxError
                      | PFuel => PFuel
                      end
                    else PSyntaxError
                | [] => PSyntaxError
                end
            | None => PSyntaxError
            end
          else PSyntaxError
      | [] => PSyntaxError
      end
  end.

(** Fuel that every text can be read with (see [parse_value_fuel]). *)
Definition enough_fuel (s : jsstring) : nat := 2 * length s + 1.

(** One whole text: a value between optional whitespace, nothing else. *)
Definition parse_text (fuel : nat) (s : jsstring) : Parse Value :=
  match parse_value fuel s with
  | POk (v, r) =>
      match skip_json_ws r with
      | [] => POk v
      | _ :: _ => PSyntaxError
      end
  | PSyntaxError => PSyntaxError
  | PFuel => PFuel
  end.

(** [JSON.parse(s)]: [None] when it throws its SyntaxError. *)
Definition JSON_parse (s : jsstring) : option Value :=
  match parse_text (enough_fuel s) s with
  | POk v => Some v
  | _ => None
  end.

End Json.
Export Json.

(** ** The outside of the process *)

Module Env.

(** What [error.message] holds. *)
Definition Error : Type := jsstring.

(** A computation returns or throws. *)
Inductive Outcome (A : Type) : Type :=
| Ok (a : A)
| Throw (e : Error).
Arguments Ok {A} a.
Arguments Throw {A} e.

(** What the chat-completion call can do: reject (transport, authentication,
    quota), answer with the text of [choices[0].message.content], or answer
    without any such text. *)
Inductive Reply : Type :=
| ReplyError (e : Error)
| ReplyContent (content : jsstring)
| ReplyNoContent.

(** An operation sent to the store. *)
Inductive DbOp : Type :=
| OpFind                                 (* find({ status: 0 }).toArray() *)
| OpFindOne (id : N)                     (* findOne({ _id, status: 0 }) *)
| OpCount                                (* countDocuments({ status: 0 }) *)
| OpSave (doc : Props)                   (* tool.save() *)
| OpUpdateOne (id : N) (set : Props).    (* updateOne({ _id }, { $set }) *)

(** What the process cannot decide: the case mapping of the host, the n-th
    reply of the analysis service (to a request that carries the resolved name
    and URL), and whether the n-th store operation fails, and with which
    message. *)
Record Host : Type := {
  toLowerCase : jsstring -> jsstring;
  chat_completion : nat -> Value -> Value -> Reply;
  db_error : nat -> DbOp -> option Error
}.

(** A document of [Raw-test-data] without its [_id], which is its key. *)
Record World : Type := {
  raw_data : gmap N Props;              (* collection Raw-test-data *)
  processed_data : list (N * Props);    (* collection Processed-test-data *)
  clock : Z;                            (* what new Date() reads *)
  next_id : N;                          (* the next ObjectId generated *)
  db_ops : nat;                         (* store operations sent so far *)
  api_calls : nat                       (* completions requested so far *)
}.

(** State and exceptions: what was written before a throw stays written. *)
Definition M (A : Type) : Type := World -> Outcome A * World.

Definition ret {A} (a : A) : M A := fun w => (Ok a, w).

Definition throw {A} (e : Error) : M A := fun w => (Throw e, w).

Definition bind {A B} (m : M A) (k : A -> M B) : M B :=
  fun w => match m w with
           | (Ok a, w') => k a w'
           | (Throw e, w') => (Throw e, w')
           end.

(** [try { m } catch (error) { handler }] *)
Definition try_catch {A} (m : M A) (handler : Error -> M A) : M A :=
  fun w => match m w with
           | (Ok a, w') => (Ok a, w')
           | (Throw e, w') => handler e w'
           end.

Definition lift {A} (o : Outcome A) : M A := fun w => (o, w).

(** The world after one more request to the analysis service, after one more
    store operation, with another raw collection, with one more processed
    document, after some time, after one more generated id. *)
Definition tick_api (w : World) : World :=
  {| raw_data := raw_data w; processed_data := processed_data w;
     clock := clock w; next_id := next_id w; db_ops := db_ops w;
     api_calls := S (api_calls w) |}.

Definition tick_db (w : World) : World :=
  {| raw_data := raw_data w; processed_data := processed_data w;
     clock := clock w; next_id := next_id w; db_ops := S (db_ops w);
     api_calls := api_calls w |}.

Definition set_raw (r : gmap N Props) (w : World) : World :=
  {| raw_data := r; processed_data := processed_data w;
     clock := clock w; next_id := next_id w; db_ops := db_ops w;
     api_calls := api_calls w |}.

Definition add_processed (d : N * Props) (w : World) : World :=
  {| raw_data := raw_data w; processed_data := processed_data w ++ [d];
     clock := clock w; next_id := next_id w; db_ops := db_ops w;
     api_calls := api_calls w |}.

Definition advance (ms : Z) (w : World) : World :=
  {| raw_data := raw_data w; processed_data := processed_data w;
     clock := (clock w + ms)%Z; next_id := next_id w; db_ops := db_ops w;
     api_calls := api_calls w |}.

Definition bump_id (w : World) : World :=
  {| raw_data := raw_data w; processed_data := processed_data w;
     clock := clock w; next_id := next_id w + 1; db_ops := db_ops w;
     api_calls := api_calls w |}.

End Env.
Export Env.

Notation "'do' x <- m ; k" := (bind m (fun x => k))
  (at level 10, x pattern, m at level 100, k at level 200).

(** ** [getAIAnalysis] (server.js, lines 46 to 159) *)

Module Analysis.

(** Lines 114 to 119: the Markdown fence around the reply is removed. *)
Definition strip_fences (content : jsstring) : jsstring :=
  if startsWith content fence_json then
    trim (replace_close (replace_open fence_json content))
  else if startsWith content fence then
    trim (replace_close (replace_open fence content))
  else content.

(** Line 112 and lines 114 to 119: the text handed to [JSON.parse]. *)
Definition clean (raw : jsstring) : jsstring := strip_fences (trim raw).

(** The condition of line 126, negated: no required field is missing. *)
Definition has_required (parsed : Value) : bool :=
  negb (negb (truthy (get parsed (str "name")))
        || negb (truthy (get parsed (str "description")))
        || negb (isArray (get parsed (str "features")))
        || negb (truthy (get parsed (str "prosCons")))
        || negb (isArray (get parsed (str "useCases")))).

(** Lines 123 to 131, the body of the inner [try]: [JSON.parse] throws a
    SyntaxError, reading a property of [null] throws a TypeError, line 128
    throws when a required field is missing; otherwise the decoded value is
    returned as it is. *)
Definition decode_reply (content : jsstring) : Outcome Value :=
  match JSON_parse content with
  | None => Throw (str "Unexpected token in JSON")
  | Some VNull => Throw (str "Cannot read properties of null (reading 'name')")
  | Some parsed =>
      if has_required parsed then Ok parsed
      else Throw (str "Invalid JSON structure")
  end.

(** Lines 137 to 153, the object of the inner [catch].  [safeName] is truthy;
    when it is not a string, [safeName.toLowerCase] is not a function and the
    slug throws a TypeError. *)
Definition fallback (h : Host) (safeName safeUrl : Value) (content : jsstring)
  : Outcome Value :=
  match safeName with
  | VStr n =>
      Ok (VObj
        [ (str "name", safeName);
          (str "slug", VStr (hyphenate (toLowerCase h n)));
          (str "website", safeUrl);
          (str "tagline", VStr (str "AI tool analysis for " ++ n));
          (str "description",
           VStr (str "AI tool analysis for " ++ n ++ str ". "
                 ++ substring0 200 content ++ str "..."));
          (str "company", VStr (str "Unknown"));
          (str "longDescription", VStr (str "Analysis pending - JSON parse error"));
          (str "categories", VArr [VStr (str "AI Tools")]);
          (str "features", VArr []);
          (str "integrations", VArr []);
          (str "prosCons", VObj [ (str "pros", VArr []); (str "cons", VArr []) ]);
          (str "useCases", VArr []) ])
  | _ => Throw (str "safeName.toLowerCase is not a function")
  end.

(** Lines 49 and 50. *)
Definition safeName_of (toolName : Value) : Value :=
  js_or toolName (VStr (str "Unknown Tool")).

Definition safeUrl_of (appUrl : Value) : Value :=
  js_or appUrl (VStr (str "No URL provided")).

(** Lines 112 to 154: from the text of the reply to the value returned. *)
Definition normalize (h : Host) (safeName safeUrl : Value) (raw : jsstring)
  : Outcome Value :=
  let content := clean raw in
  match decode_reply content with
  | Ok parsed => Ok parsed
  | Throw _ => fallback h safeName safeUrl content
  end.

(** Line 96: the request; it throws what the service rejects with. *)
Definition create_completion (h : Host) (safeName safeUrl : Value) : M Reply :=
  fun w =>
    match chat_completion h (api_calls w) safeName safeUrl with
    | ReplyError e => (Throw e, tick_api w)
    | r => (Ok r, tick_api w)
    end.

(** The whole function.  The outer [catch] of line 155 throws again what it
    caught. *)
Definition getAIAnalysis (h : Host) (toolName appUrl : Value) : M Value :=
  let safeName := safeName_of toolName in
  let safeUrl := safeUrl_of appUrl in
  do response <- create_completion h safeName safeUrl;
  match response with
  | ReplyContent raw => lift (normalize h safeName safeUrl raw)
  | _ => throw (str "Cannot read properties of null (reading 'trim')")
  end.

End Analysis.
Export Analysis.

(** ** The store (MongoDB driver, Mongoose model of models/Tool.js) *)

Module Store.

(** [new Date()] *)
Definition new_Date : M Value := fun w => (Ok (VDate (clock w)), w).

(** [await new Promise(resolve => setTimeout(resolve, ms))] *)
Definition delay (ms : Z) : M unit := fun w => (Ok tt, advance ms w).

(** One operation goes to the store: it fails when the host says so. *)
Definition db_call (h : Host) (op : DbOp) : M unit :=
  fun w => match db_error h (db_ops w) op with
           | Some e => (Throw e, tick_db w)
           | None => (Ok tt, tick_db w)
           end.

Definition VInt (z : Z) : Value := VNum (inject_Z z).

(** The query [{ status: k }] on one document: the field is the number [k],
    or an array that holds it. *)
Definition is_num (k : Z) (v : Value) : bool :=
  match v with
  | VNum q => Qeq_bool q (inject_Z k)
  | _ => false
  end.

Definition status_is (k : Z) (doc : Props) : bool :=
  match lookup (str "status") doc with
  | Some (VArr vs) => existsb (is_num k) vs
  | Some v => is_num k v
  | None => false
  end.

(** A document as the driver returns it: its [_id] and its other fields. *)
Definition Item : Type := (N * Props)%type.

(** [item.k] for a field other than [_id]. *)
Definition field (item : Item) (k : jsstring) : Value :=
  default VUndefined (lookup k (snd item)).

(** The documents a query [{ status: 0 }] matches, in the order of the store. *)
Definition pending (w : World) : list Item :=
  filter (fun it => status_is 0 (snd it) = true) (map_to_list (raw_data w)).

(** [rawCollection.find({ status: 0 }).toArray()] *)
Definition find_pending (h : Host) : M (list Item) :=
  do _ <- db_call h OpFind;
  fun w => (Ok (pending w), w).

(** [rawCollection.countDocuments({ status: 0 })] *)
Definition count_pending (h : Host) : M nat :=
  do _ <- db_call h OpCount;
  fun w => (Ok (length (pending w)), w).

(** [rawCollection.findOne({ _id: id, status: 0 })] *)
Definition findOne_pending (h : Host) (id : N) : M (option Item) :=
  do _ <- db_call h (OpFindOne id);
  fun w => (Ok (match raw_data w !! id with
                | Some doc => if status_is 0 doc then Some (id, doc) else None
                | None => None
                end), w).

(** [rawCollection.updateOne({ _id: id }, { $set: set })]: the fields are set
    on the document with that [_id], if there is one. *)
Definition updateOne (h : Host) (id : N) (set : Props) : M unit :=
  do _ <- db_call h (OpUpdateOne id set);
  fun w => (Ok tt, set_raw (alter (fun doc => obj_extend doc set) id (raw_data w)) w).

(** The paths that [toolSchema] declares [required: true] (Tool.js, lines 24
    to 53), all of type String. *)
Definition required_paths : list jsstring :=
  [ str "name"; str "slug"; str "website"; str "tagline"; str "description";
    str "company"; str "longDescription" ].

(** The required validator of a String path fails on [undefined], [null] and
    the empty string. *)
Definition required_missing (v : Value) : bool :=
  match v with
  | VUndefined | VNull | VStr [] => true
  | _ => false
  end.

Definition missing_paths (doc : Props) : list jsstring :=
  filter (fun k => required_missing (get (VObj doc) k) = true) required_paths.

(** The entry of a required path in the message of a ValidationError. *)
Definition path_required (k : jsstring) : jsstring :=
  k ++ str ": Path `" ++ k ++ str "` is required.".

(** [parts.join(sep)] *)
Fixpoint join_with (sep : jsstring) (parts : list jsstring) : jsstring :=
  match parts with
  | [] => []
  | p :: rest =>
      match rest with
      | [] => p
      | _ :: _ => p ++ sep ++ join_with sep rest
      end
  end.

(** The message of a Mongoose ValidationError: the name of the model, a
    colon, and the entries of the invalid paths joined by a comma and a
    blank. *)
Definition validation_message (paths : list jsstring) : Error :=
  str "Tool validation failed: "
  ++ join_with (str ", ") (map path_required paths).

(** The invalid required paths in the order in which Mongoose validates them,
    which is the order of the entries of the message: first the paths the
    document was never given, from the last of the schema to the first
    ([Schema.requiredPaths] walks the paths backwards), then the paths it was
    given as [null] or as the empty string, in the order in which it was
    given them. *)
Definition never_given (doc : Props) (k : jsstring) : bool :=
  match lookup k doc with
  | None => true
  | Some _ => false
  end.

Definition given_empty (kv : jsstring * Value) : bool :=
  bool_decide (fst kv ∈ required_paths) && required_missing (snd kv).

Definition reported_paths (doc : Props) : list jsstring :=
  filter (fun k => never_given doc k = true) (rev required_paths)
  ++ (filter (fun kv => given_empty kv = true) doc).*1.

(** [new Tool(fields)]: the document and the [_id] generated for it. *)
Definition new_Tool (fields : Props) : M Item :=
  fun w => (Ok (next_id w, fields), bump_id w).

(** [tool.save()]: validation runs first and rejects without reaching the
    store when a required path is missing; the insert itself fails when the
    host says so (whatever else Mongoose or the store refuse: a value that
    cannot be cast, an invalid sub-document, a slug that breaks the unique
    index, the transport).  The saved document is returned. *)
Definition Tool_save (h : Host) (tool : Item) : M Item :=
  match missing_paths (snd tool) with
  | [] =>
      do _ <- db_call h (OpSave (snd tool));
      fun w => (Ok tool, add_processed tool w)
  | _ :: _ => throw (validation_message (reported_paths (snd tool)))
  end.

Definition hex_char (d : N) : N := if d <? 10 then 48 + d else 87 + d.

Fixpoint hex_digits (n : nat) (x : N) : jsstring :=
  match n with
  | O => []
  | S n' => hex_digits n' (x / 16) ++ [hex_char (x mod 16)]
  end.

(** [id.toString()]: the 24 hexadecimal digits of an ObjectId. *)
Definition ObjectId_toString (id : N) : jsstring := hex_digits 24 id.

(** [new ObjectId(s)] for a string: 24 hexadecimal digits, or it throws. *)
Definition ObjectId_parse (s : jsstring) : option N :=
  if Nat.eqb (length s) 24 then
    fold_left (fun acc c => match acc, hex_digit c with
                            | Some a, Some d => Some (a * 16 + d)
                            | _, _ => None
                            end) s (Some 0)
  else None.

End Store.
Export Store.

(** ** The engine (server.js, lines 161 to 328 and 422 to 461) *)

Module Engine.

(** What [processRawDataItem] returns. *)
Record Result : Type := {
  success : bool;
  processedId : option N;
  error : option Error;
  originalId : N
}.

(** Lines 168 to 170, and line 215. *)
Definition toolName_of (item : Item) : Value :=
  js_or (field item (str "appName"))
    (js_or (field item (str "ai_tool_name"))
       (js_or (field item (str "name"))
          (js_or (field item (str "tool_name")) (VStr (str "Unknown Tool"))))).

Definition appUrl_of (item : Item) : Value :=
  js_or (field item (str "appUrl"))
    (js_or (field item (str "app_url"))
       (js_or (field item (str "url"))
          (js_or (field item (str "website")) (VStr [])))).

Definition logoUrl_of (item : Item) : Value :=
  js_or (field item (str "appLogoUrl"))
    (js_or (field item (str "logo_url"))
       (js_or (field item (str "logo"))
          (js_or (field item (str "image_url")) (VStr [])))).

(** The own properties that [{...aiAnalysis}] spreads. *)
Definition own_props (v : Value) : Props :=
  match v with
  | VObj ps => ps
  | _ => []
  end.

(** Lines 181 to 187: the fields of the new tool document. *)
Definition tool_fields (item : Item) (aiAnalysis logoUrl processed_at : Value) : Props :=
  obj_extend (own_props aiAnalysis)
    [ (str "logo_url", logoUrl);
      (str "status", VInt 10);
      (str "processed_at", processed_at);
      (str "original_id", VStr (ObjectId_toString (fst item))) ].

(** Lines 197 to 202 and 222 to 228: the two [$set] documents. *)
Definition processed_set (now : Value) : Props :=
  [ (str "status", VInt 1); (str "processed_at", now) ].

Definition failed_set (e : Error) (now : Value) : Props :=
  [ (str "status", VInt (-1)); (str "error_message", VStr e);
    (str "error_at", now) ].

(** What the two paths return. *)
Definition succeeded (item : Item) (savedTool : Item) : Result :=
  {| success := true; processedId := Some (fst savedTool);
     error := None; originalId := fst item |}.

Definition failed (item : Item) (e : Error) : Result :=
  {| success := false; processedId := None;
     error := Some e; originalId := fst item |}.

(** Lines 163 to 212, the body of the [try]. *)
Definition attempt (h : Host) (item : Item) : M Result :=
  let toolName := toolName_of item in
  let appUrl := appUrl_of item in
  let logoUrl := logoUrl_of item in
  do aiAnalysis <- getAIAnalysis h toolName appUrl;
  do now <- new_Date;
  do tool <- new_Tool (tool_fields item aiAnalysis logoUrl now);
  do savedTool <- Tool_save h tool;
  do now' <- new_Date;
  do _ <- updateOne h (fst item) (processed_set now');
  ret (succeeded item savedTool).

(** Lines 214 to 236, the [catch]. *)
Definition on_error (h : Host) (item : Item) (e : Error) : M Result :=
  do now <- new_Date;
  do _ <- updateOne h (fst item) (failed_set e now);
  ret (failed item e).

Definition processRawDataItem (h : Host) (item : Item) : M Result :=
  try_catch (attempt h item) (on_error h item).

(** An HTTP response: its status code and its JSON body. *)
Record Response : Type := {
  status_code : nat;
  body : Value
}.

Definition Result_to_Value (r : Result) : Value :=
  VObj ((str "success", VBool (success r))
        :: match processedId r with
           | Some id => [(str "processedId", VObjectId id)]
           | None => []
           end
        ++ match error r with
           | Some e => [(str "error", VStr e)]
           | None => []
           end
        ++ [(str "originalId", VObjectId (originalId r))]).

(** Lines 260 to 266: one record after the other, a second apart. *)
Fixpoint process_all (h : Host) (items : list Item) : M (list Result) :=
  match items with
  | [] => ret []
  | item :: rest =>
      do result <- processRawDataItem h item;
      do _ <- delay 1000;
      do results <- process_all h rest;
      ret (result :: results)
  end.

Definition count_success (results : list Result) : nat :=
  length (filter (fun r => success r = true) results).

Definition count_failed (results : list Result) : nat :=
  length (filter (fun r => negb (success r) = true) results).

Definition nat_num (n : nat) : Value := VInt (Z.of_nat n).

Definition summary (results : list Result) : Response :=
  let successful := count_success results in
  let failed := count_failed results in
  {| status_code := 200;
     body := VObj
       [ (str "success", VBool true);
         (str "message",
          VStr (str "Processing completed. Success: " ++ decimal successful
                ++ str ", Failed: " ++ decimal failed));
         (str "processed", nat_num successful);
         (str "failed", nat_num failed);
         (str "results", VArr (map Result_to_Value results)) ] |}.

Definition no_pending : Response :=
  {| status_code := 200;
     body := VObj
       [ (str "success", VBool true);
         (str "message", VStr (str "No pending items to process"));
         (str "processed", nat_num 0) ] |}.

Definition server_error (e : Error) : Response :=
  {| status_code := 500;
     body := VObj [ (str "success", VBool false); (str "error", VStr e) ] |}.

(** [POST /process-raw-data], lines 240 to 286. *)
Definition process_raw_data (h : Host) : M Response :=
  try_catch
    (do pendingItems <- find_pending h;
     match pendingItems with
     | [] => ret no_pending
     | _ :: _ =>
         do results <- process_all h pendingItems;
         ret (summary results)
     end)
    (fun e => ret (server_error e)).

Definition not_found : Response :=
  {| status_code := 404;
     body := VObj
       [ (str "success", VBool false);
         (str "error", VStr (str "Item not found or already processed")) ] |}.

Definition item_processed (id : option N) : Response :=
  {| status_code := 200;
     body := VObj
       ([ (str "success", VBool true);
          (str "message", VStr (str "Item processed successfully")) ]
        ++ match id with
           | Some i => [(str "processedId", VObjectId i)]
           | None => []
           end) |}.

(** [POST /process-item/:id], lines 289 to 328. *)
Definition process_item (h : Host) (itemId : jsstring) : M Response :=
  try_catch
    (match ObjectId_parse itemId with
     | None => throw (str "input must be a 24 character hex string, 12 byte Uint8Array, or an integer")
     | Some id =>
         do item <- findOne_pending h id;
         match item with
         | None => ret not_found
         | Some it =>
             do result <- processRawDataItem h it;
             if success result then ret (item_processed (processedId result))
             else ret (server_error (default [] (error result)))
         end
     end)
    (fun e => ret (server_error e)).

(** Lines 441 to 454: the loop of [autoProcessPendingData], with its two
    counters. *)
Fixpoint auto_loop (h : Host) (items : list Item) (processed failed : nat)
  : M (nat * nat) :=
  match items with
  | [] => ret (processed, failed)
  | item :: rest =>
      do result <- processRawDataItem h item;
      do _ <- delay 1000;
      if success result then auto_loop h rest (S processed) failed
      else auto_loop h rest processed (S failed)
  end.

(** [autoProcessPendingData], lines 423 to 461.  The function returns
    nothing; the model returns the two counts its last line logs, [None] when
    there was nothing pending or when an error was caught and logged. *)
Definition autoProcessPendingData (h : Host) : M (option (nat * nat)) :=
  try_catch
    (do pendingCount <- count_pending h;
     match pendingCount with
     | O => ret None
     | S _ =>
         do pendingItems <- find_pending h;
         do counts <- auto_loop h pendingItems 0%nat 0%nat;
         ret (Some counts)
     end)
    (fun _ => ret None).

End Engine.
Export Engine.

(** ** The earlier variant (server1.js, lines 80 to 94) *)

Module Legacy.

(** The reply is neither trimmed nor stripped of fences, and whatever
    [JSON.parse] returns is returned. *)
Definition fallback (content : jsstring) : Value :=
  VObj
    [ (str "app_description", VStr (substring0 500 content ++ str "..."));
      (str "app_core_features", VArr [VStr (str "Feature analysis pending")]);
      (str "app_pros", VArr [VStr (str "Analysis pending")]);
      (str "app_cons", VArr [VStr (str "Analysis pending")]) ].

Definition normalize (content : jsstring) : Value :=
  match JSON_parse content with
  | Some parsed => parsed
  | None => fallback content
  end.

End Legacy.

(** ** Words of the specification *)

Module Spec.

(** [e] is an excerpt of [s]: a run of consecutive code units of it. *)
Definition excerpt_of (e s : jsstring) : Prop :=
  exists before after, s = before ++ e ++ after.

(** Only whitespace. *)
Definition blank (s : jsstring) : Prop := forallb isSpace s = true.

(** The first non-empty candidate in the order given, [sentinel] when there
    is none. *)
Fixpoint first_nonempty (candidates : list Value) (sentinel : Value) : Value :=
  match candidates with
  | [] => sentinel
  | v :: rest => if truthy v then v else first_nonempty rest sentinel
  end.

(** The status of the raw record [id], when the record exists. *)
Definition status_of (w : World) (id : N) : option Value :=
  match raw_data w !! id with
  | Some doc => Some (default VUndefined (lookup (str "status") doc))
  | None => None
  end.

Definition Pending : Value := VInt 0.
Definition Processed : Value := VInt 1.
Definition Failed : Value := VInt (-1).

(** The enriched records that refer to the raw record [id]. *)
Definition refers_to (id : N) (t : N * Props) : bool :=
  match lookup (str "original_id") (snd t) with
  | Some (VStr s) => bool_decide (s = ObjectId_toString id)
  | _ => false
  end.

Definition enriched_for (w : World) (id : N) : list (N * Props) :=
  filter (fun t => refers_to id t = true) (processed_data w).

(** The record [id] with the fields of [set] set on it. *)
Definition with_set (id : N) (set : Props) (raw : gmap N Props) : gmap N Props :=
  alter (fun doc => obj_extend doc set) id raw.

(** The store accepts every write that marks a record as failed. *)
Definition failure_writes_succeed (h : Host) : Prop :=
  forall (n : nat) (id : N) (e : Error) (now : Value),
    db_error h n (OpUpdateOne id (failed_set e now)) = None.

End Spec.
Export Spec.

(** ** Sample data for the examples *)

Module Samples.

(** A host whose service always answers with the same text and whose store
    fails the operations [faulty] names. *)
Definition host_with (reply : Reply) (faulty : nat -> bool) : Host :=
  {| toLowerCase := toLowerCase_latin1;
     chat_completion := fun _ _ _ => reply;
     db_error := fun n _ => if faulty n then Some (str "connection lost") else None |}.

Definition reliable : nat -> bool := fun _ => false.

Definition prose : jsstring := str "Sorry, I cannot help with that.".

Definition sample_host : Host := host_with (ReplyContent prose) reliable.

(** A complete analysis, as the prompt asks for it. *)
Definition complete_json : jsstring :=
  json_text "{'name':'Acme','slug':'acme','website':'https://acme.test','tagline':'t','description':'d','company':'c','longDescription':'l','categories':['x'],'features':[{'name':'f','description':'g'}],'integrations':[],'prosCons':{'pros':['p'],'cons':[]},'useCases':['u']}".

Definition complete_value : Value :=
  VObj
    [ (str "name", VStr (str "Acme")); (str "slug", VStr (str "acme"));
      (str "website", VStr (str "https://acme.test"));
      (str "tagline", VStr (str "t")); (str "description", VStr (str "d"));
      (str "company", VStr (str "c")); (str "longDescription", VStr (str "l"));
      (str "categories", VArr [VStr (str "x")]);
      (str "features",
       VArr [VObj [(str "name", VStr (str "f")); (str "description", VStr (str "g"))]]);
      (str "integrations", VArr []);
      (str "prosCons",
       VObj [(str "pros", VArr [VStr (str "p")]); (str "cons", VArr [])]);
      (str "useCases", VArr [VStr (str "u")]) ].

(** A reply that passes the check of line 126 and has no slug, website,
    tagline, company or longDescription. *)
Definition slugless_json : jsstring :=
  json_text "{'name':'Acme','description':'d','features':[],'prosCons':{},'useCases':[]}".

Definition slugless_value : Value :=
  VObj
    [ (str "name", VStr (str "Acme")); (str "description", VStr (str "d"));
      (str "features", VArr []); (str "prosCons", VObj []);
      (str "useCases", VArr []) ].

Definition newline : jsstring := [10].

(** Two pending records, and one already processed. *)
Definition sample_raw : gmap N Props :=
  <[ 1 := [ (str "appName", VStr (str "Acme")); (str "status", VInt 0) ] ]>
  (<[ 2 := [ (str "name", VStr (str "Bolt")); (str "status", VInt 0) ] ]>
  (<[ 3 := [ (str "name", VStr (str "Core")); (str "status", VInt 1) ] ]> ∅)).

Definition sample_world : World :=
  {| raw_data := sample_raw; processed_data := []; clock := 0;
     next_id := 100; db_ops := 0; api_calls := 0 |}.

(** The service rejects the first request and answers the others in full;
    the store never fails. *)
Definition flaky_host : Host :=
  {| toLowerCase := toLowerCase_latin1;
     chat_completion := fun n _ _ =>
       match n with
       | O => ReplyError (str "429 Too Many Requests")
       | S _ => ReplyContent complete_json
       end;
     db_error := fun _ _ => None |}.

(** Three pending records. *)
Definition three_pending : World :=
  {| raw_data :=
       <[ 1 := [ (str "appName", VStr (str "Acme")); (str "status", VInt 0) ] ]>
       (<[ 2 := [ (str "name", VStr (str "Bolt")); (str "status", VInt 0) ] ]>
       (<[ 3 := [ (str "tool_name", VStr (str "Core")); (str "status", VInt 0) ] ]> ∅));
     processed_data := []; clock := 0; next_id := 100; db_ops := 0;
     api_calls := 0 |}.

(** The service rejects the second request only. *)
Definition second_fails : Host :=
  {| toLowerCase := toLowerCase_latin1;
     chat_completion := fun n _ _ =>
       match n with
       | 1%nat => ReplyError (str "connect ETIMEDOUT")
       | _ => ReplyContent complete_json
       end;
     db_error := fun _ _ => None |}.

Definition sample_item : Item :=
  (1, [ (str "appName", VStr (str "Acme")); (str "status", VInt 0) ]).

End Samples.
Export Samples.

(** ** [GET /status] (server.js, lines 331 to 357) *)

Module Status.

(** The number of raw records that the query [{ status: k }] matches. *)
Definition matching (k : Z) (w : World) : nat :=
  length (filter (fun it : Item => status_is k (snd it) = true)
                 (map_to_list (raw_data w))).

(** [rawCollection.countDocuments({ status: k })]: one store operation (the
    host tells the operations apart by their rank), then the count. *)
Definition count_status (h : Host) (k : Z) : M nat :=
  do _ <- db_call h OpCount;
  fun w => (Ok (matching k w), w).

(** [Tool.countDocuments()] *)
Definition count_tools (h : Host) : M nat :=
  do _ <- db_call h OpCount;
  fun w => (Ok (length (processed_data w)), w).

Definition status_report (pending processed errors total : nat) : Response :=
  {| status_code := 200;
     body := VObj
       [ (str "success", VBool true);
         (str "status",
          VObj [ (str "pending", nat_num pending);
                 (str "processed", nat_num processed);
                 (str "errors", nat_num errors);
                 (str "total_in_processed_collection", nat_num total) ]) ] |}.

Definition get_status (h : Host) : M Response :=
  try_catch
    (do pending <- count_status h 0;
     do processed <- count_status h 1;
     do errors <- count_status h (-1);
     do totalProcessed <- count_tools h;
     ret (status_report pending processed errors totalProcessed))
    (fun e => ret (server_error e)).

End Status.
Export Status.

(** ** Automatic processing (server.js, line 18, lines 395 to 411 and 474 to
    490; server1.js has the same code) *)

Module Scheduler.

(** What the process holds about automatic processing: the environment
    variable, the constant read from it when the module is loaded, and what
    [startServer] has armed. *)
Record Process : Type := {
  env_AUTO_PROCESS : option jsstring;   (* process.env.AUTO_PROCESS *)
  AUTO_PROCESS : bool;                  (* the constant of line 18 *)
  startup_timer : bool;                 (* the timeout of line 475 is pending *)
  cron_task : bool                      (* the task of line 480 is scheduled *)
}.

(** [process.env.AUTO_PROCESS !== 'false'] *)
Definition enabled_in (env : option jsstring) : bool :=
  negb (bool_decide (env = Some (str "false"))).

(** Line 18, when the module is loaded. *)
Definition load (env : option jsstring) : Process :=
  {| env_AUTO_PROCESS := env; AUTO_PROCESS := enabled_in env;
     startup_timer := false; cron_task := false |}.

(** Lines 474 to 490, in the callback of [app.listen]. *)
Definition listening (p : Process) : Process :=
  if AUTO_PROCESS p then
    {| env_AUTO_PROCESS := env_AUTO_PROCESS p; AUTO_PROCESS := AUTO_PROCESS p;
       startup_timer := true; cron_task := true |}
  else p.

Definition set_env (v : jsstring) (p : Process) : Process :=
  {| env_AUTO_PROCESS := Some v; AUTO_PROCESS := AUTO_PROCESS p;
     startup_timer := startup_timer p; cron_task := cron_task p |}.

(** [POST /toggle-auto-process], lines 395 to 411, for a body that is an
    object; [enabled] is its property of that name, [undefined] without one. *)
Definition toggle_auto_process (enabled : Value) (p : Process)
  : Response * Process :=
  match enabled with
  | VUndefined =>
      ({| status_code := 200;
          body := VObj
            [ (str "success", VBool true);
              (str "auto_process_enabled",
               VBool (enabled_in (env_AUTO_PROCESS p))) ] |}, p)
  | _ =>
      ({| status_code := 200;
          body := VObj
            [ (str "success", VBool true);
              (str "message",
               VStr (str "Auto-processing "
                     ++ (if truthy enabled then str "enabled" else str "disabled")));
              (str "auto_process_enabled", enabled) ] |},
       set_env (if truthy enabled then str "true" else str "false") p)
  end.

(** What can happen once the server listens. *)
Inductive Event : Type :=
| Toggle (enabled : Value)   (* a request to the toggle route *)
| TimerFires                 (* two seconds after the start *)
| CronFires.                 (* minute 0 of every second hour *)

(** One event: the process after it, and whether [autoProcessPendingData]
    was called.  A timer or a task that was not armed has no callback. *)
Definition step (p : Process) (ev : Event) : Process * bool :=
  match ev with
  | Toggle enabled => (snd (toggle_auto_process enabled p), false)
  | TimerFires =>
      if startup_timer p then
        ({| env_AUTO_PROCESS := env_AUTO_PROCESS p; AUTO_PROCESS := AUTO_PROCESS p;
            startup_timer := false; cron_task := cron_task p |}, true)
      else (p, false)
  | CronFires =>
      if cron_task p then (p, enabled_in (env_AUTO_PROCESS p)) else (p, false)
  end.

(** The process after a sequence of events, and the number of automatic runs
    they started. *)
Fixpoint after (p : Process) (evs : list Event) : Process :=
  match evs with
  | [] => p
  | ev :: rest => after (fst (step p ev)) rest
  end.

Fixpoint runs (p : Process) (evs : list Event) : nat :=
  match evs with
  | [] => 0%nat
  | ev :: rest =>
      ((if snd (step p ev) then 1 else 0) + runs (fst (step p ev)) rest)%nat
  end.

End Scheduler.
Export Scheduler.

(** ** One attempt of the earlier variant (server1.js, lines 40 to 168) *)

Module LegacyEngine.

(** Lines 40 to 99.  The request carries the name and the URL as they are;
    [JSON.parse] of a content that is [null] returns [null]. *)
Definition getAIAnalysis (h : Host) (toolName appUrl : Value) : M Value :=
  do response <- create_completion h toolName appUrl;
  match response with
  | ReplyContent content => ret (Legacy.normalize content)
  | _ => ret VNull
  end.

(** Lines 111 to 122: the document handed to [insertOne]. *)
Definition processedData (item : Item) (aiAnalysis processed_at : Value) : Props :=
  [ (str "ai_tool_name", field item (str "ai_tool_name"));
    (str "app_url", field item (str "app_url"));
    (str "logo_url", field item (str "logo_url"));
    (str "app_description", get aiAnalysis (str "app_description"));
    (str "app_core_features", get aiAnalysis (str "app_core_features"));
    (str "app_pros", get aiAnalysis (str "app_pros"));
    (str "app_cons", get aiAnalysis (str "app_cons"));
    (str "status", VInt 10);
    (str "processed_at", processed_at);
    (str "original_id", VObjectId (fst item)) ].

(** [processedCollection.insertOne(doc)]: no schema stands before the store;
    the driver generates the [_id], which is returned. *)
Definition insertOne (h : Host) (doc : Props) : M N :=
  fun w => match db_error h (db_ops w) (OpSave doc) with
           | Some e => (Throw e, bump_id (tick_db w))
           | None =>
               (Ok (next_id w), add_processed (next_id w, doc) (bump_id (tick_db w)))
           end.

(** Lines 104 to 143, the body of the [try].  Reading a property of [null]
    throws a TypeError. *)
Definition attempt (h : Host) (item : Item) : M Result :=
  do aiAnalysis <- getAIAnalysis h (field item (str "ai_tool_name"))
                     (field item (str "app_url"));
  match aiAnalysis with
  | VNull =>
      throw (str "Cannot read properties of null (reading 'app_description')")
  | VUndefined =>
      throw (str "Cannot read properties of undefined (reading 'app_description')")
  | _ =>
      do now <- new_Date;
      do insertedId <- insertOne h (processedData item aiAnalysis now);
      do now' <- new_Date;
      do _ <- updateOne h (fst item) (processed_set now');
      ret {| success := true; processedId := Some insertedId;
             error := None; originalId := fst item |}
  end.

(** The [catch] of lines 145 to 166 is the one of server.js. *)
Definition processRawDataItem (h : Host) (item : Item) : M Result :=
  try_catch (attempt h item) (on_error h item).

End LegacyEngine.

(** ** More words *)

Module Words.

(** The store accepts every operation. *)
Definition store_reliable (h : Host) : Prop :=
  forall (n : nat) (op : DbOp), db_error h n op = None.

(** The fields the engine sets on a raw record. *)
Definition engine_fields : list jsstring :=
  [ str "status"; str "processed_at"; str "error_message"; str "error_at" ].

(** Two states of a raw record that differ at most in those fields. *)
Definition same_but_engine_fields (doc doc' : Props) : Prop :=
  forall k : jsstring, k ∉ engine_fields -> lookup k doc' = lookup k doc.

(** A raw record before and after: it is neither created nor deleted, and
    differs at most in those fields. *)
Definition kept (before after : option Props) : Prop :=
  match before, after with
  | Some doc, Some doc' => same_but_engine_fields doc doc'
  | None, None => True
  | _, _ => False
  end.



(** The world with another count of store operations. *)
Definition with_ops (n : nat) (w : World) : World :=
  {| raw_data := raw_data w; processed_data := processed_data w;
     clock := clock w; next_id := next_id w; db_ops := n;
     api_calls := api_calls w |}.

(** A value whose properties can be read: neither [null] nor [undefined]. *)
Definition readable (v : Value) : bool :=
  match v with
  | VNull | VUndefined => false
  | _ => true
  end.

Definition no_space (s : jsstring) : Prop :=
  forallb (fun c => negb (isSpace c)) s = true.

(** [slug] is [s] with each run of whitespace replaced by one hyphen, said
    from the shape of [s]: a stretch without whitespace stays as it is; a
    stretch without whitespace, a run of whitespace and a rest that does not
    start with whitespace give the stretch, one hyphen, and the rest treated
    in the same way. *)
Inductive Hyphenated : jsstring -> jsstring -> Prop :=
| hyphenated_stretch (u : jsstring) :
    no_space u -> Hyphenated u u
| hyphenated_run (u w rest r : jsstring) :
    no_space u -> blank w -> w <> [] -> skip_ws rest = rest ->
    Hyphenated rest r ->
    Hyphenated (u ++ w ++ rest) (u ++ 45 :: r).

End Words.
Export Words.

(** ** More sample data *)

Module MoreSamples.

Definition failing_host : Host :=
  host_with (ReplyError (str "429 Too Many Requests")) reliable.

Definition null_host : Host :=
  host_with (ReplyContent (str "null")) reliable.

Definition number_host : Host :=
  host_with (ReplyContent (str "42")) reliable.

(** A pending record whose name is a number. *)
Definition numbered_item : Item :=
  (7, [ (str "appName", VInt 42); (str "status", VInt 0) ]).

Definition numbered_world : World :=
  {| raw_data := <[ 7 := snd numbered_item ]> ∅; processed_data := [];
     clock := 0; next_id := 100; db_ops := 0; api_calls := 0 |}.

End MoreSamples.
Export MoreSamples.

(** Closes the goals about what one attempt leaves of the world. *)
Ltac finish_effects :=
  cbn [snd api_calls clock processed_data set_raw tick_db tick_api
       add_processed bump_id advance];
  split; [reflexivity|]; split; [reflexivity|];
  first [ exists []; rewrite app_nil_r; split; [reflexivity|simpl; lia]
        | eexists [_]; split; [reflexivity|simpl; lia] ].

(** * Properties *)

(** ** Strings *)

Example trim_example : trim (str "  a b  ") = str "a b".
Proof. reflexivity. Qed.

Example hyphenate_example :
  hyphenate (toLowerCase_latin1 (str "My  Tool!")) = str "my-tool!".
Proof. reflexivity. Qed.

Lemma skip_ws_suffix (s : jsstring) : exists w, s = w ++ skip_ws s /\ blank w.
Proof.
  induction s as [|c s IH]; simpl.
  - exists []. split; reflexivity.
  - destruct (isSpace c) eqn:Hc.
    + destruct IH as (w & Hw & Hb). exists (c :: w). split.
      * simpl. congruence.
      * unfold blank in *. simpl. rewrite Hc. exact Hb.
    + exists []. split; reflexivity.
Qed.

Lemma skip_ws_blank_app (w s : jsstring) :
  blank w -> skip_ws (w ++ s) = skip_ws s.
Proof.
  unfold blank. induction w as [|c w IH]; simpl; intros H; [reflexivity|].
  apply andb_true_iff in H as [Hc Hw]. rewrite Hc. auto.
Qed.

Lemma skip_ws_blank (w : jsstring) : blank w -> skip_ws w = [].
Proof.
  intros H. rewrite <- (app_nil_r w). rewrite skip_ws_blank_app by exact H.
  reflexivity.
Qed.

Lemma skip_ws_head (c : N) (s : jsstring) :
  isSpace c = false -> skip_ws (c :: s) = c :: s.
Proof. intros H. simpl. rewrite H. reflexivity. Qed.

Lemma blank_rev (w : jsstring) : blank w -> blank (rev w).
Proof.
  unfold blank. rewrite !forallb_forall. intros H x Hx.
  apply H. apply in_rev. exact Hx.
Qed.

Lemma trim_excerpt (s : jsstring) : excerpt_of (trim s) s.
Proof.
  unfold trim, excerpt_of.
  destruct (skip_ws_suffix s) as (w1 & H1 & _).
  destruct (skip_ws_suffix (rev (skip_ws s))) as (w2 & H2 & _).
  exists w1, (rev w2).
  rewrite H1 at 1. f_equal.
  rewrite <- (rev_involutive (skip_ws s)) at 1.
  rewrite H2 at 1. rewrite rev_app_distr. reflexivity.
Qed.

(** A string between two runs of whitespace, itself without whitespace at
    either end, is what [trim] leaves. *)
Lemma trim_between (w0 s w1 : jsstring) :
  blank w0 -> blank w1 -> trim s = s -> trim (w0 ++ s ++ w1) = s.
Proof.
  intros H0 H1 Hs. unfold trim in *.
  rewrite skip_ws_blank_app by exact H0.
  destruct s as [|c s'].
  - simpl. rewrite (skip_ws_blank w1 H1). reflexivity.
  - destruct (isSpace c) eqn:Hc.
    + (* a trimmed string does not start with whitespace *)
      exfalso. simpl in Hs. rewrite Hc in Hs.
      destruct (skip_ws_suffix s') as (w & Hw & _).
      destruct (skip_ws_suffix (rev (skip_ws s'))) as (w' & Hw' & _).
      assert (Hlen : (length (rev (skip_ws (rev (skip_ws s')))) <= length s')%nat).
      { rewrite length_rev.
        apply (f_equal (@length N)) in Hw, Hw'.
        rewrite length_app in Hw, Hw'. rewrite length_rev in Hw'. lia. }
      rewrite Hs in Hlen. simpl in Hlen. lia.
    + change ((c :: s') ++ w1) with (c :: (s' ++ w1)).
      rewrite (skip_ws_head c _ Hc).
      rewrite (skip_ws_head c s' Hc) in Hs.
      change (c :: (s' ++ w1)) with ((c :: s') ++ w1).
      rewrite rev_app_distr.
      rewrite skip_ws_blank_app by (apply blank_rev; exact H1).
      exact Hs.
Qed.

Lemma startsWith_app (p s : jsstring) : startsWith (p ++ s) p = true.
Proof.
  induction p as [|c p IH]; simpl; [destruct s; reflexivity|].
  rewrite N.eqb_refl. exact IH.
Qed.

Lemma startsWith_prefix (s p : jsstring) :
  startsWith s p = true -> exists t, s = p ++ t.
Proof.
  revert s. induction p as [|c p IH]; intros s H.
  - exists s. reflexivity.
  - destruct s as [|d s]; simpl in H; [discriminate|].
    apply andb_true_iff in H as [Hc Hp]. apply N.eqb_eq in Hc. subst d.
    destruct (IH s Hp) as (t & ->). exists t. reflexivity.
Qed.

Lemma replace_open_eq (p s : jsstring) :
  replace_open p s =
  if startsWith s p then skip_ws (skipn (length p) s)
  else match s with
       | [] => []
       | c :: s' => c :: replace_open p s'
       end.
Proof. destruct s; reflexivity. Qed.

Lemma replace_open_at_start (p s : jsstring) :
  replace_open p (p ++ s) = skip_ws s.
Proof.
  rewrite replace_open_eq, startsWith_app.
  rewrite skipn_app, skipn_all, Nat.sub_diag. reflexivity.
Qed.

Lemma replace_close_eq (s : jsstring) :
  replace_close s =
  if startsWith s fence && forallb isSpace (skipn 3 s) then []
  else match s with
       | [] => []
       | c :: s' => c :: replace_close s'
       end.
Proof. destruct s; reflexivity. Qed.

Lemma replace_close_prefix (s : jsstring) : exists t, s = replace_close s ++ t.
Proof.
  induction s as [|c s IH].
  - exists []. reflexivity.
  - rewrite replace_close_eq.
    destruct (startsWith (c :: s) fence && forallb isSpace (skipn 3 (c :: s))).
    + exists (c :: s). reflexivity.
    + destruct IH as (t & Ht). exists t.
      rewrite <- app_comm_cons. congruence.
Qed.

(** After the closing fence only the end of the string may follow: a fence
    that is followed by more than whitespace is no match. *)
Lemma not_blank_before_fence (x : jsstring) (n : nat) :
  (n < length (x ++ fence))%nat -> forallb isSpace (skipn n (x ++ fence)) = false.
Proof.
  intros Hn.
  apply not_true_is_false. intros H.
  rewrite forallb_forall in H.
  assert (Hin : In 96 (skipn n (x ++ fence))).
  { change fence with ([96; 96] ++ [96]) in *.
    rewrite app_assoc in *. set (y := x ++ [96; 96]) in *.
    rewrite length_app in Hn. simpl in Hn.
    rewrite skipn_app. apply in_or_app. right.
    replace (n - length y)%nat with 0%nat by lia.
    simpl. auto. }
  specialize (H _ Hin). discriminate H.
Qed.

Lemma replace_close_at_end (s : jsstring) : replace_close (s ++ fence) = s.
Proof.
  induction s as [|c s IH].
  - reflexivity.
  - rewrite replace_close_eq.
    rewrite (not_blank_before_fence (c :: s) 3).
    + rewrite andb_false_r. rewrite <- app_comm_cons. rewrite IH. reflexivity.
    + rewrite length_app. simpl. lia.
Qed.

Lemma excerpt_refl (s : jsstring) : excerpt_of s s.
Proof. exists [], []. rewrite app_nil_r. reflexivity. Qed.

Lemma excerpt_trans (a b c : jsstring) :
  excerpt_of a b -> excerpt_of b c -> excerpt_of a c.
Proof.
  intros (x & y & ->) (x' & y' & ->).
  exists (x' ++ x), (y ++ y'). rewrite <- !app_assoc. reflexivity.
Qed.

Lemma excerpt_prefix (a t : jsstring) : excerpt_of a (a ++ t).
Proof. exists [], t. reflexivity. Qed.

Lemma excerpt_suffix (t a : jsstring) : excerpt_of a (t ++ a).
Proof. exists t, []. rewrite app_nil_r. reflexivity. Qed.

Lemma substring0_excerpt (n : nat) (s : jsstring) : excerpt_of (substring0 n s) s.
Proof.
  exists [], (skipn n s). simpl. symmetry. apply firstn_skipn.
Qed.

Lemma substring0_length (n : nat) (s : jsstring) : (length (substring0 n s) <= n)%nat.
Proof. unfold substring0. rewrite length_firstn. lia. Qed.

Lemma unfence_excerpt (p s : jsstring) :
  startsWith s p = true ->
  excerpt_of (trim (replace_close (replace_open p s))) s.
Proof.
  intros H. destruct (startsWith_prefix _ _ H) as (t & ->).
  rewrite replace_open_at_start.
  eapply excerpt_trans; [apply trim_excerpt|].
  destruct (replace_close_prefix (skip_ws t)) as (u & Hu).
  eapply excerpt_trans; [exists [], u; exact Hu|].
  destruct (skip_ws_suffix t) as (w & Hw & _).
  eapply excerpt_trans; [exists w, []; rewrite app_nil_r; exact Hw|].
  apply excerpt_suffix.
Qed.

(** What is handed to [JSON.parse] is a run of consecutive code units of the
    reply. *)
Lemma clean_excerpt (raw : jsstring) : excerpt_of (clean raw) raw.
Proof.
  unfold clean, strip_fences.
  eapply excerpt_trans; [|apply trim_excerpt].
  destruct (startsWith (trim raw) fence_json) eqn:Hj.
  - apply unfence_excerpt. exact Hj.
  - destruct (startsWith (trim raw) fence) eqn:Hf.
    + apply unfence_excerpt. exact Hf.
    + apply excerpt_refl.
Qed.

Lemma trimmed_head (c : N) (s : jsstring) :
  trim (c :: s) = c :: s -> isSpace c = false.
Proof.
  intros Hs. destruct (isSpace c) eqn:Hc; [exfalso|reflexivity].
  unfold trim in Hs. simpl in Hs. rewrite Hc in Hs.
  destruct (skip_ws_suffix s) as (w & Hw & _).
  destruct (skip_ws_suffix (rev (skip_ws s))) as (w' & Hw' & _).
  apply (f_equal (@length N)) in Hw, Hw', Hs.
  rewrite length_app in Hw, Hw'. rewrite length_rev in Hw', Hs.
  simpl in Hs. lia.
Qed.

Lemma trim_ends (c e : N) (x : jsstring) :
  isSpace c = false -> isSpace e = false ->
  trim (c :: x ++ [e]) = c :: x ++ [e].
Proof.
  intros Hc He. unfold trim.
  rewrite (skip_ws_head c _ Hc).
  replace (rev (c :: x ++ [e])) with (e :: rev (c :: x))
    by (rewrite app_comm_cons, rev_app_distr; reflexivity).
  rewrite (skip_ws_head e _ He).
  change (e :: rev (c :: x)) with (rev [e] ++ rev (c :: x)).
  rewrite <- rev_app_distr. rewrite rev_involutive. reflexivity.
Qed.

(** The fence, its [json] tag or none, whitespace, the enclosed text,
    whitespace, the closing fence: the enclosed text is what remains. *)
Lemma strip_fences_enclosed (open w1 d w2 : jsstring) :
  blank w1 -> blank w2 -> trim d = d ->
  startsWith (open ++ w1 ++ d ++ w2 ++ fence) open = true ->
  trim (replace_close (replace_open open (open ++ w1 ++ d ++ w2 ++ fence))) = d.
Proof.
  intros H1 H2 Hd _.
  rewrite replace_open_at_start.
  rewrite skip_ws_blank_app by exact H1.
  destruct d as [|c d'].
  - simpl app. rewrite skip_ws_blank_app by exact H2.
    reflexivity.
  - rewrite <- app_comm_cons.
    rewrite (skip_ws_head c _ (trimmed_head c d' Hd)).
    rewrite app_comm_cons, app_assoc.
    rewrite replace_close_at_end.
    apply (trim_between [] (c :: d') w2); [reflexivity|exact H2|exact Hd].
Qed.

(** ** The decoder *)

(** No JSON text starts with the letter j, and none is empty. *)
Lemma parse_value_j (fuel : nat) (s : jsstring) :
  parse_value (S fuel) (106 :: s) = PSyntaxError.
Proof. reflexivity. Qed.

Lemma JSON_parse_j (s : jsstring) : JSON_parse (106 :: s) = None.
Proof.
  unfold JSON_parse, parse_text, enough_fuel.
  rewrite Nat.add_1_r, parse_value_j. reflexivity.
Qed.

Lemma JSON_parse_empty : JSON_parse [] = None.
Proof. reflexivity. Qed.

Lemma JSON_parse_head (d : jsstring) (v : Value) :
  JSON_parse d = Some v -> exists c d', d = c :: d' /\ c <> 106.
Proof.
  destruct d as [|c d']; intros H.
  - rewrite JSON_parse_empty in H. discriminate.
  - exists c, d'. split; [reflexivity|].
    intros ->. rewrite JSON_parse_j in H. discriminate.
Qed.

Example JSON_parse_object :
  JSON_parse (json_text " { 'a' : [1, 2.5e1, true, null], 'b' : 'xA\n', 'a' : {} } ")
  = Some (VObj [ (str "a", VObj []); (str "b", VStr [120; 65; 10]) ]).
Proof. vm_compute. reflexivity. Qed.

Example JSON_parse_rejects :
  JSON_parse (json_text "{'a':1,}") = None
  /\ JSON_parse (json_text "[1 2]") = None
  /\ JSON_parse (json_text "01") = None
  /\ JSON_parse (json_text "{'a':1} x") = None
  /\ JSON_parse (json_text "'unterminated") = None.
Proof. repeat split; vm_compute; reflexivity. Qed.

Example tiny_number_is_falsy :
  option_map truthy (JSON_parse (str "1e-400")) = Some false
  /\ option_map truthy (JSON_parse (str "1e-300")) = Some true
  /\ option_map truthy (JSON_parse (str "-0.0")) = Some false.
Proof. repeat split; vm_compute; reflexivity. Qed.

(** The fuel of [JSON_parse] is enough: every call consumes input before it
    calls again, so that the decoder never stops for want of fuel, and more
    fuel gives the same result. *)

Lemma skip_json_ws_length (s : jsstring) : (length (skip_json_ws s) <= length s)%nat.
Proof.
  induction s as [|c s IH]; simpl; [lia|].
  destruct (json_ws c); simpl; lia.
Qed.

Lemma string_chars_shorter (n : nat) :
  forall (s cs r : jsstring),
    (length s <= n)%nat -> string_chars s = Some (cs, r) -> (length r < length s)%nat.
Proof.
  induction n as [|n IH]; intros s cs r Hn H.
  - destruct s; [discriminate H|simpl in Hn; lia].
  - destruct s as [|c s1]; [discriminate H|].
    cbn [string_chars] in H. simpl in Hn.
    destruct (c =? 34); [injection H as <- <-; simpl; lia|].
    destruct (c <? 32); [discriminate H|].
    destruct (c =? 92).
    + destruct s1 as [|e s2]; [discriminate H|]. simpl in Hn.
      assert (Hsimple : forall u,
        match string_chars s2 with
        | Some (cs0, r0) => Some (u :: cs0, r0)
        | None => None
        end = Some (cs, r) -> (length r < length (c :: e :: s2))%nat).
      { intros u Hu. destruct (string_chars s2) as [[cs0 r0]|] eqn:E; [|discriminate Hu].
        injection Hu as <- <-. apply IH in E; [simpl; lia|lia]. }
      repeat (match type of H with
              | (if ?b then _ else _) = _ => destruct b; [apply Hsimple in H; exact H|]
              end).
      destruct (e =? 117); [|discriminate H].
      destruct s2 as [|h1 [|h2 [|h3 [|h4 s3]]]]; try discriminate H.
      destruct (hex_digit h1), (hex_digit h2), (hex_digit h3), (hex_digit h4);
        try discriminate H.
      destruct (string_chars s3) as [[cs0 r0]|] eqn:E; [|discriminate H].
      injection H as <- <-. apply IH in E; [simpl; lia|simpl in Hn; lia].
    + destruct (string_chars s1) as [[cs0 r0]|] eqn:E; [|discriminate H].
      injection H as <- <-. apply IH in E; [simpl; lia|lia].
Qed.

Lemma digits_length (s : jsstring) :
  (length (snd (digits s)) + length (fst (digits s)) = length s)%nat.
Proof.
  induction s as [|c s IH]; [reflexivity|].
  cbn [digits]. destruct (digit c); [|simpl; lia].
  destruct (digits s) as [ds r]. simpl in *. lia.
Qed.

Lemma parse_number_shorter (s : jsstring) (q : Q) (r : jsstring) :
  parse_number s = Some (q, r) -> (length r < length s)%nat.
Proof.
  unfold parse_number.
  set (first := match s with
                | [] => (false, s)
                | c :: s' => if c =? 45 then (true, s') else (false, s)
                end).
  assert (H1 : (length (snd first) <= length s)%nat).
  { subst first. destruct s as [|c s']; [simpl; lia|].
    destruct (c =? 45); simpl; lia. }
  destruct first as [neg s1]. simpl in H1.
  pose proof (digits_length s1) as Hip.
  destruct (digits s1) as [ip s2]. simpl in Hip.
  destruct ip as [|d0 ip']; [discriminate|].
  destruct ((d0 =? 0)%Z && negb match ip' with [] => true | _ :: _ => false end);
    [discriminate|].
  simpl in Hip.
  set (fraction := match s2 with
                   | [] => Some ([], s2)
                   | c :: s' => _
                   end).
  assert (H2 : forall fp s3, fraction = Some (fp, s3) -> (length s3 <= length s2)%nat).
  { subst fraction. intros fp s3 Hf. destruct s2 as [|c s']; [injection Hf as <- <-; lia|].
    destruct (c =? 46); [|injection Hf as <- <-; lia].
    pose proof (digits_length s') as Hfp. destruct (digits s') as [fp' s3'].
    destruct fp'; [discriminate Hf|]. injection Hf as <- <-. simpl in *. lia. }
  destruct fraction as [[fp s3]|]; [|discriminate].
  specialize (H2 _ _ eq_refl).
  set (exponent := match s3 with
                   | [] => Some (0%Z, s3)
                   | c :: s' => _
                   end).
  assert (H3 : forall e s5, exponent = Some (e, s5) -> (length s5 <= length s3)%nat).
  { subst exponent. intros e s5 He. destruct s3 as [|c s']; [injection He as <- <-; lia|].
    destruct ((c =? 101) || (c =? 69)); [|injection He as <- <-; lia].
    set (sign := match s' with [] => (false, s') | g :: s'' => _ end) in He.
    assert (Hs : (length (snd sign) <= length s')%nat).
    { subst sign. destruct s' as [|g s'']; [simpl; lia|].
      destruct (g =? 45); [simpl; lia|]. destruct (g =? 43); simpl; lia. }
    destruct sign as [eneg s4]. simpl in Hs.
    pose proof (digits_length s4) as Hep. destruct (digits s4) as [ep s5'].
    destruct ep; [discriminate He|]. injection He as <- <-. simpl in *. lia. }
  destruct exponent as [[e s5]|]; [|discriminate].
  specialize (H3 _ _ eq_refl).
  intros [= <- <-]. lia.
Qed.

Lemma parse_shorter (f : nat) :
  (forall s v r, parse_value f s = POk (v, r) -> (length r < length s)%nat)
  /\ (forall acc s vs r, parse_elements f acc s = POk (vs, r) -> (length r < length s)%nat)
  /\ (forall acc s ps r, parse_members f acc s = POk (ps, r) -> (length r < length s)%nat).
Proof.
  induction f as [|f (IHv & IHe & IHm)].
  - repeat split; intros; discriminate.
  - repeat split.
    + intros s v r H. cbn [parse_value] in H.
      pose proof (skip_json_ws_length s) as Hws.
      destruct (skip_json_ws s) as [|c s'] eqn:Es; [discriminate H|].
      simpl in Hws.
      destruct (c =? 123).
      { pose proof (skip_json_ws_length s') as Hws'.
        destruct (skip_json_ws s') as [|d r0]; [discriminate H|]. simpl in Hws'.
        destruct (d =? 125); [injection H as <- <-; lia|].
        destruct (parse_members f [] s') as [[ps r']| |] eqn:Em; try discriminate H.
        injection H as <- <-. apply IHm in Em. lia. }
      destruct (c =? 91).
      { pose proof (skip_json_ws_length s') as Hws'.
        destruct (skip_json_ws s') as [|d r0]; [discriminate H|]. simpl in Hws'.
        destruct (d =? 93); [injection H as <- <-; lia|].
        destruct (parse_elements f [] s') as [[vs r']| |] eqn:Ee; try discriminate H.
        injection H as <- <-. apply IHe in Ee. lia. }
      destruct (c =? 34).
      { destruct (string_chars s') as [[cs r0]|] eqn:Ec; [|discriminate H].
        injection H as <- <-. apply (string_chars_shorter _ _ _ _ (le_n _)) in Ec. lia. }
      destruct (startsWith (c :: s') (str "true")) eqn:Et.
      { injection H as <- <-. rewrite length_skipn. simpl. lia. }
      destruct (startsWith (c :: s') (str "false")) eqn:Ef.
      { injection H as <- <-. rewrite length_skipn. simpl. lia. }
      destruct (startsWith (c :: s') (str "null")) eqn:En.
      { injection H as <- <-. rewrite length_skipn. simpl. lia. }
      destruct (parse_number (c :: s')) as [[q r0]|] eqn:Epn; [|discriminate H].
      injection H as <- <-. apply parse_number_shorter in Epn. simpl in Epn. lia.
    + intros acc s vs r H. cbn [parse_elements] in H.
      destruct (parse_value f s) as [[v r0]| |] eqn:Ev; try discriminate H.
      apply IHv in Ev.
      pose proof (skip_json_ws_length r0) as Hws.
      destruct (skip_json_ws r0) as [|c r']; [discriminate H|]. simpl in Hws.
      destruct (c =? 44); [apply IHe in H; lia|].
      destruct (c =? 93); [injection H as <- <-; lia|discriminate H].
    + intros acc s ps r H. cbn [parse_members] in H.
      pose proof (skip_json_ws_length s) as Hws.
      destruct (skip_json_ws s) as [|c s1]; [discriminate H|]. simpl in Hws.
      destruct (c =? 34); [|discriminate H].
      destruct (string_chars s1) as [[k s2]|] eqn:Ek; [|discriminate H].
      apply (string_chars_shorter _ _ _ _ (le_n _)) in Ek.
      pose proof (skip_json_ws_length s2) as Hws2.
      destruct (skip_json_ws s2) as [|d s3]; [discriminate H|]. simpl in Hws2.
      destruct (d =? 58); [|discriminate H].
      destruct (parse_value f s3) as [[v s4]| |] eqn:Ev; try discriminate H.
      apply IHv in Ev.
      pose proof (skip_json_ws_length s4) as Hws4.
      destruct (skip_json_ws s4) as [|e s5]; [discriminate H|]. simpl in Hws4.
      destruct (e =? 44); [apply IHm in H; lia|].
      destruct (e =? 125); [injection H as <- <-; lia|discriminate H].
Qed.

Lemma parse_fuel (f : nat) :
  (forall s, (2 * length s < f)%nat -> parse_value f s <> PFuel)
  /\ (forall acc s, (2 * length s + 1 < f)%nat -> parse_elements f acc s <> PFuel)
  /\ (forall acc s, (2 * length s + 1 < f)%nat -> parse_members f acc s <> PFuel).
Proof.
  induction f as [|f (IHv & IHe & IHm)].
  - repeat split; intros; lia.
  - repeat split.
    + intros s Hf. cbn [parse_value].
      pose proof (skip_json_ws_length s) as Hws.
      destruct (skip_json_ws s) as [|c s'] eqn:Es; [discriminate|].
      simpl in Hws.
      destruct (c =? 123).
      { destruct (skip_json_ws s') as [|d r0]; [discriminate|].
        destruct (d =? 125); [discriminate|].
        specialize (IHm [] s'). 
        destruct (parse_members f [] s') as [[ps r']| |]; try discriminate.
        exfalso. apply IHm; [lia|reflexivity]. }
      destruct (c =? 91).
      { destruct (skip_json_ws s') as [|d r0]; [discriminate|].
        destruct (d =? 93); [discriminate|].
        specialize (IHe [] s').
        destruct (parse_elements f [] s') as [[vs r']| |]; try discriminate.
        exfalso. apply IHe; [lia|reflexivity]. }
      destruct (c =? 34).
      { destruct (string_chars s') as [[cs r0]|]; discriminate. }
      destruct (startsWith (c :: s') (str "true")); [discriminate|].
      destruct (startsWith (c :: s') (str "false")); [discriminate|].
      destruct (startsWith (c :: s') (str "null")); [discriminate|].
      destruct (parse_number (c :: s')) as [[q r0]|]; discriminate.
    + intros acc s Hf. cbn [parse_elements].
      specialize (IHv s).
      destruct (parse_value f s) as [[v r0]| |] eqn:Ev; try discriminate.
      * apply (proj1 (parse_shorter f)) in Ev.
        pose proof (skip_json_ws_length r0) as Hws.
        destruct (skip_json_ws r0) as [|c r']; [discriminate|]. simpl in Hws.
        destruct (c =? 44); [apply IHe; lia|].
        destruct (c =? 93); discriminate.
      * exfalso. apply IHv; [lia|reflexivity].
    + intros acc s Hf. cbn [parse_members].
      pose proof (skip_json_ws_length s) as Hws.
      destruct (skip_json_ws s) as [|c s1]; [discriminate|]. simpl in Hws.
      destruct (c =? 34); [|discriminate].
      destruct (string_chars s1) as [[k s2]|] eqn:Ek; [|discriminate].
      apply (string_chars_shorter _ _ _ _ (le_n _)) in Ek.
      pose proof (skip_json_ws_length s2) as Hws2.
      destruct (skip_json_ws s2) as [|d s3]; [discriminate|]. simpl in Hws2.
      destruct (d =? 58); [|discriminate].
      specialize (IHv s3).
      destruct (parse_value f s3) as [[v s4]| |] eqn:Ev; try discriminate.
      * apply (proj1 (parse_shorter f)) in Ev.
        pose proof (skip_json_ws_length s4) as Hws4.
        destruct (skip_json_ws s4) as [|e s5]; [discriminate|]. simpl in Hws4.
        destruct (e =? 44); [apply IHm; lia|].
        destruct (e =? 125); discriminate.
      * exfalso. apply IHv; [lia|reflexivity].
Qed.

Lemma JSON_parse_fuel (s : jsstring) : parse_text (enough_fuel s) s <> PFuel.
Proof.
  unfold parse_text, enough_fuel.
  pose proof (proj1 (parse_fuel (2 * length s + 1)) s) as H.
  destruct (parse_value (2 * length s + 1) s) as [[v r]| |]; try discriminate.
  - destruct (skip_json_ws r); discriminate.
  - exfalso. apply H; [lia|reflexivity].
Qed.

Lemma parse_more_fuel (f : nat) :
  (forall s, parse_value f s <> PFuel -> parse_value (S f) s = parse_value f s)
  /\ (forall acc s, parse_elements f acc s <> PFuel ->
        parse_elements (S f) acc s = parse_elements f acc s)
  /\ (forall acc s, parse_members f acc s <> PFuel ->
        parse_members (S f) acc s = parse_members f acc s).
Proof.
  induction f as [|f (IHv & IHe & IHm)].
  - repeat split; intros; exfalso; auto.
  - repeat split.
    + intros s H. revert H.
      cbn [parse_value].
      destruct (skip_json_ws s) as [|c s']; [reflexivity|].
      destruct (c =? 123).
      { destruct (skip_json_ws s') as [|d r0]; [reflexivity|].
        destruct (d =? 125); [reflexivity|].
        intros H. rewrite IHm; [reflexivity|].
        intros E. rewrite E in H. apply H. reflexivity. }
      destruct (c =? 91).
      { destruct (skip_json_ws s') as [|d r0]; [reflexivity|].
        destruct (d =? 93); [reflexivity|].
        intros H. rewrite IHe; [reflexivity|].
        intros E. rewrite E in H. apply H. reflexivity. }
      reflexivity.
    + intros acc s. cbn [parse_elements]. intros H.
      assert (Hv : parse_value f s <> PFuel)
        by (intros E; rewrite E in H; apply H; reflexivity).
      rewrite (IHv s Hv).
      destruct (parse_value f s) as [[v r0]| |]; try reflexivity.
      destruct (skip_json_ws r0) as [|c r']; [reflexivity|].
      destruct (c =? 44); [apply IHe; exact H|reflexivity].
    + intros acc s. cbn [parse_members]. intros H.
      destruct (skip_json_ws s) as [|c s1]; [reflexivity|].
      destruct (c =? 34); [|reflexivity].
      destruct (string_chars s1) as [[k s2]|]; [|reflexivity].
      destruct (skip_json_ws s2) as [|d s3]; [reflexivity|].
      destruct (d =? 58); [|reflexivity].
      assert (Hv : parse_value f s3 <> PFuel)
        by (intros E; rewrite E in H; apply H; reflexivity).
      rewrite (IHv s3 Hv).
      destruct (parse_value f s3) as [[v s4]| |]; try reflexivity.
      destruct (skip_json_ws s4) as [|e s5]; [reflexivity|].
      destruct (e =? 44); [apply IHm; exact H|reflexivity].
Qed.

Lemma parse_text_fuel_irrelevant (s : jsstring) (k : nat) :
  parse_text (enough_fuel s + k) s = parse_text (enough_fuel s) s.
Proof.
  induction k as [|k IH]; [rewrite Nat.add_0_r; reflexivity|].
  rewrite Nat.add_succ_r, <- IH. unfold parse_text.
  rewrite (proj1 (parse_more_fuel (enough_fuel s + k))); [reflexivity|].
  intros E. pose proof (JSON_parse_fuel s) as Hf. rewrite <- IH in Hf.
  unfold parse_text in Hf. rewrite E in Hf. apply Hf. reflexivity.
Qed.

(** ** Normalisation of the reply *)

Lemma safeName_truthy (toolName : Value) : truthy (safeName_of toolName) = true.
Proof.
  unfold safeName_of, js_or. destruct (truthy toolName) eqn:H; [exact H|reflexivity].
Qed.

Lemma safeUrl_truthy (appUrl : Value) : truthy (safeUrl_of appUrl) = true.
Proof.
  unfold safeUrl_of, js_or. destruct (truthy appUrl) eqn:H; [exact H|reflexivity].
Qed.

Lemma truthy_present (v : Value) : truthy v = true -> required_missing v = false.
Proof. destruct v as [| | | |[|c s]| | | | ]; simpl; intros H; congruence. Qed.

Lemma truthy_string (s : jsstring) : truthy (VStr s) = true <-> s <> [].
Proof. destruct s; simpl; split; congruence. Qed.

(** C1, as amended.  Whatever the text of the reply (empty, prose, a JSON
    value without a required field), when it is not accepted and the resolved
    name is a string the function returns a synthesized payload: name and
    website are the resolved inputs, the slug is the name in lower case with
    each whitespace run replaced by a hyphen, the description embeds at most
    200 consecutive code units of the reply, the list-valued fields are all
    present: features, integrations, pros, cons and useCases are empty,
    categories holds the one default entry.  The payload passes the check of
    line 126: name, description, feature list and pros/cons structure are
    there.  When the resolved name is another value (a number, say) no
    payload is returned: building the slug throws a TypeError, which leaves
    the function. *)
Theorem fallback_payload (h : Host) (toolName appUrl : Value)
    (raw : jsstring) (e : Error) :
  decode_reply (clean raw) = Throw e ->
  (forall n : jsstring,
      safeName_of toolName = VStr n ->
      exists payload excerpt,
        normalize h (safeName_of toolName) (safeUrl_of appUrl) raw = Ok payload
        /\ get payload (str "name") = VStr n
        /\ get payload (str "website") = safeUrl_of appUrl
        /\ get payload (str "slug") = VStr (hyphenate (toLowerCase h n))
        /\ get payload (str "description")
           = VStr (str "AI tool analysis for " ++ n ++ str ". " ++ excerpt ++ str "...")
        /\ (length excerpt <= 200)%nat
        /\ excerpt_of excerpt raw
        /\ get payload (str "features") = VArr []
        /\ get payload (str "integrations") = VArr []
        /\ get payload (str "prosCons")
           = VObj [ (str "pros", VArr []); (str "cons", VArr []) ]
        /\ get payload (str "useCases") = VArr []
        /\ get payload (str "categories") = VArr [VStr (str "AI Tools")]
        /\ has_required payload = true)
  /\ ((forall n : jsstring, safeName_of toolName <> VStr n) ->
      normalize h (safeName_of toolName) (safeUrl_of appUrl) raw
      = Throw (str "safeName.toLowerCase is not a function")
      /\ forall w : World,
           chat_completion h (api_calls w) (safeName_of toolName)
             (safeUrl_of appUrl) = ReplyContent raw ->
           fst (getAIAnalysis h toolName appUrl w)
           = Throw (str "safeName.toLowerCase is not a function")).
Proof.
  intros Hd. split.
  - intros n Hn.
    assert (Ht : truthy (VStr n) = true) by (rewrite <- Hn; apply safeName_truthy).
    unfold normalize. rewrite Hd, Hn. unfold fallback.
    destruct n as [|c n']; [discriminate Ht|].
    eexists. exists (substring0 200 (clean raw)).
    split; [reflexivity|].
    repeat split; try reflexivity.
    + apply substring0_length.
    + eapply excerpt_trans; [apply substring0_excerpt|apply clean_excerpt].
  - intros Hn.
    assert (Hthrow : normalize h (safeName_of toolName) (safeUrl_of appUrl) raw
                     = Throw (str "safeName.toLowerCase is not a function")).
    { unfold normalize. rewrite Hd. unfold fallback.
      destruct (safeName_of toolName) as [| |b|q|s|items|props|id|ms];
        try reflexivity.
      exfalso. apply (Hn s). reflexivity. }
    split; [exact Hthrow|].
    intros w Hchat. unfold getAIAnalysis, bind, create_completion, lift.
    rewrite Hchat. cbn [fst]. exact Hthrow.
Qed.

Lemma fallback_payload_witness :
  (exists payload excerpt,
      normalize sample_host (safeName_of VUndefined) (safeUrl_of (VStr [])) prose
        = Ok payload
      /\ get payload (str "name") = VStr (str "Unknown Tool")
      /\ get payload (str "website") = safeUrl_of (VStr [])
      /\ get payload (str "slug")
         = VStr (hyphenate (toLowerCase sample_host (str "Unknown Tool")))
      /\ get payload (str "description")
         = VStr (str "AI tool analysis for " ++ str "Unknown Tool" ++ str ". "
                 ++ excerpt ++ str "...")
      /\ (length excerpt <= 200)%nat
      /\ excerpt_of excerpt prose
      /\ get payload (str "features") = VArr []
      /\ get payload (str "integrations") = VArr []
      /\ get payload (str "prosCons")
         = VObj [ (str "pros", VArr []); (str "cons", VArr []) ]
      /\ get payload (str "useCases") = VArr []
      /\ get payload (str "categories") = VArr [VStr (str "AI Tools")]
      /\ has_required payload = true)
  /\ normalize sample_host (safeName_of (VInt 42)) (safeUrl_of (VStr [])) prose
     = Throw (str "safeName.toLowerCase is not a function").
Proof.
  split.
  - apply (proj1 (fallback_payload sample_host VUndefined (VStr []) prose
                    (str "Unexpected token in JSON") eq_refl)
                 (str "Unknown Tool")).
    reflexivity.
  - apply (proj2 (fallback_payload sample_host (VInt 42) (VStr []) prose
                    (str "Unexpected token in JSON") eq_refl)).
    intros n Hn. vm_compute in Hn. discriminate Hn.
Defined.

(** C1, as stated, fails: the reply is not accepted, and one list-valued
    field of the synthesized payload, categories, is not empty. *)
Lemma fallback_categories_not_empty :
  decode_reply (clean []) = Throw (str "Unexpected token in JSON")
  /\ exists payload,
       normalize sample_host (VStr (str "Acme")) (VStr (str "No URL provided")) []
         = Ok payload
       /\ get payload (str "categories") = VArr [VStr (str "AI Tools")]
       /\ get payload (str "categories") <> VArr [].
Proof.
  split; [reflexivity|].
  eexists. split; [reflexivity|]. split; [reflexivity|]. discriminate.
Qed.

(** The three kinds of reply the specification names take the fallback. *)
Example empty_reply_not_accepted :
  decode_reply (clean []) = Throw (str "Unexpected token in JSON").
Proof. reflexivity. Qed.

Example prose_not_accepted :
  decode_reply (clean prose) = Throw (str "Unexpected token in JSON").
Proof. reflexivity. Qed.

Example incomplete_reply_not_accepted :
  decode_reply (clean (json_text "{'name':'Acme','description':'d'}"))
  = Throw (str "Invalid JSON structure").
Proof. vm_compute. reflexivity. Qed.

Example null_reply_not_accepted :
  decode_reply (clean (str " null "))
  = Throw (str "Cannot read properties of null (reading 'name')").
Proof. vm_compute. reflexivity. Qed.

(** The slug of the specification's example. *)
Example slug_example :
  forall (content : jsstring) (payload : Value),
    fallback sample_host (VStr (str "My Tool!")) (VStr (str "No URL provided"))
             content = Ok payload ->
    get payload (str "slug") = VStr (str "my-tool!").
Proof. intros content payload [= <-]. reflexivity. Qed.

(** A resolved name that is no string makes the fallback itself throw: the
    slug calls [toLowerCase] on it. *)
Lemma fallback_needs_string_name (h : Host) (safeName safeUrl : Value)
    (content : jsstring) :
  (forall n, safeName <> VStr n) ->
  fallback h safeName safeUrl content
  = Throw (str "safeName.toLowerCase is not a function").
Proof. intros H. destruct safeName; try reflexivity. exfalso. eapply H. reflexivity. Qed.

Lemma decode_reply_accepts (content : jsstring) (parsed : Value) :
  decode_reply content = Ok parsed <->
  JSON_parse content = Some parsed /\ has_required parsed = true.
Proof.
  unfold decode_reply. split.
  - destruct (JSON_parse content) as [v|]; [|discriminate].
    destruct v; try discriminate;
      (destruct (has_required _) eqn:Hr; [|discriminate]);
      intros [= <-]; split; [reflexivity|exact Hr].
  - intros [-> Hr]. destruct parsed; try (rewrite Hr; reflexivity).
    discriminate Hr.
Qed.

Lemma has_required_iff (parsed : Value) :
  has_required parsed = true <->
  truthy (get parsed (str "name")) = true
  /\ truthy (get parsed (str "description")) = true
  /\ isArray (get parsed (str "features")) = true
  /\ truthy (get parsed (str "prosCons")) = true
  /\ isArray (get parsed (str "useCases")) = true.
Proof.
  unfold has_required.
  rewrite negb_true_iff, !orb_false_iff, !negb_false_iff. tauto.
Qed.

(** Every reply is normalised to a payload with the required fields, when
    the resolved name is a string. *)
Lemma normalize_total (h : Host) (toolName appUrl : Value) (raw n : jsstring) :
  safeName_of toolName = VStr n ->
  exists payload,
    normalize h (safeName_of toolName) (safeUrl_of appUrl) raw = Ok payload
    /\ has_required payload = true.
Proof.
  intros Hn.
  assert (Ht : truthy (VStr n) = true) by (rewrite <- Hn; apply safeName_truthy).
  unfold normalize.
  destruct (decode_reply (clean raw)) as [parsed|e] eqn:Hd.
  - exists parsed. split; [reflexivity|].
    apply decode_reply_accepts in Hd. tauto.
  - rewrite Hn. unfold fallback.
    destruct n as [|c n']; [discriminate Ht|].
    eexists. split; reflexivity.
Qed.

(** C2.  The decoded reply is returned as it is exactly when it has a
    non-empty name, a non-empty description, a list of features, a pros/cons
    structure and a list of use cases (non-empty and present being what [!v]
    tests: a string is non-empty when it has a code unit, an object or an
    array is always present, [undefined], [null], [false] and zero never
    are).  In every other case (the text is no JSON, the value is [null], a
    field is missing) the value returned is the same fallback, whatever was
    thrown. *)
Theorem acceptance_criteria :
  (forall (content : jsstring) (parsed : Value),
      decode_reply content = Ok parsed <->
      JSON_parse content = Some parsed
      /\ truthy (get parsed (str "name")) = true
      /\ truthy (get parsed (str "description")) = true
      /\ isArray (get parsed (str "features")) = true
      /\ truthy (get parsed (str "prosCons")) = true
      /\ isArray (get parsed (str "useCases")) = true)
  /\ (forall (h : Host) (safeName safeUrl : Value) (raw : jsstring) (parsed : Value),
      decode_reply (clean raw) = Ok parsed ->
      normalize h safeName safeUrl raw = Ok parsed)
  /\ (forall (h : Host) (safeName safeUrl : Value) (raw : jsstring) (e : Error),
      decode_reply (clean raw) = Throw e ->
      normalize h safeName safeUrl raw = fallback h safeName safeUrl (clean raw))
  /\ (forall content : jsstring,
      (exists parsed, decode_reply content = Ok parsed)
      \/ (JSON_parse content = None
          /\ decode_reply content = Throw (str "Unexpected token in JSON"))
      \/ (JSON_parse content = Some VNull
          /\ decode_reply content
             = Throw (str "Cannot read properties of null (reading 'name')"))
      \/ (exists parsed, JSON_parse content = Some parsed
          /\ has_required parsed = false
          /\ decode_reply content = Throw (str "Invalid JSON structure")))
  /\ (forall s : jsstring, truthy (VStr s) = true <-> s <> [])
  /\ (forall ps : Props, truthy (VObj ps) = true)
  /\ (forall items : list Value, truthy (VArr items) = true)
  /\ (forall b : bool, truthy (VBool b) = b)
  /\ (forall q : Q, truthy (VNum q) = negb (rounds_to_zero q))
  /\ truthy VUndefined = false
  /\ truthy VNull = false.
Proof.
  split; [|split; [|split; [|split; [|split; [|split; [|split; [|split; [|split; [|split]]]]]]]]].
  - intros content parsed.
    rewrite decode_reply_accepts, has_required_iff. reflexivity.
  - intros h safeName safeUrl raw parsed H. unfold normalize. rewrite H. reflexivity.
  - intros h safeName safeUrl raw e H. unfold normalize. rewrite H. reflexivity.
  - intros content. unfold decode_reply.
    destruct (JSON_parse content) as [v|]; [|right; left; split; reflexivity].
    destruct v;
      try (right; right; left; split; reflexivity);
      (destruct (has_required _) eqn:Hr;
       [left; eexists; reflexivity
       |right; right; right; eexists; split; [reflexivity|split; [exact Hr|reflexivity]]]).
  - apply truthy_string.
  - reflexivity.
  - reflexivity.
  - reflexivity.
  - reflexivity.
  - reflexivity.
  - reflexivity.
Qed.

(** The text between the fences is what the decoder gets. *)
Lemma trim_fenced (open x : jsstring) :
  trim open = open -> open <> [] -> trim (open ++ x ++ fence) = open ++ x ++ fence.
Proof.
  intros Ho Hne. destruct open as [|c o]; [congruence|].
  pose proof (trimmed_head c o Ho) as Hc.
  change fence with ([96; 96] ++ [96]).
  rewrite <- app_comm_cons, !app_assoc.
  rewrite <- !app_assoc. rewrite (app_assoc x), (app_assoc o).
  apply trim_ends; [exact Hc|reflexivity].
Qed.

Lemma untagged_is_not_tagged (w1 d rest : jsstring) (c : N) (d' : jsstring) :
  blank w1 -> d = c :: d' -> c <> 106 ->
  startsWith (fence ++ w1 ++ d ++ rest) fence_json = false.
Proof.
  intros H1 -> Hc.
  change (startsWith (w1 ++ (c :: d') ++ rest) (str "json") = false).
  destruct w1 as [|x w1'].
  - change (((106 =? c) && startsWith (d' ++ rest) (str "son")) = false).
    apply andb_false_iff. left. apply N.eqb_neq. congruence.
  - change (((106 =? x) && startsWith (w1' ++ (c :: d') ++ rest) (str "son")) = false).
    apply andb_false_iff. left. apply N.eqb_neq. intros <-.
    unfold blank in H1. simpl in H1. discriminate H1.
Qed.

Lemma clean_fenced (tagged : bool) (w0 w1 d w2 w3 : jsstring) :
  let open := if tagged then fence_json else fence in
  (tagged = false -> startsWith (open ++ w1 ++ d ++ w2 ++ fence) fence_json = false) ->
  blank w0 -> blank w1 -> blank w2 -> blank w3 -> trim d = d ->
  clean (w0 ++ open ++ w1 ++ d ++ w2 ++ fence ++ w3) = d.
Proof.
  intros open Hj H0 H1 H2 H3 Hd. unfold clean.
  assert (Ht : trim (w0 ++ open ++ w1 ++ d ++ w2 ++ fence ++ w3)
               = open ++ w1 ++ d ++ w2 ++ fence).
  { replace (w0 ++ open ++ w1 ++ d ++ w2 ++ fence ++ w3)
      with (w0 ++ (open ++ (w1 ++ d ++ w2) ++ fence) ++ w3)
      by (rewrite <- !app_assoc; reflexivity).
    rewrite trim_between; [rewrite <- !app_assoc; reflexivity|exact H0|exact H3|].
    apply trim_fenced; subst open; destruct tagged; (reflexivity || discriminate). }
  rewrite Ht. unfold strip_fences. subst open.
  destruct tagged.
  - rewrite startsWith_app. apply strip_fences_enclosed; try assumption.
    apply startsWith_app.
  - rewrite (Hj eq_refl), startsWith_app.
    apply strip_fences_enclosed; try assumption.
    apply startsWith_app.
Qed.

(** C3, as amended.  A reply that is a fence, the tag [json] or no tag,
    whitespace, a JSON text, whitespace and a closing fence (whitespace around
    the whole allowed) is decoded as the enclosed text alone: when that text
    is a JSON value with the required fields, the function returns exactly
    this value, and no fallback. *)
Theorem fenced_reply_is_decoded (h : Host) (safeName safeUrl : Value)
    (tagged : bool) (w0 w1 d w2 w3 : jsstring) (v : Value) :
  blank w0 -> blank w1 -> blank w2 -> blank w3 -> trim d = d ->
  JSON_parse d = Some v -> has_required v = true ->
  let raw := w0 ++ (if tagged then fence_json else fence)
                ++ w1 ++ d ++ w2 ++ fence ++ w3 in
  clean raw = d
  /\ decode_reply (clean raw) = Ok v
  /\ normalize h safeName safeUrl raw = Ok v.
Proof.
  intros H0 H1 H2 H3 Hd Hp Hr raw.
  assert (Hc : clean raw = d).
  { apply clean_fenced; try assumption.
    intros ->. destruct (JSON_parse_head d v Hp) as (c & d' & Hcd & Hne).
    eapply untagged_is_not_tagged; eassumption. }
  assert (Hdec : decode_reply d = Ok v).
  { apply decode_reply_accepts. split; assumption. }
  split; [exact Hc|]. split; [rewrite Hc; exact Hdec|].
  unfold normalize. rewrite Hc, Hdec. reflexivity.
Qed.

Lemma fenced_reply_is_decoded_witness :
  let raw := [] ++ fence_json ++ newline ++ complete_json ++ newline ++ fence ++ [] in
  clean raw = complete_json
  /\ decode_reply (clean raw) = Ok complete_value
  /\ normalize sample_host (VStr (str "Acme")) (VStr (str "No URL provided")) raw
     = Ok complete_value.
Proof.
  apply (fenced_reply_is_decoded sample_host (VStr (str "Acme"))
           (VStr (str "No URL provided")) true [] newline complete_json newline []
           complete_value);
    vm_compute; reflexivity.
Defined.

(** C3, as stated, fails for a language tag other than [json]: the enclosed
    text is a JSON value with every required field, the fence goes, the tag
    stays, the decoder rejects what it is given and the fallback is returned. *)
Lemma other_tag_falls_back :
  let raw := str "```js" ++ newline ++ complete_json ++ newline ++ fence in
  JSON_parse complete_json = Some complete_value
  /\ has_required complete_value = true
  /\ clean raw = str "js" ++ newline ++ complete_json
  /\ decode_reply (clean raw) = Throw (str "Unexpected token in JSON")
  /\ (forall (h : Host) (safeName safeUrl : Value),
        normalize h safeName safeUrl raw
        = fallback h safeName safeUrl (str "js" ++ newline ++ complete_json))
  /\ normalize sample_host (VStr (str "Acme")) (VStr (str "No URL provided")) raw
     <> Ok complete_value.
Proof.
  cbv zeta.
  assert (Hc : clean (str "```js" ++ newline ++ complete_json ++ newline ++ fence)
               = str "js" ++ newline ++ complete_json) by (vm_compute; reflexivity).
  assert (Hd : decode_reply (str "js" ++ newline ++ complete_json)
               = Throw (str "Unexpected token in JSON")) by (vm_compute; reflexivity).
  split; [vm_compute; reflexivity|]. split; [vm_compute; reflexivity|].
  split; [exact Hc|]. split; [rewrite Hc; exact Hd|]. split.
  - intros h safeName safeUrl. unfold normalize. rewrite Hc, Hd. reflexivity.
  - unfold normalize. rewrite Hc, Hd. vm_compute. discriminate.
Qed.

(** ** Resolution of the name and of the URL *)

Lemma js_or_chain (a b c d s : Value) :
  js_or a (js_or b (js_or c (js_or d s))) = first_nonempty [a; b; c; d] s.
Proof.
  unfold js_or. cbn [first_nonempty].
  destruct (truthy a); [reflexivity|].
  destruct (truthy b); [reflexivity|].
  destruct (truthy c); reflexivity.
Qed.

Lemma js_or_same_sentinel (l : list Value) (s : Value) :
  truthy s = true -> js_or (first_nonempty l s) s = first_nonempty l s.
Proof.
  intros Hs. unfold js_or. induction l as [|v l IH]; cbn [first_nonempty].
  - rewrite Hs. reflexivity.
  - destruct (truthy v) eqn:Hv; [rewrite Hv; reflexivity|exact IH].
Qed.

Lemma js_or_empty_sentinel (l : list Value) (e s : Value) :
  truthy e = false -> js_or (first_nonempty l e) s = first_nonempty l s.
Proof.
  intros He. unfold js_or. induction l as [|v l IH]; cbn [first_nonempty].
  - rewrite He. reflexivity.
  - destruct (truthy v) eqn:Hv; [rewrite Hv; reflexivity|exact IH].
Qed.

(** C8.  The name sent to the analysis is the first non-empty field among
    appName, ai_tool_name, name and tool_name, in this order, and the
    sentinel Unknown Tool when there is none; the URL is the first non-empty
    field among appUrl, app_url, url and website, and the sentinel No URL
    provided when there is none, never the empty string.  These are the two
    values the request of an attempt carries. *)
Theorem resolution_precedence (item : Item) :
  safeName_of (toolName_of item)
  = first_nonempty
      [ field item (str "appName"); field item (str "ai_tool_name");
        field item (str "name"); field item (str "tool_name") ]
      (VStr (str "Unknown Tool"))
  /\ safeUrl_of (appUrl_of item)
     = first_nonempty
         [ field item (str "appUrl"); field item (str "app_url");
           field item (str "url"); field item (str "website") ]
         (VStr (str "No URL provided"))
  /\ truthy (safeName_of (toolName_of item)) = true
  /\ truthy (safeUrl_of (appUrl_of item)) = true
  /\ safeUrl_of (appUrl_of item) <> VStr []
  /\ (forall (h : Host) (w : World),
        fst (getAIAnalysis h (toolName_of item) (appUrl_of item) w)
        = match chat_completion h (api_calls w)
                  (safeName_of (toolName_of item)) (safeUrl_of (appUrl_of item)) with
          | ReplyError e => Throw e
          | ReplyContent raw =>
              normalize h (safeName_of (toolName_of item))
                        (safeUrl_of (appUrl_of item)) raw
          | ReplyNoContent =>
              Throw (str "Cannot read properties of null (reading 'trim')")
          end).
Proof.
  split; [|split; [|split; [|split; [|split]]]].
  - unfold safeName_of, toolName_of. rewrite js_or_chain.
    apply js_or_same_sentinel. reflexivity.
  - unfold safeUrl_of, appUrl_of. rewrite js_or_chain.
    apply js_or_empty_sentinel. reflexivity.
  - apply safeName_truthy.
  - apply safeUrl_truthy.
  - intros H. pose proof (safeUrl_truthy (appUrl_of item)) as Ht.
    rewrite H in Ht. discriminate Ht.
  - intros h w. unfold getAIAnalysis, bind, create_completion, lift, throw.
    destruct (chat_completion h (api_calls w) _ _); reflexivity.
Qed.

(** ** One processing attempt *)

Lemma getAIAnalysis_run (h : Host) (toolName appUrl : Value) (w : World) :
  getAIAnalysis h toolName appUrl w
  = (fst (getAIAnalysis h toolName appUrl w), tick_api w).
Proof.
  unfold getAIAnalysis, bind, create_completion, lift, throw.
  destruct (chat_completion h (api_calls w) _ _); reflexivity.
Qed.

(** The failure handler: one write, which the store accepts or refuses. *)
Lemma on_error_run (h : Host) (item : Item) (e : Error) (w : World) :
  on_error h item e w
  = match db_error h (db_ops w)
            (OpUpdateOne (fst item) (failed_set e (VDate (clock w)))) with
    | Some e' => (Throw e', tick_db w)
    | None =>
        (Ok (failed item e),
         set_raw (with_set (fst item) (failed_set e (VDate (clock w))) (raw_data w))
                 (tick_db w))
    end.
Proof.
  unfold on_error, updateOne, db_call, new_Date, ret, bind.
  destruct (db_error h (db_ops w) _); reflexivity.
Qed.

(** The body of the [try], step by step. *)
Lemma attempt_run (h : Host) (item : Item) (w : World) :
  attempt h item w
  = match fst (getAIAnalysis h (toolName_of item) (appUrl_of item) w) with
    | Throw e => (Throw e, tick_api w)
    | Ok aiAnalysis =>
        let now := VDate (clock w) in
        let fields := tool_fields item aiAnalysis (logoUrl_of item) now in
        let w2 := bump_id (tick_api w) in
        match missing_paths fields with
        | [] =>
            match db_error h (db_ops w) (OpSave fields) with
            | Some e => (Throw e, tick_db w2)
            | None =>
                let w3 := add_processed (next_id w, fields) (tick_db w2) in
                match db_error h (S (db_ops w))
                        (OpUpdateOne (fst item) (processed_set now)) with
                | Some e => (Throw e, tick_db w3)
                | None =>
                    (Ok (succeeded item (next_id w, fields)),
                     set_raw (with_set (fst item) (processed_set now) (raw_data w))
                             (tick_db w3))
                end
            end
        | p :: paths => (Throw (validation_message (reported_paths fields)), w2)
        end
    end.
Proof.
  unfold attempt. unfold bind at 1. rewrite getAIAnalysis_run.
  destruct (fst (getAIAnalysis h (toolName_of item) (appUrl_of item) w))
    as [aiAnalysis|e]; [|reflexivity].
  unfold new_Date, new_Tool, Tool_save, updateOne, db_call, ret, throw, bind.
  cbn [snd fst clock tick_api next_id].
  destruct (missing_paths _) as [|p paths]; [|reflexivity].
  cbn [db_ops bump_id tick_api].
  destruct (db_error h (db_ops w) _); [reflexivity|].
  cbn [db_ops add_processed tick_db bump_id tick_api clock fst].
  destruct (db_error h (S (db_ops w)) _); reflexivity.
Qed.

(** What an attempt can come to: the record marked processed and a tool
    stored; the record marked failed, a tool stored or not; or an error that
    escapes because the store refused to mark the record failed, the raw
    collection being as before. *)
Lemma processRawDataItem_cases (h : Host) (item : Item) (w : World)
    (out : Outcome Result) (w' : World) :
  processRawDataItem h item w = (out, w') ->
  let now := VDate (clock w) in
  (exists tool,
      out = Ok (succeeded item tool)
      /\ raw_data w' = with_set (fst item) (processed_set now) (raw_data w)
      /\ processed_data w' = processed_data w ++ [tool])
  \/ (exists e,
      out = Ok (failed item e)
      /\ raw_data w' = with_set (fst item) (failed_set e now) (raw_data w)
      /\ (processed_data w' = processed_data w
          \/ exists tool, processed_data w' = processed_data w ++ [tool]))
  \/ (exists e e' n,
      out = Throw e'
      /\ db_error h n (OpUpdateOne (fst item) (failed_set e now)) = Some e'
      /\ raw_data w' = raw_data w
      /\ (processed_data w' = processed_data w
          \/ exists tool, processed_data w' = processed_data w ++ [tool])).
Proof.
  unfold processRawDataItem, try_catch. rewrite attempt_run. cbv zeta.
  destruct (fst (getAIAnalysis h (toolName_of item) (appUrl_of item) w))
    as [aiAnalysis|e].
  - destruct (missing_paths _) as [|p paths].
    + destruct (db_error h (db_ops w) (OpSave _)) as [e|].
      * rewrite on_error_run. cbn [db_ops clock tick_db bump_id tick_api raw_data].
        destruct (db_error h (S (db_ops w)) _) as [e'|] eqn:He; intros [= <- <-].
        -- right; right. exists e, e', (S (db_ops w)). auto.
        -- right; left. exists e. auto.
      * destruct (db_error h (S (db_ops w)) (OpUpdateOne _ (processed_set _)))
          as [e|].
        -- rewrite on_error_run.
           cbn [db_ops clock tick_db add_processed bump_id tick_api raw_data].
           destruct (db_error h (S (S (db_ops w))) _) as [e'|] eqn:He;
             intros [= <- <-].
           ++ right; right. exists e, e', (S (S (db_ops w))).
              repeat split; eauto.
           ++ right; left. exists e. repeat split; eauto.
        -- intros [= <- <-]. left. eexists. repeat split.
    + rewrite on_error_run. cbn [db_ops clock bump_id tick_api raw_data].
      destruct (db_error h (db_ops w) _) as [e'|] eqn:He; intros [= <- <-].
      * right; right. eexists _, e', (db_ops w). eauto.
      * right; left. eexists. auto.
  - rewrite on_error_run. cbn [db_ops clock tick_api raw_data].
    destruct (db_error h (db_ops w) _) as [e'|] eqn:He; intros [= <- <-].
    + right; right. exists e, e', (db_ops w). auto.
    + right; left. exists e. auto.
Qed.

(** ** Status of a raw record *)

Lemma lookup_obj_set_eq (k : jsstring) (v : Value) (ps : Props) :
  lookup k (obj_set k v ps) = Some v.
Proof.
  induction ps as [|[k' v'] ps IH]; simpl.
  - destruct (decide (k = k)); [reflexivity|congruence].
  - destruct (decide (k = k')) as [Hk|Hk]; simpl.
    + destruct (decide (k = k)); [reflexivity|congruence].
    + destruct (decide (k = k')); [congruence|exact IH].
Qed.

Lemma lookup_obj_set_ne (k k' : jsstring) (v : Value) (ps : Props) :
  k <> k' -> lookup k (obj_set k' v ps) = lookup k ps.
Proof.
  intros Hne. induction ps as [|[k'' v''] ps IH]; simpl.
  - destruct (decide (k = k')); [congruence|reflexivity].
  - destruct (decide (k' = k'')) as [Hk|Hk]; simpl.
    + subst k''. destruct (decide (k = k')); [congruence|reflexivity].
    + destruct (decide (k = k'')); [reflexivity|exact IH].
Qed.

(** Two literal keys that differ: the comparison is computed. *)
Lemma key_neq (a b : jsstring) : bool_decide (a = b) = false -> a <> b.
Proof. intros H. apply bool_decide_eq_false in H. exact H. Qed.

Lemma processed_set_status (doc : Props) (now : Value) :
  lookup (str "status") (obj_extend doc (processed_set now)) = Some Processed.
Proof.
  unfold obj_extend, processed_set. cbn [fold_left fst snd].
  rewrite lookup_obj_set_ne by (apply key_neq; vm_compute; reflexivity).
  apply lookup_obj_set_eq.
Qed.

Lemma failed_set_fields (doc : Props) (e : Error) (now : Value) :
  lookup (str "status") (obj_extend doc (failed_set e now)) = Some Failed
  /\ lookup (str "error_message") (obj_extend doc (failed_set e now)) = Some (VStr e)
  /\ lookup (str "error_at") (obj_extend doc (failed_set e now)) = Some now.
Proof.
  unfold obj_extend, failed_set. cbn [fold_left fst snd].
  repeat split.
  - rewrite !lookup_obj_set_ne by (apply key_neq; vm_compute; reflexivity).
    apply lookup_obj_set_eq.
  - rewrite lookup_obj_set_ne by (apply key_neq; vm_compute; reflexivity).
    apply lookup_obj_set_eq.
  - apply lookup_obj_set_eq.
Qed.

Lemma status_of_with_set (w w' : World) (id : N) (set : Props) (doc : Props) :
  raw_data w' = with_set id set (raw_data w) ->
  raw_data w !! id = Some doc ->
  raw_data w' !! id = Some (obj_extend doc set)
  /\ status_of w' id
     = Some (default VUndefined (lookup (str "status") (obj_extend doc set))).
Proof.
  intros Hw Hd. unfold status_of, with_set in *.
  rewrite Hw, lookup_alter_eq, Hd. split; reflexivity.
Qed.

Lemma with_set_other (raw : gmap N Props) (id id' : N) (set : Props) :
  id <> id' -> with_set id set raw !! id' = raw !! id'.
Proof. intros H. unfold with_set. apply lookup_alter_ne. exact H. Qed.

Lemma with_set_absent (raw : gmap N Props) (id : N) (set : Props) :
  raw !! id = None -> with_set id set raw !! id = None.
Proof. intros H. unfold with_set. rewrite lookup_alter_eq, H. reflexivity. Qed.

(** A record whose status is one of the two terminal values does not match
    the query for pending records. *)
Lemma terminal_not_pending (doc : Props) :
  lookup (str "status") doc = Some Processed
  \/ lookup (str "status") doc = Some Failed ->
  status_is 0 doc = false.
Proof. unfold status_is. intros [-> | ->]; reflexivity. Qed.

(** ** The batch *)

Lemma process_all_cons (h : Host) (item : Item) (rest : list Item) (w : World) :
  process_all h (item :: rest) w
  = match processRawDataItem h item w with
    | (Ok result, w1) =>
        match process_all h rest (advance 1000 w1) with
        | (Ok results, w2) => (Ok (result :: results), w2)
        | (Throw e, w2) => (Throw e, w2)
        end
    | (Throw e, w1) => (Throw e, w1)
    end.
Proof.
  cbn [process_all]. unfold bind at 1.
  destruct (processRawDataItem h item w) as [[result|e] w1]; [|reflexivity].
  unfold bind, delay, ret.
  destruct (process_all h rest (advance 1000 w1)) as [[results|e] w2]; reflexivity.
Qed.

(** Whatever the host does, a run of the loop leaves a raw record as it was
    or leaves one of the records of the batch with a terminal status. *)
Lemma process_all_frame (h : Host) (items : list Item) :
  forall (w : World) (out : Outcome (list Result)) (w' : World),
    process_all h items w = (out, w') ->
    forall id : N,
      raw_data w' !! id = raw_data w !! id
      \/ (id ∈ items.*1
          /\ (status_of w' id = Some Processed \/ status_of w' id = Some Failed)).
Proof.
  induction items as [|item rest IH]; intros w out w' Hrun id.
  - cbn in Hrun. injection Hrun as <- <-. left. reflexivity.
  - rewrite process_all_cons in Hrun.
    destruct (processRawDataItem h item w) as [o w1] eqn:Hitem.
    assert (Hfirst :
      raw_data w1 !! id = raw_data w !! id
      \/ (id = item.1
          /\ (status_of w1 id = Some Processed \/ status_of w1 id = Some Failed))).
    { destruct (processRawDataItem_cases _ _ _ _ _ Hitem)
        as [(tool & _ & Hraw & _) | [(e & _ & Hraw & _) | (e & e' & n & _ & _ & Hraw & _)]].
      - destruct (decide (item.1 = id)) as [<-|Hne];
          [|left; rewrite Hraw; apply with_set_other; exact Hne].
        destruct (raw_data w !! item.1) as [doc|] eqn:Hdoc;
          [|left; rewrite Hraw; apply with_set_absent; exact Hdoc].
        right. split; [reflexivity|]. left.
        destruct (status_of_with_set _ _ _ _ _ Hraw Hdoc) as [_ ->].
        rewrite processed_set_status. reflexivity.
      - destruct (decide (item.1 = id)) as [<-|Hne];
          [|left; rewrite Hraw; apply with_set_other; exact Hne].
        destruct (raw_data w !! item.1) as [doc|] eqn:Hdoc;
          [|left; rewrite Hraw; apply with_set_absent; exact Hdoc].
        right. split; [reflexivity|]. right.
        destruct (status_of_with_set _ _ _ _ _ Hraw Hdoc) as [_ ->].
        destruct (failed_set_fields doc e (VDate (clock w))) as [-> _].
        reflexivity.
      - left. rewrite Hraw. reflexivity. }
    destruct o as [result|e].
    + destruct (process_all h rest (advance 1000 w1)) as [o2 w2] eqn:Hrest.
      assert (Hw' : w' = w2) by (destruct o2; congruence). subst w2.
      destruct (IH _ _ _ Hrest id) as [Hsame | [Hin Hst]].
      * cbn [raw_data advance] in Hsame.
        destruct Hfirst as [Hf | [-> Hst]].
        -- left. congruence.
        -- right. split; [simpl; left|].
           unfold status_of in *. rewrite Hsame. exact Hst.
      * right. split; [simpl; right; exact Hin|exact Hst].
    + injection Hrun as <- <-.
      destruct Hfirst as [Hf | [-> Hst]].
      * left. exact Hf.
      * right. split; [simpl; left|exact Hst].
Qed.

(** When the store never refuses to mark a record failed, the loop attempts
    every record: one result per record, in order, and the status of each
    record is the one its result tells. *)
Lemma process_all_complete (h : Host) (items : list Item) :
  failure_writes_succeed h ->
  forall w : World,
    NoDup (items.*1) ->
    (forall it : Item, it ∈ items -> raw_data w !! it.1 = Some it.2) ->
    exists (results : list Result) (w' : World),
      process_all h items w = (Ok results, w')
      /\ originalId <$> results = items.*1
      /\ (forall r : Result, r ∈ results ->
            status_of w' (originalId r)
            = Some (if success r then Processed else Failed)).
Proof.
  intros Hfw. induction items as [|item rest IH]; intros w Hnd Hin.
  - exists [], w. split; [reflexivity|]. split; [reflexivity|].
    intros r Hr. inversion Hr.
  - rewrite fmap_cons in Hnd. apply NoDup_cons in Hnd as [Hfresh Hnd].
    assert (Hdoc : raw_data w !! item.1 = Some item.2)
      by (apply Hin; left).
    destruct (processRawDataItem h item w) as [o w1] eqn:Hitem.
    assert (Hstep : exists r,
      o = Ok r /\ originalId r = item.1
      /\ (exists set, raw_data w1 = with_set item.1 set (raw_data w))
      /\ status_of w1 item.1 = Some (if success r then Processed else Failed)).
    { destruct (processRawDataItem_cases _ _ _ _ _ Hitem)
        as [(tool & -> & Hraw & _) | [(e & -> & Hraw & _) | (e & e' & n & _ & Hdb & _)]].
      - eexists. split; [reflexivity|]. split; [reflexivity|].
        split; [eexists; exact Hraw|].
        destruct (status_of_with_set _ _ _ _ _ Hraw Hdoc) as [_ ->].
        rewrite processed_set_status. reflexivity.
      - eexists. split; [reflexivity|]. split; [reflexivity|].
        split; [eexists; exact Hraw|].
        destruct (status_of_with_set _ _ _ _ _ Hraw Hdoc) as [_ ->].
        destruct (failed_set_fields item.2 e (VDate (clock w))) as [-> _].
        reflexivity.
      - rewrite Hfw in Hdb. discriminate Hdb. }
    destruct Hstep as (r & -> & Hid & (set & Hraw) & Hst).
    destruct (IH (advance 1000 w1) Hnd) as (results & w' & Hrest & Hids & Hsts).
    { intros it Hit. cbn [raw_data advance]. rewrite Hraw.
      rewrite with_set_other; [apply Hin; right; exact Hit|].
      intros Heq. apply Hfresh. rewrite Heq.
      apply list_elem_of_fmap_2. exact Hit. }
    exists (r :: results), w'.
    rewrite process_all_cons, Hitem, Hrest.
    split; [reflexivity|]. split; [rewrite !fmap_cons, Hid, Hids; reflexivity|].
    intros r' Hr'. apply elem_of_cons in Hr' as [-> | Hr']; [|apply Hsts; exact Hr'].
    destruct (process_all_frame _ _ _ _ _ Hrest (originalId r))
      as [Hsame | [Hmem _]].
    + unfold status_of in *. rewrite Hsame. cbn [raw_data advance].
      rewrite Hid. exact Hst.
    + rewrite Hid in Hmem. contradiction.
Qed.

Lemma counts_add_up (results : list Result) :
  (count_success results + count_failed results = length results)%nat.
Proof.
  unfold count_success, count_failed.
  induction results as [|r rs IH]; [reflexivity|].
  rewrite !filter_cons. destruct (success r) eqn:Hs; simpl.
  - destruct (decide (true = true)); [|congruence].
    destruct (decide (false = true)); [congruence|]. simpl. lia.
  - destruct (decide (false = true)); [congruence|].
    destruct (decide (true = true)); [|congruence]. simpl. lia.
Qed.

(** The counters of [autoProcessPendingData] count what the loop of the
    route collects. *)
Lemma auto_loop_counts (h : Host) (items : list Item) :
  forall (w : World) (processed failed : nat),
    auto_loop h items processed failed w
    = match process_all h items w with
      | (Ok results, w') =>
          (Ok ((processed + count_success results)%nat,
               (failed + count_failed results)%nat), w')
      | (Throw e, w') => (Throw e, w')
      end.
Proof.
  induction items as [|item rest IH]; intros w processed failed.
  - cbn. unfold ret. rewrite !Nat.add_0_r. reflexivity.
  - rewrite process_all_cons. cbn [auto_loop]. unfold bind at 1.
    destruct (processRawDataItem h item w) as [[r|e] w1]; [|reflexivity].
    unfold bind, delay.
    destruct (success r) eqn:Hs; rewrite IH;
      destruct (process_all h rest (advance 1000 w1)) as [[results|e] w2];
      try reflexivity;
      unfold count_success, count_failed; rewrite !filter_cons, Hs; simpl;
      repeat (destruct (decide _); try congruence); simpl;
      f_equal; f_equal; f_equal; lia.
Qed.

Lemma pending_NoDup (w : World) : NoDup ((pending w).*1).
Proof.
  unfold pending.
  apply (sublist_NoDup _ ((map_to_list (raw_data w)).*1)).
  - apply NoDup_fst_map_to_list.
  - apply fmap_sublist. apply sublist_filter.
Qed.


Lemma pending_spec (w : World) (it : Item) :
  it ∈ pending w <-> raw_data w !! it.1 = Some it.2 /\ status_is 0 it.2 = true.
Proof.
  unfold pending. rewrite list_elem_of_filter.
  destruct it as [id doc].
  pose proof (elem_of_map_to_list (raw_data w) id doc) as H.
  simpl. tauto.
Qed.

Lemma process_raw_data_run (h : Host) (w : World) :
  process_raw_data h w
  = match db_error h (db_ops w) OpFind with
    | Some e => (Ok (server_error e), tick_db w)
    | None =>
        match pending w with
        | [] => (Ok no_pending, tick_db w)
        | _ :: _ =>
            match process_all h (pending w) (tick_db w) with
            | (Ok results, w') => (Ok (summary results), w')
            | (Throw e, w') => (Ok (server_error e), w')
            end
        end
    end.
Proof.
  unfold process_raw_data, try_catch, find_pending, db_call, ret, bind.
  destruct (db_error h (db_ops w) OpFind); [reflexivity|].
  change (pending (tick_db w)) with (pending w).
  destruct (pending w) as [|it rest]; [reflexivity|].
  destruct (process_all h (it :: rest) (tick_db w)) as [[results|e] w']; reflexivity.
Qed.

Lemma autoProcessPendingData_run (h : Host) (w : World) :
  autoProcessPendingData h w
  = match db_error h (db_ops w) OpCount with
    | Some e => (Ok None, tick_db w)
    | None =>
        match pending w with
        | [] => (Ok None, tick_db w)
        | _ :: _ =>
            match db_error h (S (db_ops w)) OpFind with
            | Some e => (Ok None, tick_db (tick_db w))
            | None =>
                match process_all h (pending w) (tick_db (tick_db w)) with
                | (Ok results, w') =>
                    (Ok (Some (count_success results, count_failed results)), w')
                | (Throw e, w') => (Ok None, w')
                end
            end
        end
    end.
Proof.
  unfold autoProcessPendingData, try_catch, count_pending, find_pending,
    db_call, ret, bind.
  destruct (db_error h (db_ops w) OpCount); [reflexivity|].
  change (pending (tick_db w)) with (pending w).
  destruct (pending w) as [|it rest] eqn:Hp; [reflexivity|].
  cbn [length db_ops tick_db].
  destruct (db_error h (S (db_ops w)) OpFind); [reflexivity|].
  change (pending (tick_db (tick_db w))) with (pending w). rewrite Hp.
  rewrite auto_loop_counts.
  destruct (process_all h (it :: rest) (tick_db (tick_db w))) as [[results|e] w'];
    reflexivity.
Qed.

(** The loop over the pending records of [w], started in a world with the
    same raw collection. *)
Lemma pending_loop (h : Host) (w w1 : World) :
  failure_writes_succeed h ->
  raw_data w1 = raw_data w ->
  exists (results : list Result) (w' : World),
    process_all h (pending w) w1 = (Ok results, w')
    /\ originalId <$> results = (pending w).*1
    /\ (count_success results + count_failed results = length (pending w))%nat
    /\ (forall r : Result, r ∈ results ->
          (success r = false <-> status_of w' (originalId r) = Some Failed)
          /\ (success r = true <-> status_of w' (originalId r) = Some Processed)).
Proof.
  intros Hfw Hraw.
  destruct (process_all_complete h (pending w) Hfw w1 (pending_NoDup w))
    as (results & w' & Hrun & Hids & Hst).
  { intros it Hit. rewrite Hraw. apply pending_spec in Hit. tauto. }
  exists results, w'. split; [exact Hrun|]. split; [exact Hids|]. split.
  - rewrite counts_add_up.
    rewrite <- (length_fmap originalId results), Hids, length_fmap. reflexivity.
  - intros r Hr. rewrite (Hst r Hr).
    destruct (success r); split; split; intros H; try reflexivity;
      try discriminate H; exfalso; vm_compute in H; discriminate H.
Qed.




(** ** Terminal statuses *)

Lemma process_raw_data_frame (h : Host) (w : World)
    (out : Outcome Response) (w' : World) :
  process_raw_data h w = (out, w') ->
  forall id : N,
    raw_data w' !! id = raw_data w !! id
    \/ (id ∈ (pending w).*1
        /\ (status_of w' id = Some Processed \/ status_of w' id = Some Failed)).
Proof.
  rewrite process_raw_data_run. intros Hrun id.
  destruct (db_error h (db_ops w) OpFind);
    [injection Hrun as <- <-; left; reflexivity|].
  destruct (process_all h (pending w) (tick_db w)) as [o w2] eqn:Hloop.
  pose proof (process_all_frame _ _ _ _ _ Hloop id) as Hframe.
  destruct (pending w) as [|it rest];
    [injection Hrun as <- <-; left; reflexivity|].
  assert (w' = w2) by (destruct o; congruence). subst w2.
  exact Hframe.
Qed.

Lemma autoProcessPendingData_frame (h : Host) (w : World)
    (out : Outcome (option (nat * nat))) (w' : World) :
  autoProcessPendingData h w = (out, w') ->
  forall id : N,
    raw_data w' !! id = raw_data w !! id
    \/ (id ∈ (pending w).*1
        /\ (status_of w' id = Some Processed \/ status_of w' id = Some Failed)).
Proof.
  rewrite autoProcessPendingData_run. intros Hrun id.
  destruct (db_error h (db_ops w) OpCount);
    [injection Hrun as <- <-; left; reflexivity|].
  destruct (process_all h (pending w) (tick_db (tick_db w))) as [o w2] eqn:Hloop.
  pose proof (process_all_frame _ _ _ _ _ Hloop id) as Hframe.
  destruct (pending w) as [|it rest];
    [injection Hrun as <- <-; left; reflexivity|].
  destruct (db_error h (S (db_ops w)) OpFind);
    [injection Hrun as <- <-; left; reflexivity|].
  assert (w' = w2) by (destruct o; congruence). subst w2.
  exact Hframe.
Qed.

Lemma terminal_not_selected (w : World) (id : N) (doc : Props) :
  raw_data w !! id = Some doc ->
  status_of w id = Some Processed \/ status_of w id = Some Failed ->
  id ∉ (pending w).*1.
Proof.
  intros Hdoc Hst Hin.
  apply list_elem_of_fmap in Hin as (it & -> & Hit).
  apply pending_spec in Hit as [Hit Hpend].
  rewrite Hdoc in Hit. injection Hit as Heq. rewrite <- Heq in Hpend.
  unfold status_of in Hst. rewrite Hdoc in Hst.
  rewrite terminal_not_pending in Hpend; [discriminate Hpend|].
  destruct (lookup (str "status") doc) as [v|];
    destruct Hst as [[= Hv] | [= Hv]]; simpl in Hv; subst; auto; discriminate.
Qed.

(** C9.  A raw record whose status is Processed (1) or Failed (-1) is not
    among the records a batch selects, which are those the query on status 0
    matches, and a run of the batch trigger or of the scheduled run leaves it
    as it is, whatever the service and the store do.  A raw record that a run
    does change ends with status 1 or -1: the engine writes no other status. *)
Theorem terminal_status_is_stable (h : Host) (w : World) (id : N) (doc : Props) :
  raw_data w !! id = Some doc ->
  status_of w id = Some Processed \/ status_of w id = Some Failed ->
  (id ∉ (pending w).*1)
  /\ (forall it : Item, it ∈ pending w -> status_is 0 it.2 = true)
  /\ (forall (out : Outcome Response) (w' : World),
        process_raw_data h w = (out, w') ->
        raw_data w' !! id = Some doc
        /\ forall id' : N,
             raw_data w' !! id' = raw_data w !! id'
             \/ status_of w' id' = Some Processed
             \/ status_of w' id' = Some Failed)
  /\ (forall (out : Outcome (option (nat * nat))) (w' : World),
        autoProcessPendingData h w = (out, w') ->
        raw_data w' !! id = Some doc
        /\ forall id' : N,
             raw_data w' !! id' = raw_data w !! id'
             \/ status_of w' id' = Some Processed
             \/ status_of w' id' = Some Failed).
Proof.
  intros Hdoc Hst.
  pose proof (terminal_not_selected w id doc Hdoc Hst) as Hsel.
  split; [exact Hsel|]. split; [intros it Hit; apply pending_spec in Hit; tauto|].
  split.
  - intros out w' Hrun. split.
    + destruct (process_raw_data_frame h w out w' Hrun id) as [-> | [Hin _]];
        [exact Hdoc|contradiction].
    + intros id'. destruct (process_raw_data_frame h w out w' Hrun id'); tauto.
  - intros out w' Hrun. split.
    + destruct (autoProcessPendingData_frame h w out w' Hrun id) as [-> | [Hin _]];
        [exact Hdoc|contradiction].
    + intros id'. destruct (autoProcessPendingData_frame h w out w' Hrun id'); tauto.
Qed.

Lemma terminal_status_is_stable_witness :
  (3 ∉ (pending sample_world).*1)
  /\ (forall it : Item, it ∈ pending sample_world -> status_is 0 it.2 = true)
  /\ (forall (out : Outcome Response) (w' : World),
        process_raw_data flaky_host sample_world = (out, w') ->
        raw_data w' !! 3
        = Some [ (str "name", VStr (str "Core")); (str "status", VInt 1) ]
        /\ forall id' : N,
             raw_data w' !! id' = raw_data sample_world !! id'
             \/ status_of w' id' = Some Processed
             \/ status_of w' id' = Some Failed)
  /\ (forall (out : Outcome (option (nat * nat))) (w' : World),
        autoProcessPendingData flaky_host sample_world = (out, w') ->
        raw_data w' !! 3
        = Some [ (str "name", VStr (str "Core")); (str "status", VInt 1) ]
        /\ forall id' : N,
             raw_data w' !! id' = raw_data sample_world !! id'
             \/ status_of w' id' = Some Processed
             \/ status_of w' id' = Some Failed).
Proof.
  apply (terminal_status_is_stable flaky_host sample_world 3
           [ (str "name", VStr (str "Core")); (str "status", VInt 1) ]).
  - reflexivity.
  - left. reflexivity.
Defined.

(** ** What the schema requires *)

Lemma filter_agree {A : Type} (P Q : A -> Prop)
    `{!forall x, Decision (P x), !forall x, Decision (Q x)} (l : list A) :
  (forall x, x ∈ l -> (P x <-> Q x)) -> filter P l = filter Q l.
Proof.
  induction l as [|a l IH]; intros Hall; [reflexivity|].
  rewrite !filter_cons.
  assert (Ha : P a <-> Q a) by (apply Hall; left).
  rewrite IH by (intros x Hx; apply Hall; right; exact Hx).
  destruct (decide (P a)), (decide (Q a)); tauto.
Qed.

(** The four fields that line 183 to 186 add are none of the required
    paths: what the schema misses in the tool document is what it misses in
    the analysis. *)
Lemma tool_fields_missing (item : Item) (aiAnalysis logoUrl now : Value) :
  missing_paths (tool_fields item aiAnalysis logoUrl now)
  = missing_paths (own_props aiAnalysis).
Proof.
  unfold missing_paths. apply filter_agree. intros k Hk.
  assert (Hget : get (VObj (tool_fields item aiAnalysis logoUrl now)) k
                 = get (VObj (own_props aiAnalysis)) k).
  { unfold get, tool_fields, obj_extend. cbn [fold_left fst snd].
    unfold required_paths in Hk.
    repeat (apply elem_of_cons in Hk as [-> | Hk];
            [rewrite !lookup_obj_set_ne
                by (apply key_neq; vm_compute; reflexivity);
             reflexivity|]).
    inversion Hk. }
  rewrite Hget. reflexivity.
Qed.

(** ** The single-item trigger *)

Lemma process_item_run (h : Host) (itemId : jsstring) (w : World) :
  process_item h itemId w
  = match ObjectId_parse itemId with
    | None =>
        (Ok (server_error (str "input must be a 24 character hex string, 12 byte Uint8Array, or an integer")), w)
    | Some id =>
        match db_error h (db_ops w) (OpFindOne id) with
        | Some e => (Ok (server_error e), tick_db w)
        | None =>
            match raw_data w !! id with
            | Some doc =>
                if status_is 0 doc then
                  match processRawDataItem h (id, doc) (tick_db w) with
                  | (Ok result, w') =>
                      (Ok (if success result
                           then item_processed (processedId result)
                           else server_error (default [] (error result))), w')
                  | (Throw e, w') => (Ok (server_error e), w')
                  end
                else (Ok not_found, tick_db w)
            | None => (Ok not_found, tick_db w)
            end
        end
    end.
Proof.
  unfold process_item, try_catch, findOne_pending, db_call, ret, throw, bind.
  destruct (ObjectId_parse itemId) as [id|]; [|reflexivity].
  destruct (db_error h (db_ops w) (OpFindOne id)); [reflexivity|].
  cbn [raw_data tick_db].
  destruct (raw_data w !! id) as [doc|]; [|reflexivity].
  destruct (status_is 0 doc); [|reflexivity].
  destruct (processRawDataItem h (id, doc) (tick_db w)) as [[result|e] w'];
    [|reflexivity].
  destruct (success result); reflexivity.
Qed.



(** ** Failure of an attempt *)

Lemma failed_status (w w' : World) (item : Item) (e : Error) (now : Value) :
  raw_data w !! item.1 = Some item.2 ->
  raw_data w' = with_set item.1 (failed_set e now) (raw_data w) ->
  status_of w' item.1 = Some Failed
  /\ exists doc, raw_data w' !! item.1 = Some doc
                 /\ lookup (str "status") doc = Some Failed
                 /\ lookup (str "error_message") doc = Some (VStr e)
                 /\ lookup (str "error_at") doc = Some now.
Proof.
  intros Hdoc Hraw.
  destruct (status_of_with_set _ _ _ _ _ Hraw Hdoc) as [Hlook Hst].
  destruct (failed_set_fields item.2 e now) as (H1 & H2 & H3).
  split; [rewrite Hst, H1; reflexivity|].
  eexists. split; [exact Hlook|]. auto.
Qed.

(** C4, as amended.  When the enriched record is written and the update of
    the status to Processed then fails, the failure handler writes the status
    Failed: if the store accepts this write the attempt returns a failure,
    the record is Failed and is not selected again, with its enriched record
    stored; only if the store refuses this write too does the record remain
    Pending, to be selected by the next run, and then the error leaves the
    attempt. *)
Theorem status_update_failure (h : Host) (item : Item) (w : World)
    (aiAnalysis : Value) (e : Error) :
  raw_data w !! item.1 = Some item.2 ->
  status_is 0 item.2 = true ->
  fst (getAIAnalysis h (toolName_of item) (appUrl_of item) w) = Ok aiAnalysis ->
  let now := VDate (clock w) in
  let fields := tool_fields item aiAnalysis (logoUrl_of item) now in
  missing_paths fields = [] ->
  db_error h (db_ops w) (OpSave fields) = None ->
  db_error h (S (db_ops w)) (OpUpdateOne item.1 (processed_set now)) = Some e ->
  exists (out : Outcome Result) (w' : World),
    processRawDataItem h item w = (out, w')
    /\ processed_data w' = processed_data w ++ [(next_id w, fields)]
    /\ match db_error h (S (S (db_ops w)))
               (OpUpdateOne item.1 (failed_set e now)) with
       | None =>
           out = Ok (failed item e)
           /\ status_of w' item.1 = Some Failed
           /\ (item.1 ∉ (pending w').*1)
       | Some e' =>
           out = Throw e'
           /\ raw_data w' = raw_data w
           /\ status_of w' item.1 = status_of w item.1
           /\ item ∈ pending w'
       end.
Proof.
  intros Hdoc Hpend Hai now fields Hmiss Hsave Hupd.
  unfold processRawDataItem, try_catch. rewrite attempt_run, Hai.
  cbv zeta. fold now. fold fields. rewrite Hmiss, Hsave, Hupd, on_error_run.
  cbn [db_ops clock tick_db add_processed bump_id tick_api raw_data].
  fold now.
  destruct (db_error h (S (S (db_ops w))) _) as [e'|].
  - eexists _, _. split; [reflexivity|]. split; [reflexivity|].
    split; [reflexivity|]. split; [reflexivity|]. split; [reflexivity|].
    apply pending_spec. split; assumption.
  - eexists _, _. split; [reflexivity|]. split; [reflexivity|].
    split; [reflexivity|].
    match goal with |- status_of ?w2 _ = _ /\ _ =>
      destruct (failed_status w w2 item e now Hdoc eq_refl) as [Hst (doc & Hd & _)]
    end.
    split; [exact Hst|].
    eapply terminal_not_selected; [exact Hd|right; exact Hst].
Qed.

Lemma status_update_failure_witness :
  let h := host_with (ReplyContent complete_json) (Nat.eqb 1) in
  let fields := tool_fields sample_item complete_value (logoUrl_of sample_item)
                            (VDate 0) in
  exists (out : Outcome Result) (w' : World),
    processRawDataItem h sample_item sample_world = (out, w')
    /\ processed_data w' = processed_data sample_world ++ [(100, fields)]
    /\ match db_error h 2
               (OpUpdateOne 1 (failed_set (str "connection lost") (VDate 0))) with
       | None =>
           out = Ok (failed sample_item (str "connection lost"))
           /\ status_of w' 1 = Some Failed
           /\ (1 ∉ (pending w').*1)
       | Some e' =>
           out = Throw e'
           /\ raw_data w' = raw_data sample_world
           /\ status_of w' 1 = status_of sample_world 1
           /\ sample_item ∈ pending w'
       end.
Proof.
  apply (status_update_failure
           (host_with (ReplyContent complete_json) (Nat.eqb 1))
           sample_item sample_world complete_value (str "connection lost"));
    vm_compute; reflexivity.
Defined.

(** C4, as stated, fails.  The enriched record is written, the update of the
    status to Processed fails, and the record does not remain Pending: the
    failure handler marks it Failed, and the next selection leaves it out. *)
Lemma failed_update_marks_failed :
  let h := host_with (ReplyContent complete_json) (Nat.eqb 1) in
  let fields := tool_fields sample_item complete_value (logoUrl_of sample_item)
                            (VDate 0) in
  db_error h 0 (OpSave fields) = None
  /\ db_error h 1 (OpUpdateOne 1 (processed_set (VDate 0)))
     = Some (str "connection lost")
  /\ status_of sample_world 1 = Some Pending
  /\ exists w' : World,
       processRawDataItem h sample_item sample_world
       = (Ok (failed sample_item (str "connection lost")), w')
       /\ processed_data w' = [(100, fields)]
       /\ status_of w' 1 = Some Failed
       /\ (pending w').*1 = [2].
Proof.
  cbv zeta. split; [reflexivity|]. split; [reflexivity|]. split; [reflexivity|].
  eexists. split; [vm_compute; reflexivity|].
  split; [vm_compute; reflexivity|]. split; vm_compute; reflexivity.
Qed.

(** C5, as amended.  An attempt that returns a failure has marked the raw
    record Failed, with error_message the message of the error and error_at
    the time of the attempt.  It has stored no enriched record, unless the
    failure is that of the status update that follows a successful save: then
    the enriched record just saved stays. *)
Theorem failed_attempt_is_recorded (h : Host) (item : Item) (w : World)
    (r : Result) (w' : World) :
  raw_data w !! item.1 = Some item.2 ->
  processRawDataItem h item w = (Ok r, w') ->
  success r = false ->
  exists e : Error,
    r = failed item e
    /\ status_of w' item.1 = Some Failed
    /\ (exists doc, raw_data w' !! item.1 = Some doc
                    /\ lookup (str "status") doc = Some Failed
                    /\ lookup (str "error_message") doc = Some (VStr e)
                    /\ lookup (str "error_at") doc = Some (VDate (clock w)))
    /\ (processed_data w' = processed_data w
        \/ exists aiAnalysis : Value,
             let fields := tool_fields item aiAnalysis (logoUrl_of item)
                                       (VDate (clock w)) in
             fst (getAIAnalysis h (toolName_of item) (appUrl_of item) w)
             = Ok aiAnalysis
             /\ missing_paths fields = []
             /\ db_error h (db_ops w) (OpSave fields) = None
             /\ db_error h (S (db_ops w))
                  (OpUpdateOne item.1 (processed_set (VDate (clock w)))) = Some e
             /\ processed_data w' = processed_data w ++ [(next_id w, fields)]).
Proof.
  intros Hdoc Hrun Hfail.
  unfold processRawDataItem, try_catch in Hrun. rewrite attempt_run in Hrun.
  cbv zeta in Hrun.
  assert (Hrec : forall e0 w0,
    (Ok (failed item e0),
     set_raw (with_set item.1 (failed_set e0 (VDate (clock w))) (raw_data w))
             (tick_db w0)) = (Ok r, w') ->
    r = failed item e0
    /\ status_of w' item.1 = Some Failed
    /\ (exists doc, raw_data w' !! item.1 = Some doc
                    /\ lookup (str "status") doc = Some Failed
                    /\ lookup (str "error_message") doc = Some (VStr e0)
                    /\ lookup (str "error_at") doc = Some (VDate (clock w)))
    /\ processed_data w' = processed_data w0).
  { intros e0 w0 Heq. injection Heq as <- <-.
    destruct (failed_status w
                (set_raw (with_set item.1 (failed_set e0 (VDate (clock w)))
                            (raw_data w)) (tick_db w0))
                item e0 (VDate (clock w)) Hdoc eq_refl) as [Hst Hd].
    auto. }
  destruct (fst (getAIAnalysis h (toolName_of item) (appUrl_of item) w))
    as [aiAnalysis|e] eqn:Hai.
  - destruct (missing_paths _) as [|p paths] eqn:Hmiss.
    + destruct (db_error h (db_ops w) (OpSave _)) as [e|] eqn:Hsave.
      * rewrite on_error_run in Hrun.
        cbn [db_ops clock tick_db bump_id tick_api raw_data] in Hrun.
        destruct (db_error h (S (db_ops w)) _); [discriminate Hrun|].
        exists e.
        destruct (Hrec _ _ Hrun) as (H1 & H2 & H3 & H4).
        split; [exact H1|]. split; [exact H2|]. split; [exact H3|].
        left. exact H4.
      * destruct (db_error h (S (db_ops w)) (OpUpdateOne _ (processed_set _)))
          as [e|] eqn:Hupd.
        -- rewrite on_error_run in Hrun.
           cbn [db_ops clock tick_db add_processed bump_id tick_api raw_data]
             in Hrun.
           destruct (db_error h (S (S (db_ops w))) _); [discriminate Hrun|].
           exists e.
           destruct (Hrec _ _ Hrun) as (H1 & H2 & H3 & H4).
           split; [exact H1|]. split; [exact H2|]. split; [exact H3|].
           right. exists aiAnalysis. cbv zeta.
           repeat split; try reflexivity; try assumption.
        -- injection Hrun as <- <-. discriminate Hfail.
    + rewrite on_error_run in Hrun.
      cbn [db_ops clock bump_id tick_api raw_data] in Hrun.
      destruct (db_error h (db_ops w) _); [discriminate Hrun|].
      eexists.
      destruct (Hrec _ _ Hrun) as (H1 & H2 & H3 & H4).
      split; [exact H1|]. split; [exact H2|]. split; [exact H3|].
      left. exact H4.
  - rewrite on_error_run in Hrun. cbn [db_ops clock tick_api raw_data] in Hrun.
    destruct (db_error h (db_ops w) _); [discriminate Hrun|].
    exists e.
    destruct (Hrec _ _ Hrun) as (H1 & H2 & H3 & H4).
    split; [exact H1|]. split; [exact H2|]. split; [exact H3|].
    left. exact H4.
Qed.

Lemma failed_attempt_is_recorded_witness :
  let h := host_with (ReplyError (str "429 Too Many Requests")) reliable in
  let w' := snd (processRawDataItem h sample_item sample_world) in
  exists e : Error,
    failed sample_item (str "429 Too Many Requests") = failed sample_item e
    /\ status_of w' sample_item.1 = Some Failed
    /\ (exists doc, raw_data w' !! sample_item.1 = Some doc
                    /\ lookup (str "status") doc = Some Failed
                    /\ lookup (str "error_message") doc = Some (VStr e)
                    /\ lookup (str "error_at") doc
                       = Some (VDate (clock sample_world)))
    /\ (processed_data w' = processed_data sample_world
        \/ exists aiAnalysis : Value,
             let fields := tool_fields sample_item aiAnalysis
                             (logoUrl_of sample_item)
                             (VDate (clock sample_world)) in
             fst (getAIAnalysis h (toolName_of sample_item)
                    (appUrl_of sample_item) sample_world)
             = Ok aiAnalysis
             /\ missing_paths fields = []
             /\ db_error h (db_ops sample_world) (OpSave fields) = None
             /\ db_error h (S (db_ops sample_world))
                  (OpUpdateOne sample_item.1
                     (processed_set (VDate (clock sample_world)))) = Some e
             /\ processed_data w'
                = processed_data sample_world
                  ++ [(next_id sample_world, fields)]).
Proof.
  apply (failed_attempt_is_recorded
           (host_with (ReplyError (str "429 Too Many Requests")) reliable)
           sample_item sample_world
           (failed sample_item (str "429 Too Many Requests"))).
  - reflexivity.
  - vm_compute. reflexivity.
  - reflexivity.
Defined.

(** C5, as stated, fails.  The attempt ends in failure, by an error of the
    store during persistence (the status update after the save), the raw
    record is marked Failed, and the enriched record of this attempt exists:
    a Failed raw record with an enriched record. *)
Lemma failed_record_with_enriched_record :
  let h := host_with (ReplyContent complete_json) (Nat.eqb 1) in
  exists (w' : World) (tool : N * Props),
    processRawDataItem h sample_item sample_world
    = (Ok (failed sample_item (str "connection lost")), w')
    /\ status_of w' 1 = Some Failed
    /\ processed_data sample_world = []
    /\ processed_data w' = [tool]
    /\ enriched_for w' 1 = [tool]
    /\ lookup (str "original_id") tool.2
       = Some (VStr (str "000000000000000000000001")).
Proof.
  cbv zeta. eexists _, _.
  split; [vm_compute; reflexivity|].
  split; [vm_compute; reflexivity|]. split; [reflexivity|].
  split; [vm_compute; reflexivity|].
  split; vm_compute; reflexivity.
Qed.

(** ** The acceptance check and the schema *)

(** C10, as amended.  The check of line 126 asks less than the schema of the
    result store: some reply passes it and has no slug, website, tagline,
    company or longDescription.  For every accepted analysis that misses a
    required path, [save] rejects the document before it reaches the store:
    no enriched record is stored and the record is never marked Processed.
    When the store accepts the write that marks the record failed, the
    attempt returns a failure and leaves the record Failed, its
    [error_message] being the message of the rejection; when the store
    refuses that write, the error of the store leaves the attempt and the raw
    record stays as it was. *)
Theorem validation_weaker_than_schema (h : Host) (item : Item) (w : World)
    (raw : jsstring) (payload : Value) :
  raw_data w !! item.1 = Some item.2 ->
  chat_completion h (api_calls w)
    (safeName_of (toolName_of item)) (safeUrl_of (appUrl_of item))
  = ReplyContent raw ->
  decode_reply (clean raw) = Ok payload ->
  missing_paths (own_props payload) <> [] ->
  let now := VDate (clock w) in
  let fields := tool_fields item payload (logoUrl_of item) now in
  (exists accepted : Value,
      decode_reply slugless_json = Ok accepted
      /\ has_required accepted = true
      /\ missing_paths (own_props accepted)
         = [ str "slug"; str "website"; str "tagline"; str "company";
             str "longDescription" ])
  /\ has_required payload = true
  /\ exists rejection : Error,
       (forall w0 : World,
           Tool_save h (next_id w, fields) w0 = (Throw rejection, w0))
       /\ (db_error h (db_ops w) (OpUpdateOne item.1 (failed_set rejection now))
           = None ->
           exists w' : World,
             processRawDataItem h item w = (Ok (failed item rejection), w')
             /\ processed_data w' = processed_data w
             /\ db_ops w' = S (db_ops w)
             /\ status_of w' item.1 = Some Failed
             /\ status_of w' item.1 <> Some Processed
             /\ exists doc, raw_data w' !! item.1 = Some doc
                            /\ lookup (str "error_message") doc
                               = Some (VStr rejection))
       /\ (forall e : Error,
             db_error h (db_ops w) (OpUpdateOne item.1 (failed_set rejection now))
             = Some e ->
             exists w' : World,
               processRawDataItem h item w = (Throw e, w')
               /\ processed_data w' = processed_data w
               /\ raw_data w' = raw_data w
               /\ status_of w' item.1 = status_of w item.1).
Proof.
  intros Hdoc Hreply Hdec Hmiss now fields.
  split.
  { exists slugless_value. repeat split; vm_compute; reflexivity. }
  split; [apply decode_reply_accepts in Hdec; tauto|].
  assert (Hai : fst (getAIAnalysis h (toolName_of item) (appUrl_of item) w)
                = Ok payload).
  { unfold getAIAnalysis, create_completion, lift, bind.
    rewrite Hreply. unfold normalize. rewrite Hdec. reflexivity. }
  assert (Hfields : exists p paths, missing_paths fields = p :: paths).
  { unfold fields. rewrite tool_fields_missing.
    destruct (missing_paths (own_props payload)) as [|p paths]; [congruence|].
    eauto. }
  destruct Hfields as (p & paths & Hfields).
  exists (validation_message (reported_paths fields)).
  split; [|split].
  - intros w0. unfold Tool_save. cbn [snd]. rewrite Hfields. reflexivity.
  - intros Hdb.
    unfold processRawDataItem, try_catch. rewrite attempt_run, Hai. cbv zeta.
    fold now. fold fields. rewrite Hfields.
    rewrite on_error_run. cbn [db_ops clock bump_id tick_api raw_data].
    fold now. rewrite Hdb.
    eexists. split; [reflexivity|]. split; [reflexivity|]. split; [reflexivity|].
    match goal with |- status_of ?w2 _ = _ /\ _ =>
      destruct (failed_status w w2 item (validation_message (reported_paths fields))
                  now Hdoc eq_refl)
        as [Hst (doc & Hd & _ & Hmsg & _)]
    end.
    split; [exact Hst|]. split; [rewrite Hst; discriminate|].
    exists doc. split; assumption.
  - intros e Hdb.
    unfold processRawDataItem, try_catch. rewrite attempt_run, Hai. cbv zeta.
    fold now. fold fields. rewrite Hfields.
    rewrite on_error_run. cbn [db_ops clock bump_id tick_api raw_data].
    fold now. rewrite Hdb.
    eexists. repeat split.
Qed.

Lemma validation_weaker_than_schema_witness :
  let h := host_with (ReplyContent slugless_json) reliable in
  let now := VDate (clock sample_world) in
  let fields := tool_fields sample_item slugless_value (logoUrl_of sample_item) now in
  (exists accepted : Value,
      decode_reply slugless_json = Ok accepted
      /\ has_required accepted = true
      /\ missing_paths (own_props accepted)
         = [ str "slug"; str "website"; str "tagline"; str "company";
             str "longDescription" ])
  /\ has_required slugless_value = true
  /\ exists rejection : Error,
       (forall w0 : World,
           Tool_save h (next_id sample_world, fields) w0 = (Throw rejection, w0))
       /\ (db_error h (db_ops sample_world)
             (OpUpdateOne sample_item.1 (failed_set rejection now)) = None ->
           exists w' : World,
             processRawDataItem h sample_item sample_world
             = (Ok (failed sample_item rejection), w')
             /\ processed_data w' = processed_data sample_world
             /\ db_ops w' = S (db_ops sample_world)
             /\ status_of w' sample_item.1 = Some Failed
             /\ status_of w' sample_item.1 <> Some Processed
             /\ exists doc, raw_data w' !! sample_item.1 = Some doc
                            /\ lookup (str "error_message") doc
                               = Some (VStr rejection))
       /\ (forall e : Error,
             db_error h (db_ops sample_world)
               (OpUpdateOne sample_item.1 (failed_set rejection now)) = Some e ->
             exists w' : World,
               processRawDataItem h sample_item sample_world = (Throw e, w')
               /\ processed_data w' = processed_data sample_world
               /\ raw_data w' = raw_data sample_world
               /\ status_of w' sample_item.1 = status_of sample_world sample_item.1).
Proof.
  apply (validation_weaker_than_schema
           (host_with (ReplyContent slugless_json) reliable)
           sample_item sample_world slugless_json slugless_value).
  - reflexivity.
  - reflexivity.
  - vm_compute. reflexivity.
  - vm_compute. discriminate.
Defined.

(** C10, as stated, fails.  The reply passes the check of line 126 and has
    no slug; [save] rejects the document, and the store refuses the write
    that marks the record failed: the error leaves the attempt, and the
    record is not marked Failed, it is still Pending and selected by the next
    run.  No enriched record is stored. *)
Lemma rejected_save_can_leave_pending :
  let h := host_with (ReplyContent slugless_json) (Nat.eqb 0) in
  decode_reply (clean slugless_json) = Ok slugless_value
  /\ has_required slugless_value = true
  /\ missing_paths (own_props slugless_value)
     = [ str "slug"; str "website"; str "tagline"; str "company";
         str "longDescription" ]
  /\ exists w' : World,
       processRawDataItem h sample_item sample_world
       = (Throw (str "connection lost"), w')
       /\ status_of w' sample_item.1 = Some Pending
       /\ (pending w').*1 = (pending sample_world).*1
       /\ processed_data w' = [].
Proof.
  cbv zeta. split; [vm_compute; reflexivity|]. split; [vm_compute; reflexivity|].
  split; [vm_compute; reflexivity|].
  eexists. split; [vm_compute; reflexivity|].
  split; [vm_compute; reflexivity|]. split; vm_compute; reflexivity.
Qed.

(** What a rejected save reports, for a reply without slug, website, tagline,
    company and longDescription: the paths never given, from the last of the
    schema to the first. *)
Example validation_message_example :
  validation_message (reported_paths (own_props slugless_value))
  = str "Tool validation failed: longDescription: Path `longDescription` is required., company: Path `company` is required., tagline: Path `tagline` is required., website: Path `website` is required., slug: Path `slug` is required.".
Proof. vm_compute. reflexivity. Qed.

(** ** The earlier variant *)

(** server1.js returns whatever decodes, with no check of its fields, and
    does not strip fences: a fenced reply is not decoded there. *)
Lemma legacy_accepts_any_json (content : jsstring) (parsed : Value) :
  JSON_parse content = Some parsed -> Legacy.normalize content = parsed.
Proof. intros H. unfold Legacy.normalize. rewrite H. reflexivity. Qed.

Lemma legacy_keeps_fences :
  Legacy.normalize (fence_json ++ newline ++ complete_json ++ newline ++ fence)
  = Legacy.fallback (fence_json ++ newline ++ complete_json ++ newline ++ fence).
Proof. vm_compute. reflexivity. Qed.

(** ** The scenario of the specification *)

(** Three pending records, the service failing for the second one attempted:
    the two others end Processed with one enriched record each, that one ends
    Failed with its error message, the summary counts 2 and 1. *)
Example partial_failure_scenario :
  let run := process_raw_data second_fails three_pending in
  (exists response : Response,
      fst run = Ok response
      /\ status_code response = 200%nat
      /\ get (body response) (str "processed") = nat_num 2
      /\ get (body response) (str "failed") = nat_num 1)
  /\ (fun id => status_of (snd run) id) <$> (pending three_pending).*1
     = [Some Processed; Some Failed; Some Processed]
  /\ length (processed_data (snd run)) = 2%nat
  /\ pending (snd run) = [].
Proof.
  cbv zeta. split.
  - eexists. split; [vm_compute; reflexivity|].
    repeat split; vm_compute; reflexivity.
  - repeat split; vm_compute; reflexivity.
Qed.

(** * Further properties of the code *)

(** ** A fence that is not closed *)

Lemma skip_ws_length (s : jsstring) : (length (skip_ws s) <= length s)%nat.
Proof.
  destruct (skip_ws_suffix s) as (w & Hw & _).
  apply (f_equal (@length N)) in Hw. rewrite length_app in Hw. lia.
Qed.

(** A trimmed string does not end with whitespace. *)
Lemma trimmed_last (x : jsstring) (c : N) :
  trim (x ++ [c]) = x ++ [c] -> isSpace c = false.
Proof.
  intros Hs. destruct (isSpace c) eqn:Hc; [exfalso|reflexivity].
  unfold trim in Hs.
  destruct (skip_ws_suffix (x ++ [c])) as (w & Hw & _).
  pose proof (skip_ws_length (x ++ [c])) as Hlen.
  destruct (rev (skip_ws (x ++ [c]))) as [|e r] eqn:Hr.
  - simpl in Hs. destruct x; discriminate Hs.
  - assert (Ht : skip_ws (x ++ [c]) = rev r ++ [e]).
    { rewrite <- (rev_involutive (skip_ws (x ++ [c]))), Hr. reflexivity. }
    rewrite Ht in Hw. rewrite app_assoc in Hw.
    apply app_inj_tail in Hw as [_ <-].
    simpl in Hs. rewrite Hc in Hs.
    pose proof (skip_ws_length r) as Hlr.
    apply (f_equal (@length N)) in Hs, Ht.
    rewrite length_rev in Hs. rewrite length_app, length_rev in Ht.
    simpl in Ht. lia.
Qed.

(** Without a fence that only whitespace separates from the end, the second
    replacement of lines 116 and 118 changes nothing. *)
Lemma replace_close_none (s : jsstring) :
  (forall p t, s = p ++ fence ++ t -> blank t -> False) -> replace_close s = s.
Proof.
  induction s as [|c s IH]; intros Hno; [reflexivity|].
  rewrite replace_close_eq.
  destruct (startsWith (c :: s) fence && forallb isSpace (skipn 3 (c :: s))) eqn:Ht.
  - exfalso. apply andb_true_iff in Ht as [Hf Hb].
    destruct (startsWith_prefix _ _ Hf) as (t & Heq).
    rewrite Heq in Hb. apply (Hno [] t); [exact Heq|exact Hb].
  - f_equal. apply IH. intros p t Heq Hb.
    apply (Hno (c :: p) t); [rewrite Heq; reflexivity|exact Hb].
Qed.

Lemma replace_close_unclosed (d : jsstring) :
  trim d = d -> (forall x, d <> x ++ fence) -> replace_close d = d.
Proof.
  intros Hd Hend. apply replace_close_none. intros p t Heq Hb.
  destruct (decide (t = [])) as [->|Hne].
  - apply (Hend p). rewrite Heq, app_nil_r. reflexivity.
  - destruct (exists_last Hne) as (t' & c & ->).
    rewrite !app_assoc in Heq. rewrite Heq in Hd.
    apply trimmed_last in Hd.
    unfold blank in Hb. rewrite forallb_app in Hb.
    apply andb_true_iff in Hb as [_ Hb]. simpl in Hb. rewrite Hd in Hb.
    discriminate Hb.
Qed.

Lemma trim_opened (open w1 d : jsstring) :
  trim open = open -> open <> [] -> trim d = d -> d <> [] ->
  trim (open ++ w1 ++ d) = open ++ w1 ++ d.
Proof.
  intros Ho Hne Hd Hdne.
  destruct open as [|c o]; [congruence|].
  destruct (exists_last Hdne) as (x & e & ->).
  pose proof (trimmed_head c o Ho) as Hc.
  pose proof (trimmed_last x e Hd) as He.
  rewrite <- app_comm_cons. rewrite !app_assoc.
  rewrite <- (app_assoc o w1 x).
  apply trim_ends; assumption.
Qed.

Lemma opened_is_not_tagged (w1 d : jsstring) :
  blank w1 -> startsWith d (str "json") = false ->
  startsWith (fence ++ w1 ++ d) fence_json = false.
Proof.
  intros H1 Hd.
  change (startsWith (w1 ++ d) (str "json") = false).
  destruct w1 as [|x w1']; [exact Hd|].
  change (((106 =? x) && startsWith (w1' ++ d) (str "son")) = false).
  apply andb_false_iff. left. apply N.eqb_neq. intros <-.
  unfold blank in H1. simpl in H1. discriminate H1.
Qed.

Lemma clean_unclosed (tagged : bool) (w0 w1 d w3 : jsstring) :
  let open := if tagged then fence_json else fence in
  blank w0 -> blank w1 -> blank w3 ->
  d <> [] -> trim d = d ->
  (forall x, d <> x ++ fence) ->
  (tagged = false -> startsWith d (str "json") = false) ->
  clean (w0 ++ open ++ w1 ++ d ++ w3) = d.
Proof.
  intros open H0 H1 H3 Hne Hd Hend Hj. unfold clean.
  assert (Ht : trim (w0 ++ open ++ w1 ++ d ++ w3) = open ++ w1 ++ d).
  { replace (w0 ++ open ++ w1 ++ d ++ w3) with (w0 ++ (open ++ w1 ++ d) ++ w3)
      by (rewrite <- !app_assoc; reflexivity).
    apply trim_between; [exact H0|exact H3|].
    apply trim_opened; try assumption;
      subst open; destruct tagged; (reflexivity || discriminate). }
  rewrite Ht. unfold strip_fences. subst open.
  assert (Hstrip : forall p, trim (replace_close (replace_open p (p ++ w1 ++ d))) = d).
  { intros p. rewrite replace_open_at_start.
    rewrite skip_ws_blank_app by exact H1.
    destruct d as [|c d'] eqn:Hdeq; [congruence|].
    rewrite (skip_ws_head c _ (trimmed_head c d' Hd)).
    rewrite replace_close_unclosed by assumption. exact Hd. }
  destruct tagged.
  - rewrite startsWith_app. apply Hstrip.
  - rewrite (opened_is_not_tagged w1 d H1 (Hj eq_refl)), startsWith_app.
    apply Hstrip.
Qed.

(** X1.  An opening fence is removed whether or not a closing fence follows:
    when the reply is a fence (tagged [json] or not), whitespace and a text
    that does not end with a fence, as a reply cut short does, the text alone
    goes to the decoder, and the function returns what decoding this text
    gives, the fallback built from it otherwise. *)
Theorem unclosed_fence_is_stripped (h : Host) (safeName safeUrl : Value)
    (tagged : bool) (w0 w1 d w3 : jsstring) :
  blank w0 -> blank w1 -> blank w3 ->
  d <> [] -> trim d = d ->
  (forall x, d <> x ++ fence) ->
  (tagged = false -> startsWith d (str "json") = false) ->
  let raw := w0 ++ (if tagged then fence_json else fence) ++ w1 ++ d ++ w3 in
  clean raw = d
  /\ normalize h safeName safeUrl raw
     = match decode_reply d with
       | Ok parsed => Ok parsed
       | Throw _ => fallback h safeName safeUrl d
       end.
Proof.
  intros H0 H1 H3 Hne Hd Hend Hj raw.
  assert (Hc : clean raw = d) by (apply clean_unclosed; assumption).
  split; [exact Hc|]. unfold normalize. rewrite Hc. reflexivity.
Qed.

Lemma unclosed_fence_is_stripped_witness :
  let raw := [] ++ fence_json ++ newline ++ complete_json ++ newline in
  clean raw = complete_json
  /\ normalize sample_host (VStr (str "Acme")) (VStr (str "No URL provided")) raw
     = match decode_reply complete_json with
       | Ok parsed => Ok parsed
       | Throw _ =>
           fallback sample_host (VStr (str "Acme")) (VStr (str "No URL provided"))
             complete_json
       end.
Proof.
  apply (unclosed_fence_is_stripped sample_host (VStr (str "Acme"))
           (VStr (str "No URL provided")) true [] newline complete_json newline).
  - reflexivity.
  - reflexivity.
  - reflexivity.
  - discriminate.
  - vm_compute. reflexivity.
  - intros x Hx.
    apply (f_equal (fun s => hd 0 (rev s))) in Hx.
    rewrite rev_app_distr in Hx. vm_compute in Hx. discriminate Hx.
  - discriminate.
Defined.

(** ** The slug of the fallback *)

Lemma hyphenate_from_no_space (b : bool) (s : jsstring) :
  no_space (hyphenate_from b s).
Proof.
  unfold no_space. revert b. induction s as [|c s IH]; intros b; [reflexivity|].
  simpl. destruct (isSpace c) eqn:Hc.
  - destruct b; [apply IH|]. simpl. apply IH.
  - simpl. rewrite Hc. apply IH.
Qed.

Lemma hyphenate_from_length (b : bool) (s : jsstring) :
  (length (hyphenate_from b s) <= length s)%nat.
Proof.
  revert b. induction s as [|c s IH]; intros b; [reflexivity|].
  simpl. destruct (isSpace c).
  - destruct b; [specialize (IH true); lia|]. simpl. specialize (IH true). lia.
  - simpl. specialize (IH false). lia.
Qed.

Lemma hyphenate_from_fixed (b : bool) (s : jsstring) :
  no_space s -> hyphenate_from b s = s.
Proof.
  unfold no_space. revert b. induction s as [|c s IH]; intros b H; [reflexivity|].
  simpl in *. apply andb_true_iff in H as [Hc Hs].
  apply negb_true_iff in Hc. rewrite Hc. f_equal. apply IH. exact Hs.
Qed.

Lemma hyphenate_nonempty (s : jsstring) : s <> [] -> hyphenate s <> [].
Proof.
  destruct s as [|c s]; [congruence|]. intros _.
  unfold hyphenate. simpl. destruct (isSpace c); discriminate.
Qed.

Lemma skip_ws_idem (s : jsstring) : skip_ws (skip_ws s) = skip_ws s.
Proof.
  induction s as [|c s IH]; [reflexivity|].
  simpl. destruct (isSpace c) eqn:Hc; [exact IH|].
  simpl. rewrite Hc. reflexivity.
Qed.

Lemma skip_ws_fixed_head (c : N) (s : jsstring) :
  skip_ws (c :: s) = c :: s -> isSpace c = false.
Proof.
  intros H. destruct (isSpace c) eqn:Hc; [exfalso|reflexivity].
  simpl in H. rewrite Hc in H.
  pose proof (skip_ws_length s) as Hl. rewrite H in Hl. simpl in Hl. lia.
Qed.

(** Within a run, up to its end, nothing is written. *)
Lemma hyphenate_run_end (w rest : jsstring) :
  blank w -> skip_ws rest = rest ->
  hyphenate_from true (w ++ rest) = hyphenate_from false rest.
Proof.
  unfold blank. induction w as [|c w IH]; intros Hw Hrest.
  - destruct rest as [|c r]; [reflexivity|].
    simpl. rewrite (skip_ws_fixed_head c r Hrest). reflexivity.
  - simpl in Hw. apply andb_true_iff in Hw as [Hc Hw].
    simpl. rewrite Hc. apply IH; assumption.
Qed.

(** A stretch, a run, a rest: the stretch, one hyphen, the rest. *)
Lemma hyphenate_run (u w rest : jsstring) :
  no_space u -> blank w -> w <> [] -> skip_ws rest = rest ->
  hyphenate (u ++ w ++ rest) = u ++ 45 :: hyphenate rest.
Proof.
  unfold hyphenate, no_space. intros Hu Hw Hne Hrest.
  induction u as [|x u IH].
  - destruct w as [|c w]; [congruence|].
    unfold blank in Hw. simpl in Hw. apply andb_true_iff in Hw as [Hc Hw].
    simpl. rewrite Hc. f_equal. apply hyphenate_run_end; assumption.
  - simpl in Hu. apply andb_true_iff in Hu as [Hx Hu].
    apply negb_true_iff in Hx. simpl. rewrite Hx. f_equal. apply IH. exact Hu.
Qed.

Lemma Hyphenated_sound (s slug : jsstring) :
  Hyphenated s slug -> slug = hyphenate s.
Proof.
  induction 1 as [u Hu|u w rest r Hu Hw Hne Hrest _ IH].
  - symmetry. apply hyphenate_from_fixed. exact Hu.
  - rewrite hyphenate_run by assumption. rewrite IH. reflexivity.
Qed.

(** The longest stretch without whitespace at the start of a string. *)
Lemma first_stretch (s : jsstring) :
  exists u t, s = u ++ t /\ no_space u
              /\ (t = [] \/ exists c t', t = c :: t' /\ isSpace c = true).
Proof.
  unfold no_space. induction s as [|c s IH].
  - exists [], []. split; [reflexivity|]. split; [reflexivity|left; reflexivity].
  - destruct (isSpace c) eqn:Hc.
    + exists [], (c :: s). split; [reflexivity|]. split; [reflexivity|].
      right. exists c, s. split; [reflexivity|exact Hc].
    + destruct IH as (u & t & -> & Hu & Ht).
      exists (c :: u), t. split; [reflexivity|]. split; [|exact Ht].
      simpl. rewrite Hc. exact Hu.
Qed.

Lemma Hyphenated_complete (n : nat) :
  forall s : jsstring, (length s <= n)%nat -> Hyphenated s (hyphenate s).
Proof.
  induction n as [|n IH]; intros s Hlen.
  - destruct s; [|simpl in Hlen; lia]. apply hyphenated_stretch. reflexivity.
  - destruct (first_stretch s) as (u & t & -> & Hu & [-> | (c & t' & -> & Hc)]).
    + rewrite app_nil_r. unfold hyphenate.
      rewrite hyphenate_from_fixed by exact Hu.
      apply hyphenated_stretch. exact Hu.
    + destruct (skip_ws_suffix (c :: t')) as (w & Hw & Hblank).
      assert (Hne : w <> []).
      { intros ->. cbn [app] in Hw. symmetry in Hw.
        apply skip_ws_fixed_head in Hw. congruence. }
      assert (Hrest : (length (skip_ws (c :: t')) <= n)%nat).
      { simpl. rewrite Hc. pose proof (skip_ws_length t') as Hl.
        rewrite length_app in Hlen. simpl in Hlen. lia. }
      rewrite Hw.
      rewrite hyphenate_run by (try assumption; apply skip_ws_idem).
      apply hyphenated_run; try assumption; [apply skip_ws_idem|].
      apply IH. exact Hrest.
Qed.

(** X2.  Whatever the name, the slug of a fallback is the lower-cased name
    with each run of whitespace replaced by one hyphen, runs at either end
    included, and nothing else changed: it is the one string that the
    decomposition of the name into stretches without whitespace and runs of
    whitespace gives.  It holds no whitespace, is no longer than the
    lower-cased name, is empty only when that name is, and is that name when
    the name holds no whitespace (punctuation and other characters are kept
    as they are). *)
Theorem fallback_slug_has_no_whitespace (h : Host) (n : jsstring)
    (safeUrl : Value) (content : jsstring) :
  exists (payload : Value) (s : jsstring),
    fallback h (VStr n) safeUrl content = Ok payload
    /\ get payload (str "slug") = VStr s
    /\ Hyphenated (toLowerCase h n) s
    /\ (forall s' : jsstring, Hyphenated (toLowerCase h n) s' -> s' = s)
    /\ no_space s
    /\ (length s <= length (toLowerCase h n))%nat
    /\ (toLowerCase h n <> [] -> s <> [])
    /\ (no_space (toLowerCase h n) -> s = toLowerCase h n).
Proof.
  eexists. exists (hyphenate (toLowerCase h n)).
  split; [reflexivity|]. split; [reflexivity|].
  split; [apply (Hyphenated_complete (length (toLowerCase h n))); reflexivity|].
  split; [apply Hyphenated_sound|].
  split; [apply hyphenate_from_no_space|].
  split; [apply hyphenate_from_length|].
  split; [apply hyphenate_nonempty|apply hyphenate_from_fixed].
Qed.

(** Two runs of whitespace, one of them of two blanks: two hyphens. *)
Example hyphenated_example :
  Hyphenated (str "my  tool 2.0") (str "my-tool-2.0")
  /\ hyphenate (str "my  tool 2.0") = str "my-tool-2.0".
Proof.
  split; [|reflexivity].
  apply (hyphenated_run (str "my") (str "  ") (str "tool 2.0") (str "tool-2.0"));
    try reflexivity; [discriminate|].
  apply (hyphenated_run (str "tool") (str " ") (str "2.0") (str "2.0"));
    try reflexivity; [discriminate|].
  apply hyphenated_stretch. reflexivity.
Qed.

(** ** A reply that is not accepted, a request that is rejected *)

(** The fallback has every path the schema requires, when lower-casing
    leaves something of the name. *)
Lemma fallback_fields_complete (h : Host) (n : jsstring) (safeUrl : Value)
    (content : jsstring) (payload : Value) :
  fallback h (VStr n) safeUrl content = Ok payload ->
  n <> [] -> toLowerCase h n <> [] -> truthy safeUrl = true ->
  missing_paths (own_props payload) = [].
Proof.
  intros Hf Hn Hl Hu. unfold fallback in Hf. injection Hf as <-.
  pose proof (hyphenate_nonempty _ Hl) as Hh.
  destruct (hyphenate (toLowerCase h n)) as [|c' t']; [congruence|].
  destruct n as [|c n']; [congruence|].
  destruct safeUrl as [| |b|q|s|items|props|id|ms]; try discriminate Hu;
    try reflexivity.
  destruct s; [discriminate Hu|reflexivity].
Qed.

(** X3.  A reply that is no JSON, or lacks a required field, does not fail
    the attempt: with a store that works and a name that is a string, the
    fallback built from the reply is stored as the enriched record and the
    raw record ends Processed. *)
Theorem malformed_reply_is_processed (h : Host) (item : Item) (w : World)
    (raw : jsstring) (e : Error) (n : jsstring) :
  store_reliable h ->
  raw_data w !! item.1 = Some item.2 ->
  chat_completion h (api_calls w) (safeName_of (toolName_of item))
    (safeUrl_of (appUrl_of item)) = ReplyContent raw ->
  decode_reply (clean raw) = Throw e ->
  safeName_of (toolName_of item) = VStr n ->
  toLowerCase h n <> [] ->
  exists (payload : Value) (w' : World),
    fallback h (VStr n) (safeUrl_of (appUrl_of item)) (clean raw) = Ok payload
    /\ let tool := (next_id w,
                    tool_fields item payload (logoUrl_of item) (VDate (clock w))) in
       processRawDataItem h item w = (Ok (succeeded item tool), w')
       /\ processed_data w' = processed_data w ++ [tool]
       /\ status_of w' item.1 = Some Processed.
Proof.
  intros Hrel Hdoc Hchat Hdec Hname Hlow.
  assert (Hn : n <> []).
  { apply truthy_string. rewrite <- Hname. apply safeName_truthy. }
  eexists. eexists. split; [reflexivity|]. cbv zeta.
  assert (Hai : fst (getAIAnalysis h (toolName_of item) (appUrl_of item) w)
                = fallback h (VStr n) (safeUrl_of (appUrl_of item)) (clean raw)).
  { unfold getAIAnalysis, bind, create_completion, lift. rewrite Hchat.
    cbn [fst]. unfold normalize. rewrite Hdec, Hname. reflexivity. }
  unfold processRawDataItem, try_catch. rewrite attempt_run, Hai.
  cbv zeta. change (fallback h (VStr n) (safeUrl_of (appUrl_of item)) (clean raw))
    with (Ok (VObj
        [ (str "name", VStr n);
          (str "slug", VStr (hyphenate (toLowerCase h n)));
          (str "website", safeUrl_of (appUrl_of item));
          (str "tagline", VStr (str "AI tool analysis for " ++ n));
          (str "description",
           VStr (str "AI tool analysis for " ++ n ++ str ". "
                 ++ substring0 200 (clean raw) ++ str "..."));
          (str "company", VStr (str "Unknown"));
          (str "longDescription", VStr (str "Analysis pending - JSON parse error"));
          (str "categories", VArr [VStr (str "AI Tools")]);
          (str "features", VArr []);
          (str "integrations", VArr []);
          (str "prosCons", VObj [ (str "pros", VArr []); (str "cons", VArr []) ]);
          (str "useCases", VArr []) ])).
  cbv iota beta.
  rewrite tool_fields_missing.
  rewrite (fallback_fields_complete h n (safeUrl_of (appUrl_of item)) (clean raw) _
             eq_refl Hn Hlow (safeUrl_truthy _)).
  rewrite !Hrel.
  split; [reflexivity|]. split; [reflexivity|].
  unfold status_of. cbn [raw_data set_raw]. unfold with_set.
  rewrite lookup_alter_eq, Hdoc. cbn [fmap option_fmap option_map].
  rewrite processed_set_status. reflexivity.
Qed.

Lemma malformed_reply_is_processed_witness :
  exists (payload : Value) (w' : World),
    fallback sample_host (VStr (str "Acme"))
      (safeUrl_of (appUrl_of sample_item)) (clean prose) = Ok payload
    /\ let tool := (next_id sample_world,
                    tool_fields sample_item payload (logoUrl_of sample_item)
                      (VDate (clock sample_world))) in
       processRawDataItem sample_host sample_item sample_world
       = (Ok (succeeded sample_item tool), w')
       /\ processed_data w' = processed_data sample_world ++ [tool]
       /\ status_of w' sample_item.1 = Some Processed.
Proof.
  apply (malformed_reply_is_processed sample_host sample_item sample_world prose
           (str "Unexpected token in JSON") (str "Acme")).
  - intros n op. reflexivity.
  - reflexivity.
  - reflexivity.
  - vm_compute. reflexivity.
  - reflexivity.
  - discriminate.
Defined.

(** X4.  A request that the service rejects, or answers without a text, is
    not turned into a fallback: the attempt builds and stores no enriched
    record and sends one store operation, the write that marks the record
    Failed; when the store accepts it the record is Failed and its
    [error_message] is the message of the service (of the TypeError, for an
    answer without text). *)
Theorem service_error_is_not_masked (h : Host) (item : Item) (w : World)
    (e : Error) :
  raw_data w !! item.1 = Some item.2 ->
  (chat_completion h (api_calls w) (safeName_of (toolName_of item))
     (safeUrl_of (appUrl_of item)) = ReplyError e
   \/ (chat_completion h (api_calls w) (safeName_of (toolName_of item))
         (safeUrl_of (appUrl_of item)) = ReplyNoContent
       /\ e = str "Cannot read properties of null (reading 'trim')")) ->
  db_error h (db_ops w) (OpUpdateOne item.1 (failed_set e (VDate (clock w)))) = None ->
  exists w' : World,
    processRawDataItem h item w = (Ok (failed item e), w')
    /\ processed_data w' = processed_data w
    /\ next_id w' = next_id w
    /\ api_calls w' = S (api_calls w)
    /\ db_ops w' = S (db_ops w)
    /\ status_of w' item.1 = Some Failed
    /\ exists doc, raw_data w' !! item.1 = Some doc
                   /\ lookup (str "error_message") doc = Some (VStr e)
                   /\ lookup (str "error_at") doc = Some (VDate (clock w)).
Proof.
  intros Hdoc Hchat Hdb.
  assert (Hai : fst (getAIAnalysis h (toolName_of item) (appUrl_of item) w) = Throw e).
  { unfold getAIAnalysis, bind, create_completion, lift, throw.
    destruct Hchat as [-> | [-> ->]]; reflexivity. }
  unfold processRawDataItem, try_catch. rewrite attempt_run, Hai.
  rewrite on_error_run. cbn [db_ops clock tick_api]. rewrite Hdb.
  eexists. split; [reflexivity|].
  repeat (split; [reflexivity|]).
  destruct (failed_status (tick_api w)
              (set_raw (with_set item.1 (failed_set e (VDate (clock w))) (raw_data w))
                 (tick_db (tick_api w)))
              item e (VDate (clock w)) Hdoc eq_refl)
    as (Hst & doc & Hlook & _ & Hmsg & Hat).
  split; [exact Hst|]. exists doc. auto.
Qed.

Lemma service_error_is_not_masked_witness :
  exists w' : World,
    processRawDataItem failing_host sample_item sample_world
    = (Ok (failed sample_item (str "429 Too Many Requests")), w')
    /\ processed_data w' = processed_data sample_world
    /\ next_id w' = next_id sample_world
    /\ api_calls w' = S (api_calls sample_world)
    /\ db_ops w' = S (db_ops sample_world)
    /\ status_of w' sample_item.1 = Some Failed
    /\ exists doc, raw_data w' !! sample_item.1 = Some doc
                   /\ lookup (str "error_message") doc
                      = Some (VStr (str "429 Too Many Requests"))
                   /\ lookup (str "error_at") doc
                      = Some (VDate (clock sample_world)).
Proof.
  apply (service_error_is_not_masked failing_host sample_item sample_world
           (str "429 Too Many Requests")).
  - reflexivity.
  - left. reflexivity.
  - reflexivity.
Defined.

(** ** What a trigger changes, and what it does not *)

(** One attempt: one request to the service, no waiting, at most one more
    enriched record, and none of the others touched. *)
Lemma processRawDataItem_effects (h : Host) (item : Item) (w : World) :
  let w' := snd (processRawDataItem h item w) in
  api_calls w' = S (api_calls w)
  /\ clock w' = clock w
  /\ exists added, processed_data w' = processed_data w ++ added
                   /\ (length added <= 1)%nat.
Proof.
  cbv zeta. unfold processRawDataItem, try_catch. rewrite attempt_run. cbv zeta.
  destruct (fst (getAIAnalysis h (toolName_of item) (appUrl_of item) w))
    as [aiAnalysis|e].
  - destruct (missing_paths _) as [|p paths].
    + destruct (db_error h (db_ops w) (OpSave _)) as [e|].
      * rewrite on_error_run. destruct (db_error _ _ _); finish_effects.
      * destruct (db_error h (S (db_ops w)) (OpUpdateOne _ (processed_set _)))
          as [e|]; [|finish_effects].
        rewrite on_error_run. destruct (db_error _ _ _); finish_effects.
    + rewrite on_error_run. destruct (db_error _ _ _); finish_effects.
  - rewrite on_error_run. destruct (db_error _ _ _); finish_effects.
Qed.

Lemma process_all_effects (h : Host) (items : list Item) :
  forall w : World,
    let run := process_all h items w in
    (api_calls (snd run) <= api_calls w + length items)%nat
    /\ (exists added, processed_data (snd run) = processed_data w ++ added
                      /\ (length added <= length items)%nat)
    /\ (forall results, fst run = Ok results ->
          length results = length items
          /\ api_calls (snd run) = (api_calls w + length items)%nat
          /\ clock (snd run) = (clock w + 1000 * Z.of_nat (length items))%Z).
Proof.
  induction items as [|item rest IH]; intros w; cbv zeta.
  - cbn. split; [lia|]. split.
    + exists []. rewrite app_nil_r. split; [reflexivity|simpl; lia].
    + intros results [= <-]. repeat split; try reflexivity; lia.
  - rewrite process_all_cons.
    destruct (processRawDataItem_effects h item w) as (Hapi & Hclock & added & Hadd & Hlen).
    destruct (processRawDataItem h item w) as [[result|e] w1]; cbn [snd] in *.
    + destruct (IH (advance 1000 w1)) as (Hle & (added' & Hadd' & Hlen') & Hok).
      cbn [api_calls clock processed_data advance] in *.
      destruct (process_all h rest (advance 1000 w1)) as [[results|e] w2];
        cbn [fst snd length] in *.
      * split; [lia|]. split.
        -- exists (added ++ added'). rewrite Hadd', Hadd, app_assoc, length_app.
           split; [reflexivity|lia].
        -- intros rs [= <-]. destruct (Hok results eq_refl) as (H1 & H2 & H3).
           cbn [length]. split; [lia|]. split; [lia|].
           rewrite H3, Hclock. lia.
      * split; [lia|]. split.
        -- exists (added ++ added'). rewrite Hadd', Hadd, app_assoc, length_app.
           split; [reflexivity|lia].
        -- intros rs Hrs. discriminate Hrs.
    + cbn [fst snd length]. split; [lia|]. split.
      * exists added. split; [exact Hadd|lia].
      * intros rs Hrs. discriminate Hrs.
Qed.

(** X5.  The collection of enriched records only grows: whatever the service
    and the store do, a trigger leaves the enriched records that were there
    as they were, in their order, and adds at most one per record it
    selected (at most one, for the single-item trigger). *)
Theorem enriched_records_are_only_added (h : Host) (w : World) :
  (exists added,
      processed_data (snd (process_raw_data h w)) = processed_data w ++ added
      /\ (length added <= length (pending w))%nat)
  /\ (exists added,
        processed_data (snd (autoProcessPendingData h w)) = processed_data w ++ added
        /\ (length added <= length (pending w))%nat)
  /\ (forall itemId : jsstring,
        exists added,
          processed_data (snd (process_item h itemId w)) = processed_data w ++ added
          /\ (length added <= 1)%nat).
Proof.
  assert (Hnone : forall n, exists added : list (N * Props),
             processed_data w = processed_data w ++ added /\ (length added <= n)%nat).
  { intros n. exists []. rewrite app_nil_r. split; [reflexivity|simpl; lia]. }
  split; [|split].
  - rewrite process_raw_data_run.
    destruct (db_error h (db_ops w) OpFind); [apply Hnone|].
    destruct (process_all_effects h (pending w) (tick_db w)) as (_ & Hadd & _).
    destruct (pending w) as [|it rest]; [apply Hnone|].
    destruct (process_all h (it :: rest) (tick_db w)) as [[results|e] w']; exact Hadd.
  - rewrite autoProcessPendingData_run.
    destruct (db_error h (db_ops w) OpCount); [apply Hnone|].
    destruct (process_all_effects h (pending w) (tick_db (tick_db w))) as (_ & Hadd & _).
    destruct (pending w) as [|it rest]; [apply Hnone|].
    destruct (db_error h (S (db_ops w)) OpFind); [apply Hnone|].
    destruct (process_all h (it :: rest) (tick_db (tick_db w))) as [[results|e] w'];
      exact Hadd.
  - intros itemId. rewrite process_item_run.
    destruct (ObjectId_parse itemId) as [id|]; [|apply Hnone].
    destruct (db_error h (db_ops w) (OpFindOne id)); [apply Hnone|].
    destruct (raw_data w !! id) as [doc|]; [|apply Hnone].
    destruct (status_is 0 doc); [|apply Hnone].
    destruct (processRawDataItem_effects h (id, doc) (tick_db w)) as (_ & _ & Hadd).
    destruct (processRawDataItem h (id, doc) (tick_db w)) as [[result|e] w'];
      exact Hadd.
Qed.

(** X7.  The batch sends at most one request to the analysis service per
    record it selected and never repeats one; when it runs to its end (the
    store answers the selection and accepts the writes that mark a record
    failed) it has sent exactly one per record and waited one second after
    every attempt, the failed ones and the last one included. *)
Theorem one_request_per_record (h : Host) (w : World) :
  (api_calls (snd (process_raw_data h w)) <= api_calls w + length (pending w))%nat
  /\ (failure_writes_succeed h ->
      db_error h (db_ops w) OpFind = None ->
      api_calls (snd (process_raw_data h w)) = (api_calls w + length (pending w))%nat
      /\ clock (snd (process_raw_data h w))
         = (clock w + 1000 * Z.of_nat (length (pending w)))%Z).
Proof.
  split.
  - rewrite process_raw_data_run.
    destruct (db_error h (db_ops w) OpFind); [simpl; lia|].
    destruct (process_all_effects h (pending w) (tick_db w)) as (Hle & _ & _).
    destruct (pending w) as [|it rest]; [simpl; lia|].
    destruct (process_all h (it :: rest) (tick_db w)) as [[results|e] w']; exact Hle.
  - intros Hfw Hfind. rewrite process_raw_data_run, Hfind.
    destruct (pending_loop h w (tick_db w) Hfw eq_refl) as (results & w' & Hrun & _).
    destruct (process_all_effects h (pending w) (tick_db w)) as (_ & _ & Hok).
    rewrite Hrun in *. specialize (Hok results eq_refl) as (_ & Hapi & Hclock).
    destruct (pending w) as [|it rest].
    + simpl. split; [lia|]. lia.
    + cbn [snd] in *. split; [exact Hapi|exact Hclock].
Qed.

Lemma one_request_per_record_witness :
  api_calls (snd (process_raw_data flaky_host sample_world))
  = (api_calls sample_world + length (pending sample_world))%nat
  /\ clock (snd (process_raw_data flaky_host sample_world))
     = (clock sample_world + 1000 * Z.of_nat (length (pending sample_world)))%Z.
Proof.
  refine (proj2 (one_request_per_record flaky_host sample_world) _ _).
  - intros n id e now. reflexivity.
  - reflexivity.
Defined.

(** ** The fields of a raw record *)

Lemma lookup_obj_extend_other (k : jsstring) (set doc : Props) :
  k ∉ set.*1 -> lookup k (obj_extend doc set) = lookup k doc.
Proof.
  unfold obj_extend. revert doc.
  induction set as [|[k' v] set IH]; intros doc Hk; [reflexivity|].
  rewrite fmap_cons in Hk. apply not_elem_of_cons in Hk as [Hne Hk].
  cbn [fold_left fst snd]. rewrite IH by exact Hk.
  apply lookup_obj_set_ne. exact Hne.
Qed.

Lemma kept_refl (o : option Props) : kept o o.
Proof. destruct o; simpl; [intros k _; reflexivity|exact I]. Qed.

Lemma kept_trans (a b c : option Props) : kept a b -> kept b c -> kept a c.
Proof.
  destruct a, b, c; simpl; try tauto.
  intros H1 H2 k Hk. rewrite (H2 k Hk). apply H1. exact Hk.
Qed.

Lemma kept_with_set (raw : gmap N Props) (id id' : N) (set : Props) :
  (forall k, k ∉ engine_fields -> k ∉ set.*1) ->
  kept (raw !! id') (with_set id set raw !! id').
Proof.
  intros Hkeys. unfold with_set.
  destruct (decide (id = id')) as [->|Hne].
  - rewrite lookup_alter_eq. destruct (raw !! id') as [doc|]; simpl; [|exact I].
    intros k Hk. apply lookup_obj_extend_other. apply Hkeys. exact Hk.
  - rewrite lookup_alter_ne by exact Hne. apply kept_refl.
Qed.

Lemma engine_sets_engine_fields (k : jsstring) (e : Error) (now now' : Value) :
  k ∉ engine_fields ->
  (k ∉ (processed_set now).*1) /\ (k ∉ (failed_set e now').*1).
Proof.
  unfold engine_fields, processed_set, failed_set. cbn [fmap list_fmap fst].
  rewrite !not_elem_of_cons. tauto.
Qed.

Lemma processRawDataItem_kept (h : Host) (item : Item) (w : World) (id : N) :
  kept (raw_data w !! id) (raw_data (snd (processRawDataItem h item w)) !! id).
Proof.
  destruct (processRawDataItem h item w) as [out w'] eqn:Hrun. cbn [snd].
  destruct (processRawDataItem_cases _ _ _ _ _ Hrun)
    as [(tool & _ & -> & _) | [(e & _ & -> & _) | (e & e' & n & _ & _ & -> & _)]].
  - apply kept_with_set. intros k Hk.
    apply (engine_sets_engine_fields k [] (VDate (clock w)) VNull Hk).
  - apply kept_with_set. intros k Hk.
    apply (engine_sets_engine_fields k e VNull (VDate (clock w)) Hk).
  - apply kept_refl.
Qed.

Lemma process_all_kept (h : Host) (items : list Item) (id : N) :
  forall w : World,
    kept (raw_data w !! id) (raw_data (snd (process_all h items w)) !! id).
Proof.
  induction items as [|item rest IH]; intros w; [apply kept_refl|].
  rewrite process_all_cons.
  pose proof (processRawDataItem_kept h item w id) as Hfirst.
  destruct (processRawDataItem h item w) as [[result|e] w1]; cbn [snd] in *;
    [|exact Hfirst].
  specialize (IH (advance 1000 w1)). cbn [raw_data advance] in IH.
  destruct (process_all h rest (advance 1000 w1)) as [[results|e] w2];
    cbn [snd] in *; eapply kept_trans; eassumption.
Qed.

(** X6.  No trigger creates or deletes a raw record, and none changes a field
    of a raw record other than [status], [processed_at], [error_message] and
    [error_at]: the name, the URL, the logo and whatever else the record
    holds are after the run what they were before, whatever the service and
    the store do. *)
Theorem raw_records_keep_their_fields (h : Host) (w : World) (id : N) :
  kept (raw_data w !! id) (raw_data (snd (process_raw_data h w)) !! id)
  /\ kept (raw_data w !! id) (raw_data (snd (autoProcessPendingData h w)) !! id)
  /\ (forall itemId : jsstring,
        kept (raw_data w !! id) (raw_data (snd (process_item h itemId w)) !! id)).
Proof.
  split; [|split].
  - rewrite process_raw_data_run.
    destruct (db_error h (db_ops w) OpFind); [apply kept_refl|].
    pose proof (process_all_kept h (pending w) id (tick_db w)) as Hk.
    destruct (pending w) as [|it rest]; [apply kept_refl|].
    destruct (process_all h (it :: rest) (tick_db w)) as [[results|e] w']; exact Hk.
  - rewrite autoProcessPendingData_run.
    destruct (db_error h (db_ops w) OpCount); [apply kept_refl|].
    pose proof (process_all_kept h (pending w) id (tick_db (tick_db w))) as Hk.
    destruct (pending w) as [|it rest]; [apply kept_refl|].
    destruct (db_error h (S (db_ops w)) OpFind); [apply kept_refl|].
    destruct (process_all h (it :: rest) (tick_db (tick_db w))) as [[results|e] w'];
      exact Hk.
  - intros itemId. rewrite process_item_run.
    destruct (ObjectId_parse itemId) as [id'|]; [|apply kept_refl].
    destruct (db_error h (db_ops w) (OpFindOne id')); [apply kept_refl|].
    destruct (raw_data w !! id') as [doc|]; [|apply kept_refl].
    destruct (status_is 0 doc); [|apply kept_refl].
    pose proof (processRawDataItem_kept h (id', doc) (tick_db w) id) as Hk.
    destruct (processRawDataItem h (id', doc) (tick_db w)) as [[result|e] w'];
      exact Hk.
Qed.

(** ** After a batch *)






(** ** The counts of the status route *)











(** The sample store: two records pending, one processed, none failed. *)
Example status_example :
  fst (get_status sample_host sample_world) = Ok (status_report 2 1 0 0).
Proof. vm_compute. reflexivity. Qed.

(** ** The single-item trigger, again *)

(** An attempt on a record of the store returns, when the store accepts the
    write that marks a record failed, and the status of the record is the one
    the result tells. *)
Lemma processRawDataItem_returns (h : Host) (item : Item) (w : World) :
  failure_writes_succeed h ->
  raw_data w !! item.1 = Some item.2 ->
  exists (r : Result) (w' : World),
    processRawDataItem h item w = (Ok r, w')
    /\ originalId r = item.1
    /\ status_of w' item.1 = Some (if success r then Processed else Failed).
Proof.
  intros Hfw Hdoc.
  destruct (processRawDataItem h item w) as [o w1] eqn:Hitem.
  destruct (processRawDataItem_cases _ _ _ _ _ Hitem)
    as [(tool & -> & Hraw & _) | [(e & -> & Hraw & _) | (e & e' & n & _ & Hdb & _)]].
  - eexists _, w1. split; [reflexivity|]. split; [reflexivity|].
    destruct (status_of_with_set _ _ _ _ _ Hraw Hdoc) as [_ ->].
    rewrite processed_set_status. reflexivity.
  - eexists _, w1. split; [reflexivity|]. split; [reflexivity|].
    destruct (status_of_with_set _ _ _ _ _ Hraw Hdoc) as [_ ->].
    destruct (failed_set_fields item.2 e (VDate (clock w))) as [-> _].
    reflexivity.
  - rewrite Hfw in Hdb. discriminate Hdb.
Qed.




(** Both answers, on the sample store: the service answers in full, the
    service rejects the request. *)
Example single_item_answers :
  fst (process_item second_fails (str "000000000000000000000001") sample_world)
  = Ok (item_processed (Some 100))
  /\ fst (process_item flaky_host (str "000000000000000000000001") sample_world)
     = Ok (server_error (str "429 Too Many Requests")).
Proof. split; vm_compute; reflexivity. Qed.

(** ** Identifiers *)





Lemma hex_digit_hex_char (d : N) : d < 16 -> hex_digit (hex_char d) = Some d.
Proof.
  intros Hd. unfold hex_char, hex_digit.
  destruct (d <? 10) eqn:H10.
  - apply N.ltb_lt in H10.
    replace (48 <=? 48 + d) with true by (symmetry; apply N.leb_le; lia).
    replace (48 + d <=? 57) with true by (symmetry; apply N.leb_le; lia).
    simpl. f_equal. lia.
  - apply N.ltb_ge in H10.
    replace (87 + d <=? 57) with false by (symmetry; apply N.leb_gt; lia).
    replace (87 + d <=? 70) with false by (symmetry; apply N.leb_gt; lia).
    replace (97 <=? 87 + d) with true by (symmetry; apply N.leb_le; lia).
    replace (87 + d <=? 102) with true by (symmetry; apply N.leb_le; lia).
    rewrite !andb_false_r. simpl. f_equal. lia.
Qed.

Lemma hex_digits_length (n : nat) (x : N) : length (hex_digits n x) = n.
Proof.
  revert x. induction n as [|n IH]; intros x; [reflexivity|].
  cbn [hex_digits]. rewrite length_app, IH. simpl. lia.
Qed.

Lemma parse_hex_digits (n : nat) :
  forall x a : N,
    x < 16 ^ N.of_nat n ->
    fold_left (fun acc c => match acc, hex_digit c with
                            | Some a, Some d => Some (a * 16 + d)
                            | _, _ => None
                            end) (hex_digits n x) (Some a)
    = Some (a * 16 ^ N.of_nat n + x).
Proof.
  induction n as [|n IH]; intros x a Hx.
  - simpl in *. f_equal. lia.
  - cbn [hex_digits]. rewrite fold_left_app.
    rewrite Nat2N.inj_succ, N.pow_succ_r' in *.
    assert (Hq : x / 16 < 16 ^ N.of_nat n).
    { apply N.Div0.div_lt_upper_bound. exact Hx. }
    rewrite (IH (x / 16) a Hq). cbn [fold_left].
    rewrite hex_digit_hex_char by (apply N.mod_lt; discriminate).
    f_equal. pose proof (N.div_mod x 16 ltac:(discriminate)) as Hdm.
    set (P := 16 ^ N.of_nat n) in *. nia.
Qed.

Lemma ObjectId_round_trip (id : N) :
  id < 2 ^ 96 -> ObjectId_parse (ObjectId_toString id) = Some id.
Proof.
  intros Hid. unfold ObjectId_parse, ObjectId_toString.
  rewrite hex_digits_length. cbn [Nat.eqb].
  rewrite parse_hex_digits; [f_equal; lia|].
  change (16 ^ N.of_nat 24) with (2 ^ 96). exact Hid.
Qed.

(** X12.  The [original_id] of an enriched record is the [_id] of its raw
    record written as 24 hexadecimal digits, whatever the analysis holds (a
    field of that name in the reply is overwritten); given as the [:id] of the
    single-item route it is read back as that [_id]. *)
Theorem original_id_round_trip (item : Item)
    (aiAnalysis logoUrl processed_at : Value) :
  item.1 < 2 ^ 96 ->
  exists s : jsstring,
    lookup (str "original_id") (tool_fields item aiAnalysis logoUrl processed_at)
    = Some (VStr s)
    /\ length s = 24%nat
    /\ ObjectId_parse s = Some item.1.
Proof.
  intros Hid. exists (ObjectId_toString item.1). split; [|split].
  - unfold tool_fields, obj_extend. cbn [fold_left fst snd].
    apply lookup_obj_set_eq.
  - apply hex_digits_length.
  - apply ObjectId_round_trip. exact Hid.
Qed.

Lemma original_id_round_trip_witness :
  exists s : jsstring,
    lookup (str "original_id")
      (tool_fields sample_item complete_value (VStr []) (VDate 0))
    = Some (VStr s)
    /\ length s = 24%nat
    /\ ObjectId_parse s = Some sample_item.1.
Proof.
  apply (original_id_round_trip sample_item complete_value (VStr []) (VDate 0)).
  reflexivity.
Defined.

(** ** Automatic processing *)

Lemma after_app (p : Process) (evs : list Event) (ev : Event) :
  after p (evs ++ [ev]) = fst (step (after p evs) ev).
Proof.
  revert p. induction evs as [|e evs IH]; intros p; [reflexivity|].
  cbn [app after]. apply IH.
Qed.

Lemma step_keeps_cron (p : Process) (ev : Event) :
  cron_task (fst (step p ev)) = cron_task p.
Proof.
  destruct ev as [v| |]; cbn [step].
  - destruct v; reflexivity.
  - destruct (startup_timer p); reflexivity.
  - destruct (cron_task p) eqn:Hc; cbn [fst]; exact Hc.
Qed.

Lemma after_keeps_cron (p : Process) (evs : list Event) :
  cron_task (after p evs) = cron_task p.
Proof.
  revert p. induction evs as [|e evs IH]; intros p; [reflexivity|].
  cbn [after]. rewrite IH. apply step_keeps_cron.
Qed.

Lemma nothing_armed_never_runs (evs : list Event) :
  forall p : Process,
    startup_timer p = false -> cron_task p = false -> runs p evs = 0%nat.
Proof.
  induction evs as [|ev evs IH]; intros p Ht Hc; [reflexivity|].
  cbn [runs].
  assert (Hstep : snd (step p ev) = false
                  /\ startup_timer (fst (step p ev)) = false
                  /\ cron_task (fst (step p ev)) = false).
  { destruct ev as [v| |]; cbn [step].
    - destruct v; repeat split; assumption.
    - rewrite Ht. repeat split; assumption.
    - rewrite Hc. repeat split; assumption. }
  destruct Hstep as (-> & Ht' & Hc'). rewrite (IH _ Ht' Hc'). reflexivity.
Qed.

(** X13.  A process started with [AUTO_PROCESS=false] never starts an
    automatic run, whatever is toggled afterwards: the startup run and the
    two-hourly task are armed only when the flag was on at the start.
    Enabling the flag through the route changes what the route reports, to
    enabled, and nothing else. *)
Theorem started_disabled_never_runs (evs : list Event) :
  let p0 := listening (load (Some (str "false"))) in
  runs p0 evs = 0%nat
  /\ get (body (fst (toggle_auto_process VUndefined
                       (after p0 (evs ++ [Toggle (VBool true)])))))
         (str "auto_process_enabled") = VBool true.
Proof.
  cbv zeta. split.
  - apply nothing_armed_never_runs; reflexivity.
  - rewrite after_app. reflexivity.
Qed.

Lemma enabled_after_toggle (v : Value) (p : Process) :
  v <> VUndefined ->
  enabled_in (env_AUTO_PROCESS (fst (step p (Toggle v)))) = truthy v.
Proof.
  intros Hv. cbn [step fst].
  destruct v; try congruence; cbn [toggle_auto_process snd set_env env_AUTO_PROCESS];
    match goal with |- context [truthy ?x] => destruct (truthy x) end;
    vm_compute; reflexivity.
Qed.

(** X14.  In a process started with the flag on, the last toggle decides:
    after a request that sets [enabled] to a value [v], the two-hourly task
    starts a run exactly when [v] is truthy, and the route reports the same
    when asked.  (The value is tested as JavaScript tests it: the string
    "false" is truthy and enables.) *)
Theorem last_toggle_decides (env : option jsstring) (evs : list Event)
    (v : Value) :
  enabled_in env = true ->
  v <> VUndefined ->
  let p := after (listening (load env)) (evs ++ [Toggle v]) in
  snd (step p CronFires) = truthy v
  /\ get (body (fst (toggle_auto_process VUndefined p)))
         (str "auto_process_enabled") = VBool (truthy v).
Proof.
  intros Henv Hv p.
  assert (Hcron : cron_task p = true).
  { unfold p. rewrite after_keeps_cron. unfold listening, load.
    cbn [AUTO_PROCESS]. rewrite Henv. reflexivity. }
  assert (Hen : enabled_in (env_AUTO_PROCESS p) = truthy v).
  { unfold p. rewrite after_app. apply enabled_after_toggle. exact Hv. }
  split.
  - cbn [step]. rewrite Hcron. cbn [snd]. exact Hen.
  - cbn [toggle_auto_process fst body]. rewrite Hen. reflexivity.
Qed.

Lemma last_toggle_decides_witness :
  let p := after (listening (load None))
             ([CronFires; Toggle (VBool false)] ++ [Toggle (VStr (str "false"))]) in
  snd (step p CronFires) = truthy (VStr (str "false"))
  /\ get (body (fst (toggle_auto_process VUndefined p)))
         (str "auto_process_enabled") = VBool (truthy (VStr (str "false"))).
Proof.
  apply (last_toggle_decides None [CronFires; Toggle (VBool false)]
           (VStr (str "false"))).
  - reflexivity.
  - discriminate.
Defined.

Lemma step_keeps_timer (p : Process) (ev : Event) :
  ev <> TimerFires -> startup_timer (fst (step p ev)) = startup_timer p.
Proof.
  intros Hev. destruct ev as [v| |]; cbn [step]; [|congruence|].
  - destruct v; reflexivity.
  - destruct (cron_task p); reflexivity.
Qed.

(** X15.  The startup run is decided when the server starts listening:
    started with the flag on, the process runs the batch once when the timer
    fires, also when automatic processing was disabled in between, and the
    timer does not fire a second run. *)
Theorem startup_run_is_not_cancelled (env : option jsstring) (evs : list Event) :
  enabled_in env = true ->
  TimerFires ∉ evs ->
  let p := after (listening (load env)) evs in
  snd (step p TimerFires) = true
  /\ runs p [TimerFires; TimerFires] = 1%nat.
Proof.
  intros Henv Hno p.
  assert (Ht : startup_timer p = true).
  { unfold p. clear p.
    assert (H0 : startup_timer (listening (load env)) = true).
    { unfold listening, load. cbn [AUTO_PROCESS]. rewrite Henv. reflexivity. }
    revert H0. generalize (listening (load env)).
    induction evs as [|ev evs IH]; intros q Hq; [exact Hq|].
    apply not_elem_of_cons in Hno as [Hev Hno].
    cbn [after]. apply IH; [exact Hno|].
    rewrite step_keeps_timer by congruence. exact Hq. }
  split.
  - cbn [step]. rewrite Ht. reflexivity.
  - cbn [runs step]. rewrite Ht. cbn [fst snd startup_timer]. reflexivity.
Qed.

Lemma startup_run_is_not_cancelled_witness :
  let p := after (listening (load (Some (str "true")))) [Toggle (VBool false)] in
  snd (step p TimerFires) = true
  /\ runs p [TimerFires; TimerFires] = 1%nat.
Proof.
  apply (startup_run_is_not_cancelled (Some (str "true")) [Toggle (VBool false)]).
  - reflexivity.
  - intros Hin. apply elem_of_cons in Hin as [H|H]; [discriminate H|inversion H].
Defined.

(** ** The earlier variant, one attempt *)

Lemma legacy_getAIAnalysis_run (h : Host) (toolName appUrl : Value) (w : World) :
  LegacyEngine.getAIAnalysis h toolName appUrl w
  = match chat_completion h (api_calls w) toolName appUrl with
    | ReplyError e => (Throw e, tick_api w)
    | ReplyContent content => (Ok (Legacy.normalize content), tick_api w)
    | ReplyNoContent => (Ok VNull, tick_api w)
    end.
Proof.
  unfold LegacyEngine.getAIAnalysis, bind, create_completion, ret.
  destruct (chat_completion h (api_calls w) toolName appUrl); reflexivity.
Qed.

(** X16.  In server1.js a reply that is the JSON text [null] (or an answer
    without text) is returned as it is, and reading its fields throws: the
    attempt fails, nothing is inserted, and the record is marked Failed with
    the message of the TypeError when the store accepts this write. *)
Theorem legacy_null_reply_fails (h : Host) (item : Item) (w : World) :
  let e := str "Cannot read properties of null (reading 'app_description')" in
  raw_data w !! item.1 = Some item.2 ->
  (chat_completion h (api_calls w) (field item (str "ai_tool_name"))
     (field item (str "app_url")) = ReplyNoContent
   \/ exists raw,
        chat_completion h (api_calls w) (field item (str "ai_tool_name"))
          (field item (str "app_url")) = ReplyContent raw
        /\ JSON_parse raw = Some VNull) ->
  db_error h (db_ops w) (OpUpdateOne item.1 (failed_set e (VDate (clock w)))) = None ->
  exists w' : World,
    LegacyEngine.processRawDataItem h item w = (Ok (failed item e), w')
    /\ processed_data w' = processed_data w
    /\ status_of w' item.1 = Some Failed
    /\ exists doc, raw_data w' !! item.1 = Some doc
                   /\ lookup (str "error_message") doc = Some (VStr e).
Proof.
  intros e Hdoc Hchat Hdb.
  assert (Hai : LegacyEngine.getAIAnalysis h (field item (str "ai_tool_name"))
                  (field item (str "app_url")) w = (Ok VNull, tick_api w)).
  { rewrite legacy_getAIAnalysis_run.
    destruct Hchat as [-> | (raw & -> & Hp)]; [reflexivity|].
    unfold Legacy.normalize. rewrite Hp. reflexivity. }
  unfold LegacyEngine.processRawDataItem, try_catch, LegacyEngine.attempt.
  unfold bind at 1. rewrite Hai. unfold throw.
  rewrite on_error_run. cbn [db_ops clock tick_api]. fold e. rewrite Hdb.
  eexists. split; [reflexivity|]. split; [reflexivity|].
  destruct (failed_status (tick_api w)
              (set_raw (with_set item.1 (failed_set e (VDate (clock w))) (raw_data w))
                 (tick_db (tick_api w)))
              item e (VDate (clock w)) Hdoc eq_refl)
    as (Hst & doc & Hlook & _ & Hmsg & _).
  split; [exact Hst|]. exists doc. auto.
Qed.

Lemma legacy_null_reply_fails_witness :
  let e := str "Cannot read properties of null (reading 'app_description')" in
  exists w' : World,
    LegacyEngine.processRawDataItem null_host sample_item sample_world
    = (Ok (failed sample_item e), w')
    /\ processed_data w' = processed_data sample_world
    /\ status_of w' sample_item.1 = Some Failed
    /\ exists doc, raw_data w' !! sample_item.1 = Some doc
                   /\ lookup (str "error_message") doc = Some (VStr e).
Proof.
  apply (legacy_null_reply_fails null_host sample_item sample_world).
  - reflexivity.
  - right. exists (str "null"). split; [reflexivity|vm_compute; reflexivity].
  - reflexivity.
Defined.

(** X17.  Apart from that, server1.js stores whatever the reply gives, with
    no check: when the store works, any reply that is not [null] ends with
    the record Processed and one document inserted, whose analysis fields are
    those of the decoded value, [undefined] where it has none (a number, a
    string, an object with other keys), and the placeholders of lines 87 to
    92 when the reply is no JSON. *)
Theorem legacy_stores_any_reply (h : Host) (item : Item) (w : World)
    (raw : jsstring) :
  store_reliable h ->
  raw_data w !! item.1 = Some item.2 ->
  chat_completion h (api_calls w) (field item (str "ai_tool_name"))
    (field item (str "app_url")) = ReplyContent raw ->
  readable (Legacy.normalize raw) = true ->
  let doc := LegacyEngine.processedData item (Legacy.normalize raw)
               (VDate (clock w)) in
  exists w' : World,
    LegacyEngine.processRawDataItem h item w
    = (Ok {| success := true; processedId := Some (next_id w);
             error := None; originalId := item.1 |}, w')
    /\ processed_data w' = processed_data w ++ [(next_id w, doc)]
    /\ status_of w' item.1 = Some Processed
    /\ (forall v, JSON_parse raw = Some v ->
          lookup (str "app_description") doc = Some (get v (str "app_description")))
    /\ (JSON_parse raw = None ->
          lookup (str "app_description") doc
          = Some (VStr (substring0 500 raw ++ str "..."))).
Proof.
  intros Hrel Hdoc Hchat Hread doc.
  unfold LegacyEngine.processRawDataItem, try_catch, LegacyEngine.attempt.
  unfold bind at 1. rewrite legacy_getAIAnalysis_run, Hchat.
  assert (Hrun :
    (do now <- new_Date;
     do insertedId <- LegacyEngine.insertOne h
                        (LegacyEngine.processedData item (Legacy.normalize raw) now);
     do now' <- new_Date;
     do _ <- updateOne h item.1 (processed_set now');
     ret {| success := true; processedId := Some insertedId;
            error := None; originalId := item.1 |}) (tick_api w)
    = (Ok {| success := true; processedId := Some (next_id w);
             error := None; originalId := item.1 |},
       set_raw (with_set item.1 (processed_set (VDate (clock w))) (raw_data w))
         (tick_db (add_processed (next_id w, doc) (bump_id (tick_db (tick_api w))))))).
  { unfold new_Date, LegacyEngine.insertOne, updateOne, db_call, ret, bind.
    cbn [clock tick_api db_ops next_id]. rewrite Hrel.
    cbn [db_ops add_processed bump_id tick_db tick_api clock].
    rewrite Hrel. reflexivity. }
  eexists.
  split.
  { destruct (Legacy.normalize raw); try discriminate Hread; rewrite Hrun;
      reflexivity. }
  split; [reflexivity|]. split.
  - unfold status_of. cbn [raw_data set_raw]. unfold with_set.
    rewrite lookup_alter_eq, Hdoc. cbn [fmap option_fmap option_map].
    rewrite processed_set_status. reflexivity.
  - split.
    + intros v Hv. unfold doc, Legacy.normalize. rewrite Hv. reflexivity.
    + intros Hv. unfold doc, Legacy.normalize. rewrite Hv. reflexivity.
Qed.

Lemma legacy_stores_any_reply_witness :
  let doc := LegacyEngine.processedData sample_item
               (Legacy.normalize (str "42")) (VDate (clock sample_world)) in
  exists w' : World,
    LegacyEngine.processRawDataItem number_host sample_item sample_world
    = (Ok {| success := true; processedId := Some (next_id sample_world);
             error := None; originalId := sample_item.1 |}, w')
    /\ processed_data w' = processed_data sample_world ++ [(next_id sample_world, doc)]
    /\ status_of w' sample_item.1 = Some Processed
    /\ (forall v, JSON_parse (str "42") = Some v ->
          lookup (str "app_description") doc = Some (get v (str "app_description")))
    /\ (JSON_parse (str "42") = None ->
          lookup (str "app_description") doc
          = Some (VStr (substring0 500 (str "42") ++ str "..."))).
Proof.
  apply (legacy_stores_any_reply number_host sample_item sample_world (str "42")).
  - intros n op. reflexivity.
  - reflexivity.
  - reflexivity.
  - vm_compute. reflexivity.
Defined.

(** ** The scheduled run and the route *)

(** With a store that works, an attempt does not depend on the number of
    store operations sent before it. *)
Lemma processRawDataItem_with_ops (h : Host) (item : Item) (w : World) (n : nat) :
  store_reliable h ->
  fst (processRawDataItem h item (with_ops n w)) = fst (processRawDataItem h item w)
  /\ exists m, snd (processRawDataItem h item (with_ops n w))
               = with_ops m (snd (processRawDataItem h item w)).
Proof.
  intros Hrel. unfold processRawDataItem, try_catch. rewrite !attempt_run.
  assert (Hai : fst (getAIAnalysis h (toolName_of item) (appUrl_of item) (with_ops n w))
                = fst (getAIAnalysis h (toolName_of item) (appUrl_of item) w)).
  { unfold getAIAnalysis, bind, create_completion. cbn [api_calls with_ops].
    destruct (chat_completion h (api_calls w) _ _); reflexivity. }
  rewrite Hai. cbv zeta. cbn [clock next_id db_ops with_ops].
  destruct (fst (getAIAnalysis h (toolName_of item) (appUrl_of item) w))
    as [aiAnalysis|e].
  - destruct (missing_paths _) as [|p paths].
    + rewrite !Hrel. cbn [fst snd]. split; [reflexivity|]. eexists. reflexivity.
    + rewrite !on_error_run, !Hrel. cbn [fst snd]. split; [reflexivity|].
      eexists. reflexivity.
  - rewrite !on_error_run, !Hrel. cbn [fst snd]. split; [reflexivity|].
    eexists. reflexivity.
Qed.

Lemma process_all_with_ops (h : Host) (items : list Item) :
  store_reliable h ->
  forall (w : World) (n : nat),
    fst (process_all h items (with_ops n w)) = fst (process_all h items w)
    /\ exists m, snd (process_all h items (with_ops n w))
                 = with_ops m (snd (process_all h items w)).
Proof.
  intros Hrel. induction items as [|item rest IH]; intros w n.
  - split; [reflexivity|]. exists n. reflexivity.
  - rewrite !process_all_cons.
    destruct (processRawDataItem_with_ops h item w n Hrel) as (Hfst & m & Hsnd).
    destruct (processRawDataItem h item (with_ops n w)) as [o1 w1].
    destruct (processRawDataItem h item w) as [o2 w2].
    cbn [fst snd] in Hfst, Hsnd. subst o1 w1.
    destruct o2 as [result|e]; [|split; [reflexivity|exists m; reflexivity]].
    change (advance 1000 (with_ops m w2)) with (with_ops m (advance 1000 w2)).
    destruct (IH (advance 1000 w2) m) as (Hf & m' & Hs).
    destruct (process_all h rest (with_ops m (advance 1000 w2))) as [o3 w3].
    destruct (process_all h rest (advance 1000 w2)) as [o4 w4].
    cbn [fst snd] in Hf, Hs. subst o3 w3.
    destruct o4 as [results|e]; (split; [reflexivity|exists m'; reflexivity]).
Qed.

(** X18.  With a store that works the scheduled run does to the two
    collections exactly what the route does, record by record, and sends the
    same requests; the two numbers it logs are the ones the route puts in
    its summary. *)
Theorem scheduled_run_is_the_batch (h : Host) (w : World) :
  store_reliable h ->
  let manual := process_raw_data h w in
  let scheduled := autoProcessPendingData h w in
  raw_data (snd scheduled) = raw_data (snd manual)
  /\ processed_data (snd scheduled) = processed_data (snd manual)
  /\ api_calls (snd scheduled) = api_calls (snd manual)
  /\ clock (snd scheduled) = clock (snd manual)
  /\ (pending w <> [] ->
      exists results : list Result,
        fst manual = Ok (summary results)
        /\ fst scheduled = Ok (Some (count_success results, count_failed results))
        /\ length results = length (pending w)).
Proof.
  intros Hrel. cbv zeta.
  rewrite process_raw_data_run, autoProcessPendingData_run, !Hrel.
  destruct (process_all_with_ops h (pending w) Hrel (tick_db w) (S (S (db_ops w))))
    as (Hfst & m & Hsnd).
  change (with_ops (S (S (db_ops w))) (tick_db w)) with (tick_db (tick_db w))
    in Hfst, Hsnd.
  destruct (pending_loop h w (tick_db w)) as (results & w1 & Hrun & Hids & _);
    [intros n id e now; apply Hrel|reflexivity|].
  rewrite Hrun in Hfst, Hsnd. cbn [fst snd] in Hfst, Hsnd.
  destruct (process_all h (pending w) (tick_db (tick_db w))) as [o2 w2].
  cbn [fst snd] in Hfst, Hsnd. subst o2 w2.
  destruct (pending w) as [|it rest] eqn:Hp.
  - repeat (split; [reflexivity|]). intros H. congruence.
  - rewrite Hrun. cbn [fst snd].
    repeat (split; [reflexivity|]). intros _. exists results.
    split; [reflexivity|]. split; [reflexivity|].
    rewrite <- (length_fmap originalId results), Hids, length_fmap. reflexivity.
Qed.

Lemma scheduled_run_is_the_batch_witness :
  let manual := process_raw_data flaky_host sample_world in
  let scheduled := autoProcessPendingData flaky_host sample_world in
  raw_data (snd scheduled) = raw_data (snd manual)
  /\ processed_data (snd scheduled) = processed_data (snd manual)
  /\ api_calls (snd scheduled) = api_calls (snd manual)
  /\ clock (snd scheduled) = clock (snd manual)
  /\ (pending sample_world <> [] ->
      exists results : list Result,
        fst manual = Ok (summary results)
        /\ fst scheduled = Ok (Some (count_success results, count_failed results))
        /\ length results = length (pending sample_world)).
Proof.
  apply (scheduled_run_is_the_batch flaky_host sample_world).
  intros n op. reflexivity.
Defined.

(** ** A name that is no string *)

(** X19.  The fallback needs a name that is a string.  When the name of the
    record is another value (a number, say) and the reply is not accepted,
    building the slug throws; this error is not caught inside the analysis:
    the attempt fails, no enriched record is stored, and the record is
    marked Failed when the store accepts this write. *)
Theorem malformed_reply_without_string_name_fails (h : Host) (item : Item)
    (w : World) (raw : jsstring) (e0 : Error) :
  let e := str "safeName.toLowerCase is not a function" in
  raw_data w !! item.1 = Some item.2 ->
  chat_completion h (api_calls w) (safeName_of (toolName_of item))
    (safeUrl_of (appUrl_of item)) = ReplyContent raw ->
  decode_reply (clean raw) = Throw e0 ->
  (forall n : jsstring, safeName_of (toolName_of item) <> VStr n) ->
  db_error h (db_ops w) (OpUpdateOne item.1 (failed_set e (VDate (clock w)))) = None ->
  exists w' : World,
    processRawDataItem h item w = (Ok (failed item e), w')
    /\ processed_data w' = processed_data w
    /\ status_of w' item.1 = Some Failed
    /\ exists doc, raw_data w' !! item.1 = Some doc
                   /\ lookup (str "error_message") doc = Some (VStr e).
Proof.
  intros e Hdoc Hchat Hdec Hname Hdb.
  assert (Hai : fst (getAIAnalysis h (toolName_of item) (appUrl_of item) w) = Throw e).
  { unfold getAIAnalysis, bind, create_completion, lift. rewrite Hchat.
    cbn [fst]. unfold normalize. rewrite Hdec. unfold fallback.
    destruct (safeName_of (toolName_of item)) as [| |b|q|s|items|props|id|ms];
      try reflexivity.
    exfalso. apply (Hname s). reflexivity. }
  unfold processRawDataItem, try_catch. rewrite attempt_run, Hai.
  rewrite on_error_run. cbn [db_ops clock tick_api]. rewrite Hdb.
  eexists. split; [reflexivity|]. split; [reflexivity|].
  destruct (failed_status (tick_api w)
              (set_raw (with_set item.1 (failed_set e (VDate (clock w))) (raw_data w))
                 (tick_db (tick_api w)))
              item e (VDate (clock w)) Hdoc eq_refl)
    as (Hst & doc & Hlook & _ & Hmsg & _).
  split; [exact Hst|]. exists doc. auto.
Qed.

Lemma malformed_reply_without_string_name_fails_witness :
  let e := str "safeName.toLowerCase is not a function" in
  exists w' : World,
    processRawDataItem sample_host numbered_item numbered_world
    = (Ok (failed numbered_item e), w')
    /\ processed_data w' = processed_data numbered_world
    /\ status_of w' numbered_item.1 = Some Failed
    /\ exists doc, raw_data w' !! numbered_item.1 = Some doc
                   /\ lookup (str "error_message") doc = Some (VStr e).
Proof.
  apply (malformed_reply_without_string_name_fails sample_host numbered_item
           numbered_world prose (str "Unexpected token in JSON")).
  - reflexivity.
  - reflexivity.
  - vm_compute. reflexivity.
  - intros n Hn. vm_compute in Hn. discriminate Hn.
  - reflexivity.
Defined.

(** ** The fields of an enriched record *)

(** X20.  The reply cannot set the fields the engine adds to an enriched
    record: whatever the analysis holds under [logo_url], [status],
    [processed_at] or [original_id], the record stored has the logo of the
    raw record, the status 10, the time of the attempt and the id of the raw
    record there; every other field is the one of the analysis. *)
Theorem engine_fields_override_reply (item : Item)
    (aiAnalysis logoUrl processed_at : Value) :
  let doc := tool_fields item aiAnalysis logoUrl processed_at in
  lookup (str "logo_url") doc = Some logoUrl
  /\ lookup (str "status") doc = Some (VInt 10)
  /\ lookup (str "processed_at") doc = Some processed_at
  /\ lookup (str "original_id") doc = Some (VStr (ObjectId_toString item.1))
  /\ (forall k : jsstring,
        k ∉ [str "logo_url"; str "status"; str "processed_at"; str "original_id"] ->
        lookup k doc = lookup k (own_props aiAnalysis)).
Proof.
  cbv zeta. unfold tool_fields. repeat split.
  - unfold obj_extend. cbn [fold_left fst snd].
    rewrite !lookup_obj_set_ne by (apply key_neq; vm_compute; reflexivity).
    apply lookup_obj_set_eq.
  - unfold obj_extend. cbn [fold_left fst snd].
    rewrite !lookup_obj_set_ne by (apply key_neq; vm_compute; reflexivity).
    apply lookup_obj_set_eq.
  - unfold obj_extend. cbn [fold_left fst snd].
    rewrite !lookup_obj_set_ne by (apply key_neq; vm_compute; reflexivity).
    apply lookup_obj_set_eq.
  - unfold obj_extend. cbn [fold_left fst snd]. apply lookup_obj_set_eq.
  - intros k Hk. apply lookup_obj_extend_other. exact Hk.
Qed.

(** ** A processed record and its enriched record *)

(** A successful attempt: the tool it built is the one more enriched record,
    and its id is the one returned. *)
Lemma processRawDataItem_success (h : Host) (item : Item) (w : World)
    (r : Result) (w' : World) :
  processRawDataItem h item w = (Ok r, w') ->
  success r = true ->
  exists aiAnalysis : Value,
    let tool := (next_id w,
                 tool_fields item aiAnalysis (logoUrl_of item) (VDate (clock w))) in
    r = succeeded item tool
    /\ processed_data w' = processed_data w ++ [tool].
Proof.
  unfold processRawDataItem, try_catch. rewrite attempt_run. cbv zeta.
  destruct (fst (getAIAnalysis h (toolName_of item) (appUrl_of item) w))
    as [aiAnalysis|e].
  - destruct (missing_paths _) as [|p paths].
    + destruct (db_error h (db_ops w) (OpSave _)) as [e|].
      * rewrite on_error_run. destruct (db_error _ _ _); intros [= <- <-] Hs;
          discriminate Hs.
      * destruct (db_error h (S (db_ops w)) (OpUpdateOne _ (processed_set _)))
          as [e|].
        -- rewrite on_error_run. destruct (db_error _ _ _); intros [= <- <-] Hs;
             discriminate Hs.
        -- intros [= <- <-] _. exists aiAnalysis. split; reflexivity.
    + rewrite on_error_run. destruct (db_error _ _ _); intros [= <- <-] Hs;
        discriminate Hs.
  - rewrite on_error_run. destruct (db_error _ _ _); intros [= <- <-] Hs;
      discriminate Hs.
Qed.

Lemma process_all_success (h : Host) (items : list Item) :
  forall (w : World) (results : list Result) (w' : World),
    process_all h items w = (Ok results, w') ->
    forall r : Result, r ∈ results -> success r = true ->
      exists tool : N * Props,
        tool ∈ processed_data w'
        /\ processedId r = Some tool.1
        /\ refers_to (originalId r) tool = true.
Proof.
  induction items as [|item rest IH]; intros w results w' Hrun r Hr Hs.
  - cbn in Hrun. injection Hrun as <- <-. inversion Hr.
  - rewrite process_all_cons in Hrun.
    destruct (processRawDataItem h item w) as [[r1|e] w1] eqn:Hitem;
      [|discriminate Hrun].
    destruct (process_all_effects h rest (advance 1000 w1))
      as (_ & (added & Hadd & _) & _).
    destruct (process_all h rest (advance 1000 w1)) as [[rs|e] w2] eqn:Hrest;
      [|discriminate Hrun].
    injection Hrun as <- <-. cbn [snd processed_data advance] in Hadd.
    apply elem_of_cons in Hr as [-> | Hr].
    + destruct (processRawDataItem_success _ _ _ _ _ Hitem Hs) as (ai & -> & Hp).
      eexists. split; [|split; [reflexivity|]].
      * rewrite Hadd, Hp. apply elem_of_app. left. apply elem_of_app. right.
        apply list_elem_of_singleton. reflexivity.
      * unfold refers_to, tool_fields, obj_extend.
        cbn [snd fst fold_left succeeded originalId].
        rewrite lookup_obj_set_eq. apply bool_decide_eq_true. reflexivity.
    + apply (IH _ _ _ Hrest r Hr Hs).
Qed.

(** X21.  A record that the batch marks processed has its enriched record:
    when the batch runs to its end, every result that reports success names
    the id of an enriched record that is stored, refers to the raw record by
    its [original_id], and belongs to a raw record whose status is 1. *)
Theorem processed_record_has_its_enriched_record (h : Host) (w : World) :
  failure_writes_succeed h ->
  db_error h (db_ops w) OpFind = None ->
  pending w <> [] ->
  exists (results : list Result) (w' : World),
    process_raw_data h w = (Ok (summary results), w')
    /\ forall r : Result, r ∈ results -> success r = true ->
         status_of w' (originalId r) = Some Processed
         /\ exists tool : N * Props,
              tool ∈ enriched_for w' (originalId r)
              /\ processedId r = Some tool.1.
Proof.
  intros Hfw Hfind Hne.
  destruct (pending_loop h w (tick_db w) Hfw eq_refl)
    as (results & w' & Hrun & _ & _ & Hst).
  exists results, w'. split.
  - rewrite process_raw_data_run, Hfind, Hrun.
    destruct (pending w); [congruence|reflexivity].
  - intros r Hr Hs. split; [apply (Hst r Hr); exact Hs|].
    destruct (process_all_success _ _ _ _ _ Hrun r Hr Hs) as (tool & Hin & Hid & Href).
    exists tool. split; [|exact Hid].
    unfold enriched_for. apply list_elem_of_filter. split; assumption.
Qed.

Lemma processed_record_has_its_enriched_record_witness :
  exists (results : list Result) (w' : World),
    process_raw_data flaky_host sample_world = (Ok (summary results), w')
    /\ forall r : Result, r ∈ results -> success r = true ->
         status_of w' (originalId r) = Some Processed
         /\ exists tool : N * Props,
              tool ∈ enriched_for w' (originalId r)
              /\ processedId r = Some tool.1.
Proof.
  apply (processed_record_has_its_enriched_record flaky_host sample_world).
  - intros n id e now. reflexivity.
  - reflexivity.
  - vm_compute. discriminate.
Defined.
